(** * libragen: chunking, search-result merging and time estimation

    A shallow embedding of the parts of libragen that the specification
    speaks about, with the properties proved over it.

    - [Js]           completions (return / throw) of JavaScript calls
    - [NodePath]     Node's [path.extname] and [String.prototype.toLowerCase]
    - [CodeChunker]  packages/core/src/code-chunker.ts
    - [McpSearch]    the [libragen_search] MCP tool (result merging)
    - [TimeEstimate] the build command's time estimation
    - [Storage], [Migration], [HybridSearch], [ChunkSplitter]
                     components of @libragen/core described by the
                     specification only. *)

From Stdlib Require Import String Ascii List ZArith QArith Lia Bool.
From Stdlib Require Import Permutation Sorted Qround DecimalString Lqa.
Import ListNotations.

Open Scope string_scope.
Open Scope Z_scope.

(* ================================================================= *)
(** ** JavaScript completions *)

Module Js.

(** A thrown value: an [Error] object (only its [message] is ever read)
    or any other value, of which only [String(value)] is ever read. *)
Inductive Thrown : Type :=
| ErrorObject (message : string)
| OtherValue (asString : string).

(** The completion of a call (or the settlement of the promise an
    [async] function returns): a value, or a thrown value. *)
Inductive Completion (A : Type) : Type :=
| Return (a : A)
| Throw (e : Thrown).
Arguments Return {A} a.
Arguments Throw {A} e.

Definition bind {A B} (c : Completion A) (k : A -> Completion B)
  : Completion B :=
  match c with
  | Return a => k a
  | Throw e => Throw e
  end.

(** [try { c } catch (e) { handler e }] *)
Definition try_catch {A} (c : Completion A) (handler : Thrown -> Completion A)
  : Completion A :=
  match c with
  | Return a => Return a
  | Throw e => handler e
  end.

(** [error instanceof Error ? error.message : String(error)] *)
Definition messageOf (error : Thrown) : string :=
  match error with
  | ErrorObject message => message
  | OtherValue s => s
  end.

Definition returns {A} (c : Completion A) : bool :=
  match c with Return _ => true | Throw _ => false end.

End Js.

Declare Scope js_scope.
Delimit Scope js_scope with js.
Notation "x <- c ;; k" := (Js.bind c (fun x => k))
  (at level 61, c at next level, right associativity) : js_scope.
Notation "'try' c 'catch' e => h" := (Js.try_catch c (fun e => h))
  (at level 62, c at level 61, e name, h at level 61) : js_scope.

(* ================================================================= *)
(** ** Node's path.extname and String.prototype.toLowerCase *)

Module NodePath.

Definition is_upper (c : ascii) : bool :=
  ((65 <=? nat_of_ascii c) && (nat_of_ascii c <=? 90))%nat.

Definition lower_ascii (c : ascii) : ascii :=
  if is_upper c then ascii_of_nat (nat_of_ascii c + 32) else c.

(** [s.toLowerCase()] on the ASCII range.  Outside ASCII the only code
    point whose lower case is an ASCII letter is the Kelvin sign (k),
    a letter that no extension of the table below contains. *)
Fixpoint toLowerCase (s : string) : string :=
  match s with
  | EmptyString => EmptyString
  | String c rest => String (lower_ascii c) (toLowerCase rest)
  end.

(** State of the backwards scan of [path.posix.extname]; [None] stands
    for the index [-1] of the original. *)
Record ExtScan : Type := mkExtScan {
  startDot : option nat;
  startPart : nat;
  endIdx : option nat;
  matchedSlash : bool;
  preDotState : Z;
  stopped : bool
}.

Definition scan_step (st : ExtScan) (ic : nat * ascii) : ExtScan :=
  let (i, code) := ic in
  if stopped st then st
  else if Ascii.eqb code "/"%char then
    if negb (matchedSlash st)
    then mkExtScan (startDot st) (S i) (endIdx st) (matchedSlash st)
                   (preDotState st) true
    else st
  else
    let st1 :=
      match endIdx st with
      | None => mkExtScan (startDot st) (startPart st) (Some (S i)) false
                          (preDotState st) false
      | Some _ => st
      end in
    if Ascii.eqb code "."%char then
      match startDot st1 with
      | None => mkExtScan (Some i) (startPart st1) (endIdx st1)
                          (matchedSlash st1) (preDotState st1) false
      | Some _ =>
          if negb (preDotState st1 =? 1)
          then mkExtScan (startDot st1) (startPart st1) (endIdx st1)
                         (matchedSlash st1) 1 false
          else st1
      end
    else
      match startDot st1 with
      | Some _ => mkExtScan (startDot st1) (startPart st1) (endIdx st1)
                            (matchedSlash st1) (-1) false
      | None => st1
      end.

Fixpoint indexed (i : nat) (l : list ascii) : list (nat * ascii) :=
  match l with
  | [] => []
  | c :: rest => (i, c) :: indexed (S i) rest
  end.

(** [path.extname(p)] (POSIX flavour): the part of the last path
    segment from its last dot on, empty when there is none or when the
    segment only starts with it. *)
Definition extname (p : string) : string :=
  let chars := indexed 0 (list_ascii_of_string p) in
  let st := fold_left scan_step (rev chars)
                      (mkExtScan None 0 None true 0 false) in
  match startDot st, endIdx st with
  | Some sd, Some e =>
      if (preDotState st =? 0)
         || ((preDotState st =? 1) && Nat.eqb sd (e - 1)
             && Nat.eqb sd (startPart st + 1))
      then ""
      else substring sd (e - sd) p
  | _, _ => ""
  end.

End NodePath.

(* ================================================================= *)
(** ** packages/core/src/code-chunker.ts *)

Module CodeChunker.
Import Js.

(** [CodeChunkerLanguage] *)
Inductive CodeChunkerLanguage : Type :=
| typescript | javascript | python | rust | go | java.

(** [ContextMode] *)
Inductive ContextMode : Type := none | minimal | full.

(** [CodeChunkerConfig]; every field is optional. *)
Record CodeChunkerConfig : Type := mkConfig {
  cfg_maxChunkSize : option Z;
  cfg_contextMode : option ContextMode;
  cfg_overlapLines : option Z
}.

(** [Required<CodeChunkerConfig>], the private [_config]. *)
Record Config : Type := mkRequiredConfig {
  maxChunkSize : Z;
  contextMode : ContextMode;
  overlapLines : Z
}.

(** *** The shapes of the code-chunk library *)

Record CCLineRange : Type := mkCCLineRange {
  cc_start : Z;
  cc_end : Z
}.

Record CCScope : Type := mkCCScope {
  cc_scope_name : string;
  cc_scope_type : string;
  cc_scope_signature : option string
}.

Record CCEntity : Type := mkCCEntity {
  cc_entity_name : string;
  cc_entity_type : string;
  cc_entity_signature : option string;
  cc_entity_docstring : option string;
  cc_entity_lineRange : option CCLineRange;
  cc_entity_isPartial : bool
}.

Record CCSibling : Type := mkCCSibling {
  cc_sibling_name : string;
  cc_sibling_type : string;
  cc_sibling_position : string;
  cc_sibling_distance : Z
}.

Record CCImport : Type := mkCCImport {
  cc_import_name : string;
  cc_import_source : string;
  cc_import_isDefault : bool;
  cc_import_isNamespace : bool
}.

Record CCContext : Type := mkCCContext {
  cc_scope : list CCScope;
  cc_entities : list CCEntity;
  cc_siblings : list CCSibling;
  cc_imports : list CCImport
}.

(** [CodeChunkChunk], a chunk as the code-chunk library returns it. *)
Record CodeChunkChunk : Type := mkCodeChunkChunk {
  cc_text : string;
  cc_contextualizedText : string;
  cc_lineRange : CCLineRange;
  cc_context : CCContext
}.

(** [CodeChunkOptions] *)
Record CodeChunkOptions : Type := mkOptions {
  opt_maxChunkSize : Z;
  opt_contextMode : ContextMode;
  opt_overlapLines : Z;
  opt_language : CodeChunkerLanguage
}.

(** *** The shapes of chunker.ts that code-chunker.ts fills in *)

Record LineRange : Type := mkLineRange {
  lr_start : Z;
  lr_end : Z
}.

Record ScopeInfo : Type := mkScopeInfo {
  scope_name : string;
  scope_type : string;
  scope_signature : option string
}.

Record EntityInfo : Type := mkEntityInfo {
  entity_name : string;
  entity_type : string;
  entity_signature : option string;
  entity_docstring : option string;
  entity_lineRange : option LineRange;
  entity_isPartial : bool
}.

Record SiblingInfo : Type := mkSiblingInfo {
  sibling_name : string;
  sibling_type : string;
  sibling_position : string;
  sibling_distance : Z
}.

Record ImportInfo : Type := mkImportInfo {
  import_name : string;
  import_source : string;
  import_isDefault : bool;
  import_isNamespace : bool
}.

Record CodeContext : Type := mkCodeContext {
  scope : list ScopeInfo;
  entities : list EntityInfo;
  siblings : list SiblingInfo;
  imports : list ImportInfo
}.

Record ChunkMetadata : Type := mkChunkMetadata {
  sourceFile : string;
  startLine : option Z;
  endLine : option Z;
  language : option CodeChunkerLanguage;
  codeContext : option CodeContext
}.

Record Chunk : Type := mkChunk {
  content : string;
  embeddingContent : option string;
  metadata : ChunkMetadata
}.

(** The two fields of [SourceFile] (sources/files.ts) that are read. *)
Record SourceFile : Type := mkSourceFile {
  relativePath : string;
  file_content : string
}.

(** *** Constants *)

(** [EXTENSION_TO_LANGUAGE], in the order of its keys. *)
Definition EXTENSION_TO_LANGUAGE : list (string * CodeChunkerLanguage) :=
  [ (".ts", typescript); (".tsx", typescript); (".mts", typescript);
    (".cts", typescript);
    (".js", javascript); (".jsx", javascript); (".mjs", javascript);
    (".cjs", javascript);
    (".py", python); (".pyi", python);
    (".rs", rust);
    (".go", go);
    (".java", java) ].

Definition DEFAULT_MAX_CHUNK_SIZE : Z := 1500.
Definition DEFAULT_CONTEXT_MODE : ContextMode := full.
Definition DEFAULT_OVERLAP_LINES : Z := 0.

(** [a ?? b] *)
Definition nullish {A} (a : option A) (b : A) : A :=
  match a with Some v => v | None => b end.

(** [EXTENSION_TO_LANGUAGE[ext]], own properties only: the names that
    [Object.prototype] adds are neither empty nor start with a dot,
    and an extension is one or the other. *)
Fixpoint lookup (ext : string) (table : list (string * CodeChunkerLanguage))
  : option CodeChunkerLanguage :=
  match table with
  | [] => None
  | (k, v) :: rest => if String.eqb k ext then Some v else lookup ext rest
  end.

(** [ext in EXTENSION_TO_LANGUAGE] *)
Definition has_key (ext : string) (table : list (string * CodeChunkerLanguage))
  : bool :=
  existsb (fun kv => String.eqb (fst kv) ext) table.

Section WithCapabilities.

(** [path.extname] of the platform. *)
Variable extname : string -> string.

(** The [chunk] function of the code-chunk library:
    [codeChunk filePath content options]. *)
Variable codeChunk :
  string -> string -> CodeChunkOptions -> Completion (list CodeChunkChunk).

(** [new CodeChunker(config)] *)
Definition new_CodeChunker (config : CodeChunkerConfig) : Config :=
  mkRequiredConfig
    (nullish (cfg_maxChunkSize config) DEFAULT_MAX_CHUNK_SIZE)
    (nullish (cfg_contextMode config) DEFAULT_CONTEXT_MODE)
    (nullish (cfg_overlapLines config) DEFAULT_OVERLAP_LINES).

Definition isSupported (filePath : string) : bool :=
  let ext := NodePath.toLowerCase (extname filePath) in
  has_key ext EXTENSION_TO_LANGUAGE.

Definition detectLanguage (filePath : string) : option CodeChunkerLanguage :=
  let ext := NodePath.toLowerCase (extname filePath) in
  lookup ext EXTENSION_TO_LANGUAGE.

Definition getSupportedExtensions : list string :=
  map fst EXTENSION_TO_LANGUAGE.

Definition _mapChunk (chunk : CodeChunkChunk) (filePath : string)
           (language : CodeChunkerLanguage) : Chunk :=
  let codeContext :=
    mkCodeContext
      (map (fun s => mkScopeInfo (cc_scope_name s) (cc_scope_type s)
                                 (cc_scope_signature s))
           (cc_scope (cc_context chunk)))
      (map (fun e =>
              mkEntityInfo (cc_entity_name e) (cc_entity_type e)
                (cc_entity_signature e) (cc_entity_docstring e)
                (match cc_entity_lineRange e with
                 | Some r => Some (mkLineRange (cc_start r) (cc_end r))
                 | None => None
                 end)
                (cc_entity_isPartial e))
           (cc_entities (cc_context chunk)))
      (map (fun s => mkSiblingInfo (cc_sibling_name s) (cc_sibling_type s)
                                   (cc_sibling_position s)
                                   (cc_sibling_distance s))
           (cc_siblings (cc_context chunk)))
      (map (fun i => mkImportInfo (cc_import_name i) (cc_import_source i)
                                  (cc_import_isDefault i)
                                  (cc_import_isNamespace i))
           (cc_imports (cc_context chunk))) in
  let metadata :=
    mkChunkMetadata
      filePath
      (Some (cc_start (cc_lineRange chunk) + 1))
      (Some (cc_end (cc_lineRange chunk) + 1))
      (Some language)
      (Some codeContext) in
  mkChunk (cc_text chunk) (Some (cc_contextualizedText chunk)) metadata.

(** The options [chunkText] hands to the library. *)
Definition optionsFor (self : Config) (language : CodeChunkerLanguage)
  : CodeChunkOptions :=
  mkOptions (maxChunkSize self) (contextMode self) (overlapLines self)
            language.

(** The error of the first [throw] of [chunkText]. *)
Definition UnsupportedFileType (filePath : string) : Thrown :=
  ErrorObject ("Unsupported file type for AST chunking: " ++ filePath).

(** The error of the [throw] in the [catch] block of [chunkText]. *)
Definition ParseFailure (filePath message : string) : Thrown :=
  ErrorObject ("AST chunking failed for " ++ filePath ++ ": " ++ message).

Definition chunkText (self : Config) (content filePath : string)
  : Completion (list Chunk) :=
  match detectLanguage filePath with
  | None => Throw (UnsupportedFileType filePath)
  | Some language =>
      (try
         (codeChunks <- codeChunk filePath content (optionsFor self language) ;;
          Return (map (fun chunk => _mapChunk chunk filePath language)
                      codeChunks))
       catch error => Throw (ParseFailure filePath (messageOf error)))%js
  end.

(** Whether the engine accepts a call with that many arguments; the
    limit depends on the engine and on its stack. *)
Variable acceptsArguments : nat -> bool.

(** [allChunks.push(...chunks)]: the spread makes every chunk an
    argument of one call, which throws a [RangeError] when the engine
    does not accept that many; nothing is pushed then. *)
Definition pushAll (allChunks chunks : list Chunk) : Completion (list Chunk) :=
  if acceptsArguments (length chunks) then Return (allChunks ++ chunks)%list
  else Throw (ErrorObject "Maximum call stack size exceeded").

(** The [for] loop of [chunkSourceFiles], threading [allChunks]; the
    [try] block holds the call of [chunkText] and the push. *)
Fixpoint chunkSourceFiles_loop (self : Config) (files : list SourceFile)
         (allChunks : list Chunk) : Completion (list Chunk) :=
  match files with
  | [] => Return allChunks
  | file :: rest =>
      if negb (isSupported (relativePath file))
      then chunkSourceFiles_loop self rest allChunks
      else
        match (chunks <- chunkText self (file_content file)
                                   (relativePath file) ;;
               pushAll allChunks chunks)%js with
        | Return pushed => chunkSourceFiles_loop self rest pushed
        | Throw _e => chunkSourceFiles_loop self rest allChunks
        end
  end.

Definition chunkSourceFiles (self : Config) (files : list SourceFile)
  : Completion (list Chunk) :=
  chunkSourceFiles_loop self files [].

(** [Chunk[] | null] *)
Definition tryChunkText (self : Config) (content filePath : string)
  : Completion (option (list Chunk)) :=
  (try (chunks <- chunkText self content filePath ;; Return (Some chunks))
   catch _e => Return None)%js.

End WithCapabilities.

(** A stand-in for the code-chunk library, used to run the chunker on
    concrete inputs: one chunk for the whole text, whose contextualized
    rendering prefixes the file path; the text ["<<<"] does not parse. *)
Definition sampleCodeChunk (filePath content : string)
           (options : CodeChunkOptions) : Completion (list CodeChunkChunk) :=
  if String.eqb content "<<<"
  then Throw (ErrorObject "unexpected token")
  else Return [ mkCodeChunkChunk content
                  ("# " ++ filePath ++ " " ++ content)
                  (mkCCLineRange 0 0)
                  (mkCCContext [] [] [] []) ].

End CodeChunker.

(* ================================================================= *)
(** ** Arrays and numbers of the JavaScript runtime *)

Module JsArray.

(** Insertion of [x] into [l], to the right of every element that
    [x] has to follow and to the left of the first one it has not. *)
Fixpoint insert {A} (after : A -> A -> bool) (x : A) (l : list A) : list A :=
  match l with
  | [] => [x]
  | y :: rest => if after x y then y :: insert after x rest else x :: y :: rest
  end.

(** A stable sort: [after x y] says that [x] has to come after [y]. *)
Fixpoint stable_sort {A} (after : A -> A -> bool) (l : list A) : list A :=
  match l with
  | [] => []
  | x :: rest => insert after x (stable_sort after rest)
  end.

Definition Qpositive (q : Q) : bool := negb (Qle_bool q 0).

(** [array.sort(comparator)]: stable, and [a] follows [b] exactly when
    [comparator(a, b) > 0]. *)
Definition sort {A} (comparator : A -> A -> Q) (l : list A) : list A :=
  stable_sort (fun a b => Qpositive (comparator a b)) l.

(** [ToIntegerOrInfinity] on a finite number: truncation towards zero. *)
Definition ToIntegerOrInfinity (q : Q) : Z :=
  if Qle_bool 0 q then Qfloor q else Qceiling q.

(** [array.slice(0, end)] *)
Definition slice0 {A} (l : list A) (endArg : Q) : list A :=
  let len := Z.of_nat (length l) in
  let relativeEnd := ToIntegerOrInfinity endArg in
  let final :=
    if relativeEnd <? 0 then Z.max (len + relativeEnd) 0
    else Z.min relativeEnd len in
  firstn (Z.to_nat final) l.

End JsArray.

(* ================================================================= *)
(** ** The records that @libragen/core exports to its callers *)

Module Core.

(** Modelled from the spec: [StoredChunk] of @libragen/core, whose
    declaration is not among the files at hand; a chunk with the fields
    that storage assigns (section 3). *)
Record StoredChunk : Type := mkStoredChunk {
  id : Z;
  content : string;
  embeddingContent : option string;
  sourceFile : string;
  startLine : option Z;
  endLine : option Z;
  language : option string;
  contentVersion : option string;
  embedding : list Q
}.

(** Modelled from the spec: one result of [Searcher.search], whose
    declaration is not among the files at hand; the fields its callers
    read, a stored chunk with its score and its context. *)
Record SearchResult : Type := mkSearchResult {
  result_id : Z;
  result_content : string;
  result_score : Q;
  result_sourceFile : string;
  result_startLine : option Z;
  result_endLine : option Z;
  result_language : option string;
  result_contentVersion : option string;
  result_contextBefore : option (list StoredChunk);
  result_contextAfter : option (list StoredChunk)
}.

End Core.

(* ================================================================= *)
(** ** The libragen_search MCP tool: merging of per-library results *)

Module McpSearch.
Import Js.

Record SearchResultItem : Type := mkSearchResultItem {
  content : string;
  score : Q;
  sourceFile : string;
  startLine : option Z;
  endLine : option Z;
  language : option string;
  library : string;
  contextBefore : option (list Core.StoredChunk);
  contextAfter : option (list Core.StoredChunk)
}.

(** An installed library as [LibraryManager.listInstalled] reports it. *)
Record InstalledLibrary : Type := mkInstalledLibrary {
  lib_name : string;
  lib_path : string
}.

(** The object literal pushed for each result. *)
Definition toItem (lib : InstalledLibrary) (result : Core.SearchResult)
  : SearchResultItem :=
  mkSearchResultItem
    (Core.result_content result) (Core.result_score result)
    (Core.result_sourceFile result) (Core.result_startLine result)
    (Core.result_endLine result) (Core.result_language result)
    (lib_name lib)
    (Core.result_contextBefore result) (Core.result_contextAfter result).

Section Handler.

(** Opening the store of a library and running [searcher.search] on it
    with the options of the request. *)
Variable searchLibrary :
  InstalledLibrary -> Completion (list Core.SearchResult).

(** The loop over [targetLibraries], threading [allResults]. *)
Fixpoint searchEach (targetLibraries : list InstalledLibrary)
         (allResults : list SearchResultItem)
  : Completion (list SearchResultItem) :=
  match targetLibraries with
  | [] => Return allResults
  | lib :: rest =>
      (results <- searchLibrary lib ;;
       searchEach rest (allResults ++ map (toItem lib) results))%js
  end.

(** [(a, b) => b.score - a.score] *)
Definition byScore (a b : SearchResultItem) : Q := score b - score a.

(** What the handler answers: the fixed text for no library to search,
    or the text that [formatResults] makes of [limitedResults]; the
    list is kept in place of its text. *)
Inductive Answer : Type :=
| NoLibrariesFound
| Formatted (limitedResults : list SearchResultItem).

(** The handler of the tool from [targetLibraries] on. *)
Definition handler (targetLibraries : list InstalledLibrary) (topK : Q)
  : Completion Answer :=
  if Nat.eqb (length targetLibraries) 0 then Return NoLibrariesFound
  else
    (allResults <- searchEach targetLibraries [] ;;
     let sorted := JsArray.sort byScore allResults in
     let limitedResults := JsArray.slice0 sorted topK in
     Return (Formatted limitedResults))%js.

End Handler.

(** Scores in non-increasing order. *)
Definition scoresDescend (l : list SearchResultItem) : Prop :=
  StronglySorted (fun a b => score b <= score a)%Q l.

End McpSearch.

(* ================================================================= *)
(** ** Time estimation for the build command *)

Module TimeEstimate.

Record SystemInfo : Type := mkSystemInfo {
  cpuModel : string;
  cpuCores : Z;
  totalMemoryGB : Q;
  platform : string;
  arch : string
}.

Record TimeEstimate : Type := mkTimeEstimate {
  estimatedSeconds : Q;
  formattedTime : string;
  chunksPerSecond : Q;
  systemInfo : SystemInfo
}.

Record PerformanceConfig : Type := mkPerformanceConfig {
  matcher : SystemInfo -> bool;
  calculator : SystemInfo -> Q
}.

(** [s.includes(sub)] *)
Definition includes (s sub : string) : bool :=
  match index 0 sub s with Some _ => true | None => false end.

Definition appleSilicon (info : SystemInfo) : bool :=
  String.eqb (arch info) "arm64" && String.eqb (platform info) "darwin".

Definition PERFORMANCE_CONFIGS : list PerformanceConfig :=
  [ (* Apple Silicon M4 series *)
    mkPerformanceConfig
      (fun info => appleSilicon info && includes (cpuModel info) "M4")
      (fun info => if 14 <=? cpuCores info then 70%Q
                   else if 10 <=? cpuCores info then 65%Q else 60%Q);
    (* Apple Silicon M3 series *)
    mkPerformanceConfig
      (fun info => appleSilicon info && includes (cpuModel info) "M3")
      (fun info => if 14 <=? cpuCores info then 60%Q
                   else if 11 <=? cpuCores info then 55%Q else 50%Q);
    (* Apple Silicon M2 series *)
    mkPerformanceConfig
      (fun info => appleSilicon info && includes (cpuModel info) "M2")
      (fun info => if 12 <=? cpuCores info then 55%Q
                   else if 10 <=? cpuCores info then 50%Q else 45%Q);
    (* Apple Silicon M1 series *)
    mkPerformanceConfig
      (fun info => appleSilicon info && includes (cpuModel info) "M1")
      (fun info => if 10 <=? cpuCores info then 45%Q
                   else if 8 <=? cpuCores info then 40%Q else 35%Q);
    (* Other Apple Silicon *)
    mkPerformanceConfig
      (fun info => appleSilicon info)
      (fun _ => 40%Q);
    (* Intel/AMD x64 *)
    mkPerformanceConfig
      (fun info => String.eqb (arch info) "x64")
      (fun info => if 16 <=? cpuCores info then 30%Q
                   else if 8 <=? cpuCores info then 22%Q
                   else if 4 <=? cpuCores info then 15%Q else 10%Q);
    (* ARM Linux *)
    mkPerformanceConfig
      (fun info => String.eqb (arch info) "arm64")
      (fun info => if 8 <=? cpuCores info then 20%Q else 8%Q);
    (* Fallback *)
    mkPerformanceConfig (fun _ => true) (fun _ => 15%Q) ].

Definition getBaselineChunksPerSecond (systemInfo : SystemInfo) : Q :=
  match find (fun config => matcher config systemInfo) PERFORMANCE_CONFIGS with
  | None => 15%Q
  | Some matchedConfig => calculator matchedConfig systemInfo
  end.

(** [Math.round] *)
Definition round (x : Q) : Z := Qfloor (x + (1 # 2)).

(** [x % y] on numbers: the remainder has the sign of the dividend. *)
Definition remainder (x y : Q) : Q :=
  (x - y * inject_Z (JsArray.ToIntegerOrInfinity (x / y)))%Q.

(** An integer inside a template literal. *)
Definition show (z : Z) : string := DecimalString.NilZero.string_of_int (Z.to_int z).

Definition formatTime (seconds : Q) : string :=
  if negb (Qle_bool 60 seconds) then show (round seconds) ++ "s"
  else
    let minutes := Qfloor (seconds / 60) in
    let remainingSeconds := round (remainder seconds 60) in
    if minutes <? 60 then
      if 0 <? remainingSeconds
      then show minutes ++ "m " ++ show remainingSeconds ++ "s"
      else show minutes ++ "m"
    else
      let hours := minutes / 60 in
      let remainingMinutes := minutes mod 60 in
      if 0 <? remainingMinutes
      then show hours ++ "h " ++ show remainingMinutes ++ "m"
      else show hours ++ "h".

(** What the [os] module of Node reports: the model of each CPU, the
    memory in bytes, the platform and the architecture. *)
Record Os : Type := mkOs {
  cpus : list string;
  totalmem : Q;
  os_platform : string;
  os_arch : string
}.

Section OnASystem.

Variable os : Os.

Definition getSystemInfo : SystemInfo :=
  mkSystemInfo
    (match cpus os with
     | model :: _ => if String.eqb model "" then "Unknown CPU" else model
     | [] => "Unknown CPU"
     end)
    (Z.of_nat (length (cpus os)))
    (inject_Z (round (totalmem os / (1024 * 1024 * 1024) * 10)) / 10)%Q
    (os_platform os)
    (os_arch os).

(** [estimateEmbeddingTime(chunkCount)].  The numbers are exact
    rationals: [estimatedSeconds] is the quotient that the division of
    the source rounds to a double, so that its order and its bounds are
    those of the doubles, while sums of estimates are not. *)
Definition estimateEmbeddingTime (chunkCount : Q) : TimeEstimate :=
  let systemInfo := getSystemInfo in
  let chunksPerSecond := getBaselineChunksPerSecond systemInfo in
  let estimatedSeconds := (chunkCount / chunksPerSecond)%Q in
  mkTimeEstimate estimatedSeconds (formatTime estimatedSeconds)
                 chunksPerSecond systemInfo.

End OnASystem.

End TimeEstimate.

(* ================================================================= *)
(** ** Outcomes of the engine's operations *)

Module Engine.

(** Modelled from the spec: the error taxonomy of the engine
    (section 7); the error classes of @libragen/core are not among the
    files at hand. *)
Inductive EngineError : Type :=
| ConfigurationError
| UnsupportedFileType
| ParseFailure
| AlreadyExists
| AlreadyLocked
| SchemaVersionError
| MigrationRequiredError
| CorruptionError
| EmbedderError
| RerankerError
| Closed.

(** Modelled from the spec: the outcome of an operation of the engine,
    its value or one of the errors above. *)
Inductive Outcome (A : Type) : Type :=
| Ok (a : A)
| Failed (e : EngineError).
Arguments Ok {A} a.
Arguments Failed {A} e.

End Engine.

(* ================================================================= *)
(** ** Storage Engine *)

Module Storage.
Import Engine Core.

(** Modelled from the spec: the library metadata record of the Storage
    Engine ([VectorStore] of @libragen/core, whose source file is not
    among the files of the repository at hand); the fields that the
    operations below read or write. *)
Record LibraryMetadata : Type := mkLibraryMetadata {
  name : string;
  version : string;
  schemaVersion : Z;
  dimensions : nat;
  chunkCount : Z
}.

(** Modelled from the spec: a library file of the Storage Engine, the
    chunk table in storage order together with the metadata record and
    the next identifier to hand out. *)
Record LibraryFile : Type := mkLibraryFile {
  metadata : LibraryMetadata;
  chunks : list StoredChunk;
  nextId : Z
}.

(** Modelled from the spec: the identifier that storage assigns to a
    chunk. *)
Definition setId (i : Z) (c : StoredChunk) : StoredChunk :=
  mkStoredChunk i (content c) (embeddingContent c) (sourceFile c)
                (startLine c) (endLine c) (language c) (contentVersion c)
                (embedding c).

(** Modelled from the spec: the rewriting of the schema-version marker
    by a migration. *)
Definition setSchemaVersion (v : Z) (file : LibraryFile) : LibraryFile :=
  mkLibraryFile
    (mkLibraryMetadata (name (metadata file)) (version (metadata file)) v
                       (dimensions (metadata file))
                       (chunkCount (metadata file)))
    (chunks file) (nextId file).

(** Modelled from the spec: [create] of the missing Storage Engine; the
    new file holds no chunk and carries the current schema version. *)
Definition create (current : Z) (libraryName libraryVersion : string)
           (dims : nat) : LibraryFile :=
  mkLibraryFile (mkLibraryMetadata libraryName libraryVersion current dims 0)
                [] 1.

(** Modelled from the spec: identifiers in input order, strictly
    increasing from [next]. *)
Fixpoint assignIds (next : Z) (cs : list StoredChunk) : list StoredChunk :=
  match cs with
  | [] => []
  | c :: rest => setId next c :: assignIds (next + 1) rest
  end.

(** Modelled from the spec: [addChunks] of the missing Storage Engine;
    append-only, identifiers assigned in input order, the chunk count
    updated, all chunks of the call or none, and an embedding of the
    wrong length a corruption error. *)
Definition addChunks (file : LibraryFile) (newChunks : list StoredChunk)
  : Outcome LibraryFile :=
  if forallb (fun c => Nat.eqb (length (embedding c))
                               (dimensions (metadata file))) newChunks
  then
    let n := Z.of_nat (length newChunks) in
    Ok (mkLibraryFile
          (mkLibraryMetadata (name (metadata file)) (version (metadata file))
                             (schemaVersion (metadata file))
                             (dimensions (metadata file))
                             (chunkCount (metadata file) + n))
          (chunks file ++ assignIds (nextId file) newChunks)
          (nextId file + n))
  else Failed CorruptionError.

(** Modelled from the spec: a candidate of a search, a chunk and its
    score. *)
Definition Candidate : Type := (StoredChunk * Q)%type.

(** Modelled from the spec: the order of candidates, score descending
    and ties broken by the lower identifier; [rankAfter x y] says that
    [x] ranks after [y], for [y] scores higher, or
    the same with the lower identifier. *)
Definition rankAfter (x y : Candidate) : bool :=
  match (snd x ?= snd y)%Q with
  | Lt => true
  | Eq => id (fst y) <? id (fst x)
  | Gt => false
  end.

(** Modelled from the spec: a candidate list put in that order. *)
Definition rank (l : list Candidate) : list Candidate :=
  JsArray.stable_sort rankAfter l.

(** [x] may stand before [y] in a ranking. *)
Definition ranksBefore (x y : Candidate) : Prop := rankAfter x y = false.

(** Modelled from the spec: [getByIdRange] of the missing Storage
    Engine, the chunks of one source file with an identifier between
    [idLow] and [idHigh], in storage order. *)
Definition getByIdRange (file : LibraryFile) (source : string)
           (idLow idHigh : Z) : list StoredChunk :=
  filter (fun c => String.eqb (sourceFile c) source
                   && (idLow <=? id c) && (id c <=? idHigh))
         (chunks file).

Section Indexes.

(** The similarity measure of the vector index. *)
Variable similarity : list Q -> list Q -> Q.

(** The lexical index: the relevance of a chunk for a query, when the
    chunk matches it; no function at all for a malformed query. *)
Variable relevance : string -> option (StoredChunk -> option Q).

(** Modelled from the spec: [vectorSearch] of the missing Storage
    Engine, the [k] chunks most similar to [queryEmbedding], by
    similarity descending, ties broken by the lower identifier. *)
Definition vectorSearch (file : LibraryFile) (queryEmbedding : list Q)
           (k : nat) : list Candidate :=
  firstn k (rank (map (fun c => (c, similarity queryEmbedding (embedding c)))
                      (chunks file))).

(** Modelled from the spec: the chunks that match a lexical query, with
    their relevance. *)
Definition lexicalMatches (matcher : StoredChunk -> option Q)
           (cs : list StoredChunk) : list Candidate :=
  flat_map (fun c => match matcher c with
                     | Some r => [(c, r)]
                     | None => []
                     end) cs.

(** Modelled from the spec: [ftsSearch] of the missing Storage
    Engine, the [k] matching chunks of highest lexical relevance,
    descending, with the same tie-break; a malformed query fails. *)
Definition ftsSearch (file : LibraryFile) (queryText : string) (k : nat)
  : option (list Candidate) :=
  match relevance queryText with
  | None => None
  | Some matcher => Some (firstn k (rank (lexicalMatches matcher (chunks file))))
  end.

End Indexes.

(** Identifiers strictly increasing in storage order, all of them below
    the next one to hand out. *)
Definition wellFormed (file : LibraryFile) : Prop :=
  StronglySorted Z.lt (map id (chunks file))
  /\ Forall (fun i => i < nextId file) (map id (chunks file)).

End Storage.

(* ================================================================= *)
(** ** Migration Runner *)

Module Migration.
Import Engine Storage.

(** Modelled from the spec: the record that [migrateIfNeeded] returns. *)
Record MigrationResult : Type := mkMigrationResult {
  migrated : bool;
  fromVersion : Z;
  toVersion : Z
}.

Section Runner.

(** [CURRENT_SCHEMA_VERSION] and the oldest version with an upgrade
    path. *)
Variable CURRENT_SCHEMA_VERSION : Z.
Variable OLDEST_SUPPORTED_VERSION : Z.

(** The upgrade function from version [v] to version [v + 1]. *)
Variable upgrade : Z -> LibraryFile -> LibraryFile.

(** Modelled from the spec: one migration step of the missing
    Migration Runner; the version marker is checked before the
    upgrade is applied, and rewritten after it. *)
Definition applyStep (v : Z) (file : LibraryFile) : LibraryFile :=
  if schemaVersion (metadata file) =? v
  then setSchemaVersion (v + 1) (upgrade v file)
  else file.

(** Modelled from the spec: the ordered steps to run, one version at a
    time: [from], [from + 1], ... below the current version. *)
Definition pendingVersions (from : Z) : list Z :=
  map (fun i => from + Z.of_nat i)
      (seq 0 (Z.to_nat (CURRENT_SCHEMA_VERSION - from))).

(** Modelled from the spec: [migrateIfNeeded] of the missing Migration
    Runner, on the file instead of its path; it returns the result
    record and the file as it is left. *)
Definition migrateIfNeeded (file : LibraryFile) (force : bool)
  : Outcome (MigrationResult * LibraryFile) :=
  let v := schemaVersion (metadata file) in
  if CURRENT_SCHEMA_VERSION <? v then Failed SchemaVersionError
  else if v =? CURRENT_SCHEMA_VERSION
  then Ok (mkMigrationResult false v v, file)
  else if v <? OLDEST_SUPPORTED_VERSION then Failed SchemaVersionError
  else if negb force then Failed MigrationRequiredError
  else Ok (mkMigrationResult true v CURRENT_SCHEMA_VERSION,
           fold_left (fun f step => applyStep step f) (pendingVersions v) file).

End Runner.

End Migration.

(* ================================================================= *)
(** ** Hybrid Searcher *)

Module HybridSearch.
Import Engine Core Storage.

(** Modelled from the spec: the search options surface of the missing
    Hybrid Searcher ([Searcher] of @libragen/core). *)
Record SearchOptions : Type := mkSearchOptions {
  query : string;
  k : nat;
  hybridAlpha : Q;
  contentVersion : option string;
  contextBefore : option nat;
  contextAfter : option nat;
  rerank : bool
}.

(** Modelled from the spec: the warning of a search that degraded to
    vector-only because the lexical query failed. *)
Inductive Warning : Type := LexicalQueryFailed.

(** Modelled from the spec: the content-version filter of step 4. *)
Definition matchesVersion (wanted : option string) (x : Candidate) : bool :=
  match wanted with
  | None => true
  | Some v =>
      match Core.contentVersion (fst x) with
      | Some v' => String.eqb v v'
      | None => false
      end
  end.

(** Modelled from the spec: the key of the fusion, the identifier. *)
Definition sameChunk (c : StoredChunk) (x : Candidate) : bool :=
  id (fst x) =? id c.

(** Modelled from the spec: the signal of chunk [c] in a candidate set,
    [0] when the chunk is missing from it (step 3). *)
Definition signal (c : StoredChunk) (l : list Candidate) : Q :=
  match find (sameChunk c) l with
  | Some x => snd x
  | None => 0
  end.

(** Modelled from the spec: whether chunk [c] is in a candidate set. *)
Definition present (c : StoredChunk) (l : list Candidate) : bool :=
  existsb (sameChunk c) l.

(** Modelled from the spec: the fusion formula of step 3. *)
Definition fusedScore (alpha normalizedVectorScore normalizedLexicalScore : Q)
  : Q :=
  alpha * normalizedVectorScore + (1 - alpha) * normalizedLexicalScore.

(** Modelled from the spec: fusion by identifier (step 3); every chunk
    of either candidate set once, a missing signal counted as [0]. *)
Definition fuse (alpha : Q) (vectorCandidates lexicalCandidates : list Candidate)
  : list Candidate :=
  map (fun x => (fst x, fusedScore alpha (snd x)
                                   (signal (fst x) lexicalCandidates)))
      vectorCandidates
  ++ map (fun x => (fst x, fusedScore alpha 0 (snd x)))
         (filter (fun x => negb (present (fst x) vectorCandidates))
                 lexicalCandidates).

(** Modelled from the spec: context expansion (step 7), the siblings
    of a hit in its own source file, through [getByIdRange]. *)
Definition expand (file : LibraryFile) (options : SearchOptions)
           (x : Candidate) : SearchResult :=
  let c := fst x in
  mkSearchResult
    (id c) (content c) (snd x) (sourceFile c) (startLine c) (endLine c)
    (language c) (Core.contentVersion c)
    (match contextBefore options with
     | None => None
     | Some n => Some (getByIdRange file (sourceFile c)
                                    (id c - Z.of_nat n) (id c - 1))
     end)
    (match contextAfter options with
     | None => None
     | Some n => Some (getByIdRange file (sourceFile c)
                                    (id c + 1) (id c + Z.of_nat n))
     end).

Section Searcher.

Variable similarity : list Q -> list Q -> Q.
Variable relevance : string -> option (StoredChunk -> option Q).

(** The embedder capability; [None] when it fails. *)
Variable embed : string -> option (list Q).

(** The reranker capability: relevance scores for the contents, in
    their order; [None] when it fails. *)
Variable reranker : string -> list string -> option (list Q).

(** The normalization of the raw scores of one candidate set into
    [[0,1]]; the specification leaves the method open. *)
Variable normalize : list Candidate -> list Candidate.

(** The over-fetch factor. *)
Variable overFetch : nat.

(** Modelled from the spec: step 6, the order replaced by the scores
    of the reranker, the members kept. *)
Definition applyRerank (queryText : string) (top : list Candidate)
  : Outcome (list Candidate) :=
  match reranker queryText (map (fun x => content (fst x)) top) with
  | None => Failed RerankerError
  | Some scores =>
      if Nat.eqb (length scores) (length top)
      then Ok (rank (combine (map fst top) scores))
      else Failed RerankerError
  end.

(** Modelled from the spec: [search] of the missing Hybrid Searcher,
    steps 1 to 7 of its algorithm, with its failure semantics. *)
Definition search (file : LibraryFile) (options : SearchOptions)
  : Outcome (list SearchResult * list Warning) :=
  match embed (query options) with
  | None => Failed EmbedderError
  | Some queryEmbedding =>
      let fetch := (k options * overFetch)%nat in
      let vectorCandidates :=
        normalize (vectorSearch similarity file queryEmbedding fetch) in
      let (lexicalCandidates, warnings) :=
        match ftsSearch relevance file (query options) fetch with
        | Some found => (normalize found, [])
        | None => ([], [LexicalQueryFailed])
        end in
      let wanted := contentVersion options in
      let fused := fuse (hybridAlpha options)
                        (filter (matchesVersion wanted) vectorCandidates)
                        (filter (matchesVersion wanted) lexicalCandidates) in
      let top := firstn (k options) (rank fused) in
      match (if rerank options then applyRerank (query options) top
             else Ok top) with
      | Failed e => Failed e
      | Ok ordered => Ok (map (expand file options) ordered, warnings)
      end
  end.

End Searcher.

(** The identifiers of a candidate list, in its order. *)
Definition candidateIds (l : list Candidate) : list Z :=
  map (fun x => id (fst x)) l.

Definition resultIds (l : list SearchResult) : list Z :=
  map result_id l.

(** Consecutive candidates in rank order. *)
Fixpoint inRankOrder (l : list Candidate) : bool :=
  match l with
  | [] => true
  | x :: rest =>
      match rest with
      | [] => true
      | y :: _ => negb (rankAfter x y) && inRankOrder rest
      end
  end.

Definition allPositive (l : list Candidate) : bool :=
  forallb (fun x => JsArray.Qpositive (snd x)) l.

Fixpoint sameIds (l l' : list Z) : bool :=
  match l, l' with
  | [], [] => true
  | i :: rest, i' :: rest' => (i =? i') && sameIds rest rest'
  | _, _ => false
  end.

(** A normalization keeps the ranking of a candidate list when it
    returns the same chunks in the same order, with scores that rank
    them in that order and that are all positive. *)
Definition keepsRanking (normalize : list Candidate -> list Candidate)
           (l : list Candidate) : bool :=
  sameIds (candidateIds (normalize l)) (candidateIds l)
  && inRankOrder (normalize l) && allPositive (normalize l).

(** The lexical candidates of a search, normalized; none when the
    lexical query failed. *)
Definition lexicalOf (normalize : list Candidate -> list Candidate)
           (found : option (list Candidate)) : list Candidate :=
  match found with
  | Some l => normalize l
  | None => []
  end.

(** Two candidates for the same chunk with the same score. *)
Definition agrees (x p : Candidate) : Prop :=
  id (fst x) = id (fst p) /\ (snd x == snd p)%Q.

(** Modelled from the spec: the scores of rank-based normalization from
    place [i] on. *)
Fixpoint rankScores (n : nat) (i : nat) (l : list Candidate)
  : list Candidate :=
  match l with
  | [] => []
  | x :: rest =>
      (fst x, inject_Z (Z.of_nat (n - i)) / inject_Z (Z.of_nat n))%Q
        :: rankScores n (S i) rest
  end.

(** Modelled from the spec: rank-based normalization, one of the two
    methods the specification names; place [i] of [n] scores
    [(n - i) / n]. *)
Definition rankNormalize (l : list Candidate) : list Candidate :=
  rankScores (length l) 0 l.

(** Modelled from the spec: the lowest raw score of a candidate set. *)
Definition minScore (l : list Candidate) (d : Q) : Q :=
  fold_left (fun m x => if Qle_bool (snd x) m then snd x else m) l d.

(** Modelled from the spec: the highest raw score of a candidate set. *)
Definition maxScore (l : list Candidate) (d : Q) : Q :=
  fold_left (fun m x => if Qle_bool m (snd x) then snd x else m) l d.

(** Modelled from the spec: min-max normalization, the other method
    the specification names; all scores equal gives [1] to each. *)
Definition minMaxNormalize (l : list Candidate) : list Candidate :=
  match l with
  | [] => []
  | x :: _ =>
      let lo := minScore l (snd x) in
      let hi := maxScore l (snd x) in
      map (fun y => (fst y, if Qeq_bool hi lo then 1
                            else (snd y - lo) / (hi - lo)))%Q l
  end.

End HybridSearch.

(* ================================================================= *)
(** ** Chunk Splitter *)

Module ChunkSplitter.
Import Engine.

(** Modelled from the spec: one element of the sequence that [split]
    of the missing Chunk Splitter ([Chunker] of @libragen/core)
    returns. *)
Record TextChunk : Type := mkTextChunk {
  content : list ascii;
  startOffset : nat;
  endOffset : nat
}.

(** Modelled from the spec: a constructed Chunk Splitter. *)
Record Splitter : Type := mkSplitter {
  targetSize : nat;
  overlap : nat
}.

(** Modelled from the spec: construction of the missing Chunk
    Splitter; [overlap < targetSize] or a configuration error. *)
Definition newSplitter (size over : nat) : Outcome Splitter :=
  if (over <? size)%nat then Ok (mkSplitter size over)
  else Failed ConfigurationError.

(** Modelled from the spec: the white space that delimits words. *)
Definition isSpace (c : ascii) : bool :=
  Ascii.eqb c " "%char || Ascii.eqb c "010"%char
  || Ascii.eqb c "009"%char || Ascii.eqb c "013"%char.

(** Modelled from the spec: the punctuation that ends a sentence. *)
Definition endsSentence (c : ascii) : bool :=
  Ascii.eqb c "."%char || Ascii.eqb c "!"%char || Ascii.eqb c "?"%char.

(** Modelled from the spec: the character at offset [p], a letter past
    the end. *)
Definition charAt (text : list ascii) (p : nat) : ascii :=
  nth p text "a"%char.

(** Modelled from the spec: a paragraph boundary, a cut at offset [p]
    that falls behind an empty line. *)
Definition paragraphBoundary (text : list ascii) (p : nat) : bool :=
  (2 <=? p)%nat && Ascii.eqb (charAt text (p - 2)) "010"%char
  && Ascii.eqb (charAt text (p - 1)) "010"%char.

(** Modelled from the spec: a sentence boundary, a cut at offset [p]
    that falls behind the white space after a sentence. *)
Definition sentenceBoundary (text : list ascii) (p : nat) : bool :=
  (2 <=? p)%nat && endsSentence (charAt text (p - 2))
  && isSpace (charAt text (p - 1)).

(** Modelled from the spec: a cut at offset [p] that does not fall
    inside a whitespace-delimited word. *)
Definition wordBoundary (text : list ascii) (p : nat) : bool :=
  (p =? 0)%nat || isSpace (charAt text (p - 1)) || isSpace (charAt text p).

(** Modelled from the spec: the last offset in [(lo, hi]] at which [ok]
    holds. *)
Definition lastWhere (ok : nat -> bool) (lo hi : nat) : option nat :=
  find ok (rev (seq (S lo) (hi - lo))).

(** Modelled from the spec: the end of a window of the missing Chunk
    Splitter; a paragraph boundary if there is one, else a sentence
    boundary, else a place between words, else a hard cut at [hi]. *)
Definition findCut (text : list ascii) (lo hi : nat) : nat :=
  match lastWhere (paragraphBoundary text) lo hi with
  | Some p => p
  | None =>
      match lastWhere (sentenceBoundary text) lo hi with
      | Some p => p
      | None =>
          match lastWhere (wordBoundary text) lo hi with
          | Some p => p
          | None => hi
          end
      end
  end.

(** Modelled from the spec: the characters of [text] from offset [from]
    up to offset [to]. *)
Definition slice (text : list ascii) (from to : nat) : list ascii :=
  firstn (to - from) (skipn from text).

Section Split.

Variable splitter : Splitter.

(** Modelled from the spec: the start of the next window, [overlap]
    characters before the end of this one but behind its start,
    moved forward to the next place between words. *)
Definition nextStart (text : list ascii) (start stop : nat) : nat :=
  let from := Nat.max (stop - overlap splitter) (S start) in
  match find (wordBoundary text) (seq from (stop - from)) with
  | Some p => p
  | None => stop
  end.

(** Modelled from the spec: the windows of the missing Chunk
    Splitter from offset [start] on, [prevEnd] being the end of the
    window before; each window ends behind [prevEnd]. *)
Fixpoint splitFrom (fuel : nat) (text : list ascii) (prevEnd start : nat)
  : list TextChunk :=
  match fuel with
  | O => []
  | S fuel' =>
      let len := length text in
      let hi := Nat.min (start + targetSize splitter) len in
      let stop := if (hi =? len)%nat then len else findCut text prevEnd hi in
      let chunk := mkTextChunk (slice text start stop) start stop in
      if (stop =? len)%nat then [chunk]
      else chunk :: splitFrom fuel' text stop (nextStart text start stop)
  end.

(** Modelled from the spec: [split] of the missing Chunk Splitter;
    no chunk for the empty text. *)
Definition split (text : list ascii) : list TextChunk :=
  match text with
  | [] => []
  | _ :: _ => splitFrom (length text) text 0 0
  end.

End Split.

(** The region of each chunk behind the end of the chunk before it. *)
Fixpoint nonOverlapping (prevEnd : nat) (chunks : list TextChunk)
  : list (list ascii) :=
  match chunks with
  | [] => []
  | c :: rest =>
      skipn (prevEnd - startOffset c) (content c)
        :: nonOverlapping (endOffset c) rest
  end.

Definition reconstruct (chunks : list TextChunk) : list ascii :=
  concat (nonOverlapping 0 chunks).

End ChunkSplitter.


(* ================================================================= *)
(** ** The libragen_search MCP tool: the libraries it searches *)

Module McpSearchTargets.
Import Js McpSearch.

(** [config.librariesDir ? [ config.librariesDir ] : getLibraryPaths()];
    an empty string is as good as none. *)
Definition chosenPaths (librariesDir : option string)
           (getLibraryPaths : list string) : list string :=
  match librariesDir with
  | Some dir => if String.eqb dir "" then getLibraryPaths else [dir]
  | None => getLibraryPaths
  end.

(** [libraries ? installedLibraries.filter(...) : installedLibraries];
    an array, even an empty one, counts as given. *)
Definition targetLibraries (libraries : option (list string))
           (installedLibraries : list InstalledLibrary)
  : list InstalledLibrary :=
  match libraries with
  | Some names =>
      filter (fun lib => existsb (String.eqb (lib_name lib)) names)
             installedLibraries
  | None => installedLibraries
  end.

(** The items of all target libraries, library after library, for the
    libraries whose search returns. *)
Definition gathered
           (searchLibrary : InstalledLibrary -> Completion (list Core.SearchResult))
           (targets : list InstalledLibrary) : list SearchResultItem :=
  flat_map (fun lib => match searchLibrary lib with
                       | Return results => map (toItem lib) results
                       | Throw _ => []
                       end) targets.

Section Tool.

(** [new LibraryManager({ paths }).listInstalled()] *)
Variable listInstalled : list string -> Completion (list InstalledLibrary).

Variable searchLibrary : InstalledLibrary -> Completion (list Core.SearchResult).

(** The handler of the tool, from the request on. *)
Definition tool (librariesDir : option string) (getLibraryPaths : list string)
           (libraries : option (list string)) (topK : Q)
  : Completion Answer :=
  (installedLibraries <- listInstalled (chosenPaths librariesDir getLibraryPaths) ;;
   handler searchLibrary (targetLibraries libraries installedLibraries) topK)%js.

End Tool.

End McpSearchTargets.

(* ================================================================= *)
(** ** The MCP server: library paths discovered from roots *)

Module McpServer.
Import Js.

(** [LibraryPaths], the shared state. *)
Record LibraryPaths : Type := mkLibraryPaths {
  paths : list string;
  initialized : bool
}.

(** A root as the client lists it. *)
Record Root : Type := mkRoot {
  uri : string;
  root_name : option string
}.

(** [s.slice(n)] for [n] not negative. *)
Fixpoint sliceFrom (n : nat) (s : string) : string :=
  match n, s with
  | O, _ => s
  | S n', String _ rest => sliceFrom n' rest
  | S _, EmptyString => EmptyString
  end.

(** [[A-Za-z]] *)
Definition isLetter (c : ascii) : bool :=
  let n := nat_of_ascii c in
  ((65 <=? n) && (n <=? 90) || (97 <=? n) && (n <=? 122))%nat.

(** [rootPath.match(/^\/[A-Za-z]:\//)] *)
Definition startsWithDrive (rootPath : string) : bool :=
  match rootPath with
  | String c0 (String c1 (String c2 (String c3 _))) =>
      Ascii.eqb c0 "/"%char && isLetter c1 && Ascii.eqb c2 ":"%char
      && Ascii.eqb c3 "/"%char
  | _ => false
  end.

(** The conversion of the URI of a root to a path. *)
Definition rootPathOf (rootUri : string) : string :=
  if prefix "file://" rootUri then
    let rootPath := sliceFrom 7 rootUri in
    if startsWithDrive rootPath then sliceFrom 1 rootPath else rootPath
  else rootUri.

Section Server.

(** [getDefaultLibraryDir()] *)
Variable getDefaultLibraryDir : string.

(** [detectProjectLibraryDir] of @libragen/core: a directory, or null. *)
Variable detectProjectLibraryDir : string -> option string.

(** [hasProjectLibraryDir] of @libragen/core, which looks at the disk. *)
Variable hasProjectLibraryDir : string -> Completion bool.

(** The state the module starts with. *)
Definition initialLibraryPaths : LibraryPaths :=
  mkLibraryPaths [getDefaultLibraryDir] false.

(** The loop over [roots], threading [paths]. *)
Fixpoint collectProjectDirs (roots : list Root) (paths : list string)
  : Completion (list string) :=
  match roots with
  | [] => Return paths
  | root :: rest =>
      let rootPath := rootPathOf (uri root) in
      match detectProjectLibraryDir rootPath with
      | Some projectLibDir =>
          if String.eqb projectLibDir ""
          then collectProjectDirs rest paths
          else
            (found <- hasProjectLibraryDir rootPath ;;
             if (found : bool)
             then collectProjectDirs rest (paths ++ [projectLibDir])
             else collectProjectDirs rest paths)%js
      | None => collectProjectDirs rest paths
      end
  end.

(** [updateLibraryPathsFromRoots(roots)] on the state [libraryPaths]:
    how the call completes, and the state it leaves. *)
Definition updateLibraryPathsFromRoots (libraryPaths : LibraryPaths)
           (roots : list Root) : Completion unit * LibraryPaths :=
  match collectProjectDirs roots [] with
  | Return paths =>
      (Return tt,
       mkLibraryPaths (paths ++ [getDefaultLibraryDir])%list true)
  | Throw e => (Throw e, libraryPaths)
  end.

Definition getLibraryPaths (libraryPaths : LibraryPaths) : list string :=
  paths libraryPaths.

(** Whether the loop asks [hasProjectLibraryDir] about a root: when a
    project library directory is detected for its path. *)
Definition checked (root : Root) : bool :=
  match detectProjectLibraryDir (rootPathOf (uri root)) with
  | Some projectLibDir => negb (String.eqb projectLibDir "")
  | None => false
  end.

(** What a root adds to the paths: its project library directory when
    [hasProjectLibraryDir] finds it on disk. *)
Definition projectDirs (root : Root) : list string :=
  match detectProjectLibraryDir (rootPathOf (uri root)) with
  | Some projectLibDir =>
      if String.eqb projectLibDir "" then []
      else match hasProjectLibraryDir (rootPathOf (uri root)) with
           | Return true => [projectLibDir]
           | _ => []
           end
  | None => []
  end.

(** The states the module can be in: the initial one, and the one that
    any update leaves. *)
Inductive reachable : LibraryPaths -> Prop :=
| reachable_initial : reachable initialLibraryPaths
| reachable_update :
    forall libraryPaths roots,
      reachable libraryPaths ->
      reachable (snd (updateLibraryPathsFromRoots libraryPaths roots)).

End Server.

End McpServer.

(* ================================================================= *)
(** ** The MCP entry point: warming the embedder *)

Module McpEntry.
Import Js.

(** What a run of [warmEmbedderWithRetry] does, in order. *)
Inductive Event (Embedder : Type) : Type :=
| Attempted (attempt : Z)
| EmbedderUpdated (embedder : Embedder)
| Waited (delayMs : Z).
Arguments Attempted {Embedder} attempt.
Arguments EmbedderUpdated {Embedder} embedder.
Arguments Waited {Embedder} delayMs.

(** [Math.min(1000 * Math.pow(2, attempt - 1), 10000)] *)
Definition delayMs (attempt : Z) : Z :=
  Z.min (1000 * 2 ^ (attempt - 1)) 10000.

Section Warm.

Variable Embedder : Type.

(** [warmEmbedder()], as it completes at each attempt. *)
Variable warmEmbedder : Z -> Completion Embedder.

(** [`${error}`] *)
Variable stringOf : Thrown -> string.

(** The error thrown when the last attempt failed. *)
Definition warmingFailed (maxRetries : Z) (error : Thrown) : Thrown :=
  ErrorObject ("Embedder warming failed after " ++ TimeEstimate.show maxRetries
               ++ " attempts: " ++ stringOf error).

(** The [for] loop from [attempt] on, [remaining] iterations being left
    before [attempt] exceeds [maxRetries]; the events add up in
    [events]. *)
Fixpoint retryLoop (remaining : nat) (attempt maxRetries : Z)
         (events : list (Event Embedder))
  : Completion unit * list (Event Embedder) :=
  match remaining with
  | O => (Return tt, events)
  | S remaining' =>
      match warmEmbedder attempt with
      | Return embedder =>
          (Return tt,
           (events ++ [Attempted attempt; EmbedderUpdated embedder])%list)
      | Throw error =>
          if attempt =? maxRetries
          then (Throw (warmingFailed maxRetries error),
                (events ++ [Attempted attempt])%list)
          else retryLoop remaining' (attempt + 1) maxRetries
                         (events ++ [Attempted attempt;
                                     Waited (delayMs attempt)])%list
      end
  end.

(** [warmEmbedderWithRetry(server, maxRetries)] for a whole number
    [maxRetries]. *)
Definition warmEmbedderWithRetry (maxRetries : Z)
  : Completion unit * list (Event Embedder) :=
  retryLoop (Z.to_nat maxRetries) 1 maxRetries [].

End Warm.

(** The attempts of a run. *)
Definition attemptsOf {Embedder} (events : list (Event Embedder)) : list Z :=
  flat_map (fun e => match e with Attempted a => [a] | _ => [] end) events.

(** The waits of a run. *)
Definition waitsOf {Embedder} (events : list (Event Embedder)) : list Z :=
  flat_map (fun e => match e with Waited d => [d] | _ => [] end) events.

(** The embedders a run handed to the server. *)
Definition updatesOf {Embedder} (events : list (Event Embedder))
  : list Embedder :=
  flat_map (fun e => match e with EmbedderUpdated x => [x] | _ => [] end)
           events.

(** The attempt numbers [first], [first + 1], ..., [count] of them. *)
Definition attemptsFrom (first : Z) (count : nat) : list Z :=
  map (fun i => first + Z.of_nat i) (seq 0 count).

End McpEntry.

(* ================================================================= *)
(** ** The init hook of the CLI *)

Module InitHook.
Import Js.

(** [args.includes(word)] *)
Definition includes (args : list string) (word : string) : bool :=
  existsb (String.eqb word) args.

Definition targetCommands : list string :=
  [ "build"; "install"; "inspect"; "update"; "config" ].

(** [isHelp || isNoArgs || isTargetCommand] *)
Definition checksForUpdate (args : list string) : bool :=
  let isHelp := includes args "--help" || includes args "-h"
                || includes args "help" in
  let isNoArgs := Nat.eqb (length args) 0 in
  let isTargetCommand := existsb (fun cmd => includes args cmd) targetCommands in
  isHelp || isNoArgs || isTargetCommand.

Section Hook.

(** [checkForUpdate()] *)
Variable checkForUpdate : Completion unit.

(** The hook on [process.argv]. *)
Definition hook (argv : list string) : Completion unit :=
  (try
     (let args := skipn 2 argv in
      if checksForUpdate args then checkForUpdate else Return tt)
   catch _e => Return tt)%js.

End Hook.

End InitHook.

(* ================================================================= *)
(** ** Time estimation: the display of the system *)

Module SystemDisplay.
Import TimeEstimate.

(** [\s], and the characters that [trim] removes, among the code units
    below 256 that a string of this development holds. *)
Definition isWhiteSpace (c : ascii) : bool :=
  let n := nat_of_ascii c in
  ((9 <=? n) && (n <=? 13) || (n =? 32) || (n =? 160))%nat.

(** The characters that [.] does not match. *)
Definition isLineTerminator (c : ascii) : bool :=
  let n := nat_of_ascii c in ((n =? 10) || (n =? 13))%nat.

(** [s.replace(/\(R\)/g, '')] *)
Fixpoint removeRegistered (s : string) : string :=
  match s with
  | EmptyString => EmptyString
  | String c rest =>
      if prefix "(R)" s
      then match rest with
           | String _ (String _ rest') => removeRegistered rest'
           | _ => EmptyString
           end
      else String c (removeRegistered rest)
  end.

(** [s.replace(/\(TM\)/g, '')] *)
Fixpoint removeTrademark (s : string) : string :=
  match s with
  | EmptyString => EmptyString
  | String c rest =>
      if prefix "(TM)" s
      then match rest with
           | String _ (String _ (String _ rest')) => removeTrademark rest'
           | _ => EmptyString
           end
      else String c (removeTrademark rest)
  end.

(** [.*$]: no line terminator up to the end. *)
Fixpoint runsToEnd (s : string) : bool :=
  match s with
  | EmptyString => true
  | String c rest => negb (isLineTerminator c) && runsToEnd rest
  end.

(** [\s*@.*$] *)
Fixpoint spacesAtRest (s : string) : bool :=
  match s with
  | EmptyString => false
  | String c rest =>
      if isWhiteSpace c then spacesAtRest rest
      else Ascii.eqb c "@"%char && runsToEnd rest
  end.

Definition sameLetter (c : ascii) (upper : ascii) : bool :=
  Ascii.eqb (NodePath.lower_ascii c) (NodePath.lower_ascii upper).

(** [/CPU\s*@.*$/i] matches at the start of [s]. *)
Definition cpuClockAt (s : string) : bool :=
  match s with
  | String c (String p (String u rest)) =>
      sameLetter c "C"%char && sameLetter p "P"%char && sameLetter u "U"%char
      && spacesAtRest rest
  | _ => false
  end.

(** [s.replace(/CPU\s*@.*$/i, '')]: the leftmost match runs to the end
    of the string. *)
Fixpoint removeCpuClock (s : string) : string :=
  match s with
  | EmptyString => EmptyString
  | String c rest =>
      if cpuClockAt s then EmptyString else String c (removeCpuClock rest)
  end.

(** [s.replace(/\s+/g, ' ')]; [inRun] says that the character before
    was white space. *)
Fixpoint collapseSpaces (inRun : bool) (s : string) : string :=
  match s with
  | EmptyString => EmptyString
  | String c rest =>
      if isWhiteSpace c
      then if inRun then collapseSpaces true rest
           else String " "%char (collapseSpaces true rest)
      else String c (collapseSpaces false rest)
  end.

Fixpoint trimStart (s : string) : string :=
  match s with
  | EmptyString => EmptyString
  | String c rest => if isWhiteSpace c then trimStart rest else s
  end.

Fixpoint trimEnd (s : string) : string :=
  match s with
  | EmptyString => EmptyString
  | String c rest =>
      match trimEnd rest with
      | EmptyString => if isWhiteSpace c then EmptyString
                       else String c EmptyString
      | kept => String c kept
      end
  end.

(** [s.trim()] *)
Definition trim (s : string) : string := trimEnd (trimStart s).

(** The value of [cpuName] when [formatSystemInfo] returns. *)
Definition cpuName (info : SystemInfo) : string :=
  let cleaned :=
    trim (collapseSpaces false
            (removeCpuClock (removeTrademark (removeRegistered (cpuModel info)))))
  in
  if (40 <? String.length cleaned)%nat
  then substring 0 37 cleaned ++ "..."
  else cleaned.

Definition formatSystemInfo (info : SystemInfo) : string :=
  cpuName info ++ " (" ++ show (cpuCores info) ++ " cores)".

(** No white space at the start of [s]. *)
Definition startsWithLetter (s : string) : bool :=
  match s with
  | EmptyString => true
  | String c _ => negb (isWhiteSpace c)
  end.

(** Every white space character of [s] is a space, and no white space
    follows it. *)
Fixpoint singleSpaced (s : string) : bool :=
  match s with
  | EmptyString => true
  | String c rest =>
      (if isWhiteSpace c
       then Ascii.eqb c " "%char && startsWithLetter rest
       else true)
      && singleSpaced rest
  end.

(** The white space of [s] is single spaces, each between two characters
    that are no white space; [afterLetter] says that such a character
    stands before [s]. *)
Fixpoint wellSpaced (afterLetter : bool) (s : string) : bool :=
  match s with
  | EmptyString => true
  | String c rest =>
      if isWhiteSpace c
      then Ascii.eqb c " "%char && afterLetter
           && match rest with
              | EmptyString => false
              | String d _ => negb (isWhiteSpace d)
              end
           && wellSpaced false rest
      else wellSpaced true rest
  end.

End SystemDisplay.

(* ================================================================= *)
(** ** Sample data *)

Module Samples.
Import Engine Core Storage HybridSearch.

(** Dot product, the similarity of normalized embeddings. *)
Fixpoint dot (a b : list Q) : Q :=
  match a, b with
  | x :: a', y :: b' => (x * y + dot a' b')%Q
  | _, _ => 0%Q
  end.

(** A lexical index for running searches: a chunk matches when its
    content contains the query, with its length as relevance; a query
    that opens a parenthesis is malformed. *)
Definition containment (queryText : string) : option (StoredChunk -> option Q) :=
  if TimeEstimate.includes queryText "(" then None
  else Some (fun c => if TimeEstimate.includes (content c) queryText
                      then Some (inject_Z (Z.of_nat (String.length (content c))))
                      else None).

(** An embedder for running searches: two dimensions, the first for
    queries that mention Japan, the second for the others. *)
Definition sampleEmbed (text : string) : option (list Q) :=
  if TimeEstimate.includes text "Japan" then Some [1%Q; 0%Q]
  else Some [0%Q; 1%Q].

Definition noReranker (queryText : string) (contents : list string)
  : option (list Q) := None.

Definition plainChunk (text source : string) (e : list Q) : StoredChunk :=
  mkStoredChunk 0 text None source None None None None e.

Definition capitalsFile : LibraryFile :=
  match addChunks (create 3 "capitals" "1.0.0" 2)
          [ plainChunk "Paris is the capital of France." "paris.txt" [0%Q; 1%Q];
            plainChunk "Tokyo is the capital of Japan." "tokyo.txt" [1%Q; 0%Q] ]
  with
  | Ok file => file
  | Failed _ => create 3 "capitals" "1.0.0" 2
  end.

(** Seven chunks of one guide; the last five are equally far from any
    query about Japan, the first is the only one to mention it apart
    from the second. *)
Definition guideFile : LibraryFile :=
  match addChunks (create 3 "guide" "1.0.0" 2)
          [ plainChunk "Japan rail pass" "guide.md" [(1 # 10)%Q; 1%Q];
            plainChunk "Tokyo is the capital of Japan." "guide.md" [(9 # 10)%Q; 0%Q];
            plainChunk "Kyoto temples" "guide.md" [(1 # 2)%Q; 0%Q];
            plainChunk "Osaka food" "guide.md" [(1 # 2)%Q; 0%Q];
            plainChunk "Nara deer" "guide.md" [(1 # 2)%Q; 0%Q];
            plainChunk "Kobe harbour" "guide.md" [(1 # 2)%Q; 0%Q];
            plainChunk "Nagoya castle" "guide.md" [(1 # 2)%Q; 0%Q] ]
  with
  | Ok file => file
  | Failed _ => create 3 "guide" "1.0.0" 2
  end.

Definition searchFor (queryText : string) (count : nat) (alpha : Q)
  : SearchOptions :=
  mkSearchOptions queryText count alpha None (Some 1%nat) (Some 1%nat) false.

(** The identifiers of the results of a search, in their order. *)
Definition idsOf (o : Outcome (list SearchResult * list Warning))
  : option (list Z) :=
  match o with
  | Ok (results, _) => Some (resultIds results)
  | Failed _ => None
  end.

(** The chunker with its default configuration. *)
Definition defaultChunker : CodeChunker.Config :=
  CodeChunker.new_CodeChunker (CodeChunker.mkConfig None None None).

(** What the chunker makes of the one chunk that the stand-in library
    returns for ["let x = 1"] in ["src/Utils.TS"]. *)
Definition utilsChunk : CodeChunker.Chunk :=
  CodeChunker.mkChunk "let x = 1" (Some "# src/Utils.TS let x = 1")
    (CodeChunker.mkChunkMetadata "src/Utils.TS" (Some 1) (Some 1)
       (Some CodeChunker.typescript)
       (Some (CodeChunker.mkCodeContext [] [] [] []))).

Definition sampleBatch : list CodeChunker.SourceFile :=
  [ CodeChunker.mkSourceFile "src/Utils.TS" "let x = 1";
    CodeChunker.mkSourceFile "README.md" "# readme";
    CodeChunker.mkSourceFile "lib/broken.py" "<<<" ].

(** A stand-in for the engine's limit on the arguments of one call:
    calls with more than 100000 arguments are refused. *)
Definition sampleAccepts (count : nat) : bool := Z.of_nat count <=? 100000.

(** A stand-in for the code-chunk library on a large file: 150000
    chunks for the file ["src/generated.ts"], and what [sampleCodeChunk]
    returns for any other. *)
Definition largeCodeChunk (filePath content : string)
           (options : CodeChunker.CodeChunkOptions)
  : Js.Completion (list CodeChunker.CodeChunkChunk) :=
  if String.eqb filePath "src/generated.ts"
  then Js.Return
         (repeat (CodeChunker.mkCodeChunkChunk
                    "export const x = 1" "export const x = 1"
                    (CodeChunker.mkCCLineRange 0 0)
                    (CodeChunker.mkCCContext [] [] [] []))
                 (Z.to_nat 150000))
  else CodeChunker.sampleCodeChunk filePath content options.

(** A batch with the large file before a small one. *)
Definition largeBatch : list CodeChunker.SourceFile :=
  [ CodeChunker.mkSourceFile "src/generated.ts" "export const x = 1";
    CodeChunker.mkSourceFile "src/Utils.TS" "let x = 1" ].

(** The number of chunks that a call returns. *)
Definition returnedCount {A} (c : Js.Completion (list A)) : option Z :=
  match c with
  | Js.Return l => Some (Z.of_nat (length l))
  | Js.Throw _ => None
  end.

(** Two installed libraries and the searches of a request for "Japan"
    on them. *)
Definition capitalsLibrary : McpSearch.InstalledLibrary :=
  McpSearch.mkInstalledLibrary "capitals" "/libraries/capitals.libragen".

Definition guideLibrary : McpSearch.InstalledLibrary :=
  McpSearch.mkInstalledLibrary "guide" "/libraries/guide.libragen".

Definition searchInstalled (lib : McpSearch.InstalledLibrary)
  : Js.Completion (list SearchResult) :=
  let file := if String.eqb (McpSearch.lib_name lib) "capitals"
              then capitalsFile else guideFile in
  match search dot containment sampleEmbed noReranker rankNormalize 3 file
               (searchFor "Japan" 3 (1 # 2)) with
  | Ok (results, _) => Js.Return results
  | Failed _ => Js.Throw (Js.ErrorObject "search failed")
  end.

(** A library file of schema version 1, and upgrades that fill in the
    embedding content of legacy chunks (from 1 to 2) and leave the file
    as it is (from 2 to 3). *)
Definition legacyFile : LibraryFile := setSchemaVersion 1 capitalsFile.

Definition fillEmbeddingContent (c : StoredChunk) : StoredChunk :=
  mkStoredChunk (id c) (content c)
                (match embeddingContent c with
                 | Some e => Some e
                 | None => Some (content c)
                 end)
                (sourceFile c) (startLine c) (endLine c) (language c)
                (Core.contentVersion c) (embedding c).

Definition sampleUpgrade (v : Z) (file : LibraryFile) : LibraryFile :=
  if v =? 1
  then mkLibraryFile (metadata file) (map fillEmbeddingContent (chunks file))
                     (nextId file)
  else file.

Definition sampleText : list ascii :=
  list_ascii_of_string
    "Paris is the capital of France. Tokyo is the capital of Japan.".

End Samples.

(* ================================================================= *)
(** ** Sample data for the server, the tool and the time estimate *)

Module MoreSamples.
Import Js Samples.

(** An installation with the two sample libraries, whatever the paths. *)
Definition listSample (paths : list string)
  : Completion (list McpSearch.InstalledLibrary) :=
  Return [capitalsLibrary; guideLibrary].

(** The searches of [searchInstalled], the guide failing to open. *)
Definition failingSearch (lib : McpSearch.InstalledLibrary)
  : Completion (list Core.SearchResult) :=
  if String.eqb (McpSearch.lib_name lib) "guide"
  then Throw (ErrorObject "cannot open the library")
  else searchInstalled lib.

(** What the search of the guide returns. *)
Definition guideResults : list Core.SearchResult :=
  match searchInstalled guideLibrary with
  | Return results => results
  | Throw _ => []
  end.

(** A workstation and a laptop. *)
Definition workstation : TimeEstimate.Os :=
  TimeEstimate.mkOs
    (repeat "AMD Ryzen 9 5950X 16-Core Processor" 32)
    (inject_Z 68719476736) "linux" "x64".

(** Roots of a client, of which the first has a project library
    directory on disk. *)
Definition sampleRoots : list McpServer.Root :=
  [ McpServer.mkRoot "file:///work/app" (Some "app");
    McpServer.mkRoot "file:///C:/work/tool" None ].

Definition sampleDetect (rootPath : string) : option string :=
  Some (rootPath ++ "/.libragen/libraries").

Definition sampleHas (rootPath : string) : Completion bool :=
  Return (String.eqb rootPath "/work/app").

Definition globalDir : string := "/home/dev/.libragen/libraries".

(** The same look at the disk, failing on the second root. *)
Definition failingHas (rootPath : string) : Completion bool :=
  if String.eqb rootPath "C:/work/tool"
  then Throw (ErrorObject "EACCES: permission denied")
  else sampleHas rootPath.

End MoreSamples.

(* ================================================================= *)
(** * Properties *)

(* ================================================================= *)
(** ** CodeChunker *)

Section CodeChunkerFacts.
Import Js CodeChunker.

Variable extname : string -> string.
Variable codeChunk :
  string -> string -> CodeChunkOptions -> Completion (list CodeChunkChunk).
Variable acceptsArguments : nat -> bool.

Local Abbreviation detectLanguage := (detectLanguage extname).
Local Abbreviation isSupported := (isSupported extname).
Local Abbreviation chunkText := (chunkText extname codeChunk).
Local Abbreviation tryChunkText := (tryChunkText extname codeChunk).
Local Abbreviation chunkSourceFiles :=
  (chunkSourceFiles extname codeChunk acceptsArguments).
Local Abbreviation chunkSourceFiles_loop :=
  (chunkSourceFiles_loop extname codeChunk acceptsArguments).

Lemma has_key_lookup :
  forall ext table, has_key ext table = false -> lookup ext table = None.
Proof.
  induction table as [| [k v] rest IH]; simpl; intros H.
  - reflexivity.
  - apply orb_false_iff in H. destruct H as [Hk Hrest].
    rewrite Hk. now apply IH.
Qed.

Lemma lookup_has_key :
  forall ext table v, lookup ext table = Some v -> has_key ext table = true.
Proof.
  intros ext table v H.
  destruct (has_key ext table) eqn:E; [reflexivity |].
  rewrite (has_key_lookup _ _ E) in H. discriminate.
Qed.

Lemma isSupported_detectLanguage :
  forall filePath,
    isSupported filePath = true <-> detectLanguage filePath <> None.
Proof.
  intros filePath. unfold CodeChunker.isSupported, CodeChunker.detectLanguage.
  split.
  - intros H E. destruct (has_key _ _) eqn:K; [| discriminate].
    clear H. revert K E.
    induction EXTENSION_TO_LANGUAGE as [| [k v] rest IH]; simpl.
    + discriminate.
    + destruct (String.eqb k _); [discriminate |]. simpl. exact IH.
  - intros H. destruct (lookup _ _) eqn:E; [| congruence].
    eapply lookup_has_key; eauto.
Qed.

Lemma chunkText_unsupported :
  forall self content filePath,
    isSupported filePath = false ->
    chunkText self content filePath = Throw (UnsupportedFileType filePath).
Proof.
  intros self content filePath H. unfold CodeChunker.chunkText.
  unfold CodeChunker.isSupported in H.
  unfold CodeChunker.detectLanguage. now rewrite (has_key_lookup _ _ H).
Qed.

(** What a returning [chunkText] went through. *)
Lemma chunkText_Return_inv :
  forall self content filePath chunks,
    chunkText self content filePath = Return chunks ->
    exists language codeChunks,
      detectLanguage filePath = Some language
      /\ codeChunk filePath content (optionsFor self language)
         = Return codeChunks
      /\ chunks = map (fun chunk => _mapChunk chunk filePath language)
                      codeChunks.
Proof.
  intros self content filePath chunks H. unfold CodeChunker.chunkText in H.
  destruct (detectLanguage filePath) as [language |] eqn:L; [| discriminate].
  destruct (codeChunk filePath content (optionsFor self language))
    as [codeChunks | e] eqn:C; simpl in H; [| discriminate].
  exists language, codeChunks. repeat split; congruence.
Qed.

Lemma chunkSourceFiles_loop_spec :
  forall self files allChunks,
    chunkSourceFiles_loop self files allChunks
    = Return (allChunks
              ++ flat_map (fun file =>
                   match chunkText self (file_content file) (relativePath file) with
                   | Return chunks =>
                       if acceptsArguments (length chunks) then chunks else []
                   | Throw _ => []
                   end) files)%list.
Proof.
  intros self files. induction files as [| file rest IH]; intros allChunks.
  - simpl. now rewrite app_nil_r.
  - simpl. destruct (isSupported (relativePath file)) eqn:S; simpl.
    + destruct (chunkText self (file_content file) (relativePath file))
        as [chunks | e]; simpl.
      * unfold pushAll.
        destruct (acceptsArguments (length chunks)); rewrite IH.
        -- now rewrite app_assoc.
        -- reflexivity.
      * now rewrite IH.
    + rewrite (chunkText_unsupported self _ _ S). apply IH.
Qed.

(** [chunkSourceFiles] never throws, and what it returns is, file after
    file in the order of the batch, all the chunks of the files on
    which [chunkText] returns chunks that one spread call can push, and
    nothing of the other files: those with an unsupported extension,
    those on which the AST capability fails, and those with more chunks
    than the engine accepts as arguments. *)
Lemma chunkSourceFiles_returns :
  forall self files,
    chunkSourceFiles self files
    = Return (flat_map (fun file =>
                match chunkText self (file_content file) (relativePath file) with
                | Return chunks =>
                    if acceptsArguments (length chunks) then chunks else []
                | Throw _ => []
                end) files).
Proof.
  intros self files. unfold CodeChunker.chunkSourceFiles.
  now rewrite chunkSourceFiles_loop_spec.
Qed.

(** A supported file on which [chunkText] returns more chunks than one
    call accepts is left out of the batch as a file that failed. *)
Lemma chunkSourceFiles_drops_unpushed :
  forall self file rest chunks,
    chunkText self (file_content file) (relativePath file) = Return chunks ->
    acceptsArguments (length chunks) = false ->
    chunkSourceFiles self (file :: rest) = chunkSourceFiles self rest.
Proof.
  intros self file rest chunks H Hn.
  rewrite !chunkSourceFiles_returns. simpl. now rewrite H, Hn.
Qed.

(** C6: every chunk that [chunkText] returns carries the line range of
    the chunk of the AST capability it was mapped from, moved by one:
    [startLine = start + 1] and [endLine = end + 1]; with the
    0-indexed ranges of the capability every [startLine] is at least
    1. *)
Theorem chunkText_lines_one_indexed :
  forall self content filePath chunks,
    chunkText self content filePath = Return chunks ->
    exists language codeChunks,
      detectLanguage filePath = Some language
      /\ codeChunk filePath content (optionsFor self language)
         = Return codeChunks
      /\ Forall2 (fun chunk external =>
                    startLine (metadata chunk)
                    = Some (cc_start (cc_lineRange external) + 1)
                    /\ endLine (metadata chunk)
                       = Some (cc_end (cc_lineRange external) + 1)
                    /\ (0 <= cc_start (cc_lineRange external) ->
                        exists line, startLine (metadata chunk) = Some line
                                     /\ 1 <= line))
                 chunks codeChunks.
Proof.
  intros self content filePath chunks H.
  destruct (chunkText_Return_inv _ _ _ _ H)
    as (language & codeChunks & L & C & ->).
  exists language, codeChunks. repeat split; try assumption.
  clear. induction codeChunks as [| c rest IH]; simpl; constructor.
  - repeat split. intros Hpos. eexists. split; [reflexivity | lia].
  - exact IH.
Qed.

(** C7: [chunkText] throws the unsupported-file-type error when the
    lower-cased extension of the path is no key of the language table,
    throws the parse-failure error (a different one) when the AST
    capability throws, and returns the mapped chunks otherwise; it
    throws in these two cases only, and [tryChunkText] never throws:
    it returns the chunks, or null where [chunkText] throws. *)
Theorem chunkText_failure_modes :
  forall self content filePath,
    detectLanguage filePath
    = lookup (NodePath.toLowerCase (extname filePath)) EXTENSION_TO_LANGUAGE
    /\ chunkText self content filePath
       = match detectLanguage filePath with
         | None => Throw (UnsupportedFileType filePath)
         | Some language =>
             match codeChunk filePath content (optionsFor self language) with
             | Throw error =>
                 Throw (ParseFailure filePath (messageOf error))
             | Return codeChunks =>
                 Return (map (fun chunk => _mapChunk chunk filePath language)
                             codeChunks)
             end
         end
    /\ (returns (chunkText self content filePath) = false <->
        detectLanguage filePath = None
        \/ exists language error,
             detectLanguage filePath = Some language
             /\ codeChunk filePath content (optionsFor self language)
                = Throw error)
    /\ (forall message,
          UnsupportedFileType filePath <> ParseFailure filePath message)
    /\ tryChunkText self content filePath
       = Return (match chunkText self content filePath with
                 | Return chunks => Some chunks
                 | Throw _ => None
                 end).
Proof.
  intros self content filePath. split; [reflexivity |].
  assert (E : chunkText self content filePath
       = match detectLanguage filePath with
         | None => Throw (UnsupportedFileType filePath)
         | Some language =>
             match codeChunk filePath content (optionsFor self language) with
             | Throw error =>
                 Throw (ParseFailure filePath (messageOf error))
             | Return codeChunks =>
                 Return (map (fun chunk => _mapChunk chunk filePath language)
                             codeChunks)
             end
         end).
  { unfold CodeChunker.chunkText.
    destruct (detectLanguage filePath) as [language |]; [| reflexivity].
    destruct (codeChunk filePath content (optionsFor self language));
      reflexivity. }
  split; [exact E |]. split; [| split].
  - rewrite E. destruct (detectLanguage filePath) as [language |].
    + destruct (codeChunk filePath content (optionsFor self language))
        as [codeChunks | error] eqn:C; simpl; split.
      * discriminate.
      * intros [H | (l & e & H1 & H2)]; [discriminate |].
        injection H1 as <-. rewrite C in H2. discriminate.
      * intros _. right. exists language, error. now split.
      * reflexivity.
    + simpl. split; [now left | reflexivity].
  - intros message. unfold UnsupportedFileType, ParseFailure. simpl.
    discriminate.
  - unfold CodeChunker.tryChunkText.
    destruct (chunkText self content filePath); reflexivity.
Qed.

(** C8: [_mapChunk] sets [embeddingContent] to the contextualized text
    of the external chunk and [content] to its raw text, whatever
    their lengths; so does every chunk that [chunkText] returns, each
    for the external chunk at its place. *)
Theorem mapped_chunks_embed_contextualized_text :
  (forall chunk filePath language,
      embeddingContent (_mapChunk chunk filePath language)
      = Some (cc_contextualizedText chunk)
      /\ content (_mapChunk chunk filePath language) = cc_text chunk)
  /\ forall self content filePath chunks,
      chunkText self content filePath = Return chunks ->
      exists language codeChunks,
        detectLanguage filePath = Some language
        /\ codeChunk filePath content (optionsFor self language)
           = Return codeChunks
        /\ Forall2 (fun chunk external =>
                      embeddingContent chunk
                      = Some (cc_contextualizedText external)
                      /\ CodeChunker.content chunk = cc_text external)
                   chunks codeChunks.
Proof.
  split; [intros; split; reflexivity |].
  intros self content filePath chunks H.
  destruct (chunkText_Return_inv _ _ _ _ H)
    as (language & codeChunks & L & C & ->).
  exists language, codeChunks. repeat split; try assumption.
  clear. induction codeChunks as [| c rest IH]; simpl; constructor.
  - split; reflexivity.
  - exact IH.
Qed.

End CodeChunkerFacts.

(* ================================================================= *)
(** ** Sorting *)

Section StableSortFacts.
Import JsArray.

Context {A : Type}.
Variable after : A -> A -> bool.

Lemma insert_Permutation :
  forall x l, Permutation (x :: l) (insert after x l).
Proof.
  intros x l. induction l as [| y rest IH]; simpl.
  - apply Permutation_refl.
  - destruct (after x y).
    + eapply Permutation_trans; [apply perm_swap |].
      now apply perm_skip.
    + apply Permutation_refl.
Qed.

Lemma stable_sort_Permutation :
  forall l, Permutation l (stable_sort after l).
Proof.
  induction l as [| x rest IH]; simpl.
  - apply perm_nil.
  - eapply Permutation_trans; [| apply insert_Permutation].
    now apply perm_skip.
Qed.

Lemma stable_sort_length :
  forall l, length (stable_sort after l) = length l.
Proof.
  intros l. symmetry. apply Permutation_length, stable_sort_Permutation.
Qed.

Lemma stable_sort_In :
  forall x l, In x (stable_sort after l) <-> In x l.
Proof.
  intros x l. split; intros H.
  - eapply Permutation_in; [apply Permutation_sym, stable_sort_Permutation |].
    exact H.
  - eapply Permutation_in; [apply stable_sort_Permutation | exact H].
Qed.

Variable R : A -> A -> Prop.
Hypothesis R_trans : forall x y z, R x y -> R y z -> R x z.
Hypothesis not_after : forall x y, after x y = false -> R x y.
Hypothesis is_after : forall x y, after x y = true -> R y x.

Lemma insert_sorted :
  forall x l, StronglySorted R l -> StronglySorted R (insert after x l).
Proof.
  intros x l Hs. induction Hs as [| y rest Hrest IH Hy]; simpl.
  - constructor; constructor.
  - destruct (after x y) eqn:E.
    + constructor; [exact IH |].
      eapply Permutation_Forall; [apply insert_Permutation |].
      constructor; [now apply is_after | exact Hy].
    + constructor; [now constructor |].
      constructor; [now apply not_after |].
      eapply Forall_impl; [| exact Hy].
      intros z Hz. eapply R_trans; [apply not_after; exact E | exact Hz].
Qed.

Lemma stable_sort_sorted :
  forall l, StronglySorted R (stable_sort after l).
Proof.
  induction l as [| x rest IH]; simpl.
  - constructor.
  - now apply insert_sorted.
Qed.

End StableSortFacts.

Lemma StronglySorted_firstn :
  forall {A} (R : A -> A -> Prop) n l,
    StronglySorted R l -> StronglySorted R (firstn n l).
Proof.
  intros A R n l Hs. revert n.
  induction Hs as [| x rest Hrest IH Hx]; intros [| n]; simpl;
    try constructor.
  - apply IH.
  - apply Forall_forall. intros y Hy.
    rewrite Forall_forall in Hx. apply Hx.
    revert Hy. clear. revert n.
    induction rest as [| z rest IH]; intros [| n]; simpl; try tauto.
    intros [-> | H]; [now left | right; eauto].
Qed.

(* ================================================================= *)
(** ** The libragen_search MCP tool *)

Section McpSearchFacts.
Import Js McpSearch.

Variable searchLibrary : InstalledLibrary -> Completion (list Core.SearchResult).

Lemma Qpositive_true : forall q, JsArray.Qpositive q = true <-> (0 < q)%Q.
Proof.
  intros q. unfold JsArray.Qpositive. rewrite negb_true_iff.
  split; intros H.
  - apply Qnot_le_lt. intros Hle. apply Qle_bool_iff in Hle. congruence.
  - destruct (Qle_bool q 0) eqn:E; [| reflexivity].
    apply Qle_bool_iff in E. exfalso. eapply Qlt_not_le; eauto.
Qed.

Lemma Qpositive_false : forall q, JsArray.Qpositive q = false <-> (q <= 0)%Q.
Proof.
  intros q. unfold JsArray.Qpositive. rewrite negb_false_iff.
  apply Qle_bool_iff.
Qed.

Lemma sort_byScore_descends :
  forall l, scoresDescend (JsArray.sort byScore l).
Proof.
  intros l. unfold scoresDescend, JsArray.sort.
  apply stable_sort_sorted.
  - intros x y z Hxy Hyz. eapply Qle_trans; eauto.
  - intros x y H. apply Qpositive_false in H. unfold byScore in H.
    apply Qle_minus_iff. apply Qle_minus_iff in H.
    setoid_replace (score x + - score y)%Q with (0 + - (score y - score x))%Q
      by ring. exact H.
  - intros x y H. apply Qpositive_true in H. unfold byScore in H.
    apply Qlt_le_weak. apply Qlt_minus_iff. exact H.
Qed.

Lemma ToIntegerOrInfinity_le :
  forall q, (0 <= q)%Q ->
    0 <= JsArray.ToIntegerOrInfinity q
    /\ (inject_Z (JsArray.ToIntegerOrInfinity q) <= q)%Q.
Proof.
  intros q Hq. unfold JsArray.ToIntegerOrInfinity.
  destruct (Qle_bool 0 q) eqn:E.
  - split; [| apply Qfloor_le].
    change 0 with (Qfloor 0). now apply Qfloor_resp_le.
  - apply Qle_bool_iff in Hq. congruence.
Qed.

Lemma slice0_length :
  forall {A} (l : list A) topK, (0 <= topK)%Q ->
    (inject_Z (Z.of_nat (length (JsArray.slice0 l topK))) <= topK)%Q.
Proof.
  intros A l topK Hk. unfold JsArray.slice0.
  destruct (ToIntegerOrInfinity_le topK Hk) as [Hpos Hle].
  destruct (JsArray.ToIntegerOrInfinity topK <? 0) eqn:E;
    [apply Z.ltb_lt in E; lia |].
  eapply Qle_trans; [| exact Hle].
  rewrite <- Zle_Qle. rewrite length_firstn. lia.
Qed.


End McpSearchFacts.

(* ================================================================= *)
(** ** Time estimation *)

Section TimeEstimateFacts.
Import TimeEstimate.

Lemma getBaselineChunksPerSecond_positive :
  forall info, (0 < getBaselineChunksPerSecond info)%Q.
Proof.
  intros info. unfold getBaselineChunksPerSecond, PERFORMANCE_CONFIGS.
  simpl.
  repeat match goal with
         | |- context [if ?b then _ else _] => destruct b; simpl
         end; reflexivity.
Qed.

(** C10: on a fixed system the estimate is linear in the chunk count:
    [chunksPerSecond] is the baseline of the system, positive and the
    same for every chunk count, [estimatedSeconds] is the chunk count
    divided by it, and doubling the chunk count doubles
    [estimatedSeconds]. *)
Theorem estimateEmbeddingTime_linear :
  forall (os : Os) (n m : Q),
    chunksPerSecond (estimateEmbeddingTime os n)
    = getBaselineChunksPerSecond (getSystemInfo os)
    /\ chunksPerSecond (estimateEmbeddingTime os n)
       = chunksPerSecond (estimateEmbeddingTime os m)
    /\ (0 < chunksPerSecond (estimateEmbeddingTime os n))%Q
    /\ estimatedSeconds (estimateEmbeddingTime os n)
       = (n / chunksPerSecond (estimateEmbeddingTime os n))%Q
    /\ (estimatedSeconds (estimateEmbeddingTime os (2 * n))
        == 2 * estimatedSeconds (estimateEmbeddingTime os n))%Q.
Proof.
  intros os n m. unfold estimateEmbeddingTime. simpl. repeat split.
  - apply getBaselineChunksPerSecond_positive.
  - unfold Qdiv. ring.
Qed.

End TimeEstimateFacts.

(* ================================================================= *)
(** ** Migration Runner *)

Section MigrationFacts.
Import Engine Storage Migration.

Variable CURRENT_SCHEMA_VERSION : Z.
Variable OLDEST_SUPPORTED_VERSION : Z.
Variable upgrade : Z -> LibraryFile -> LibraryFile.

Local Abbreviation applyStep := (applyStep upgrade).
Local Abbreviation migrateIfNeeded :=
  (migrateIfNeeded CURRENT_SCHEMA_VERSION OLDEST_SUPPORTED_VERSION upgrade).

Lemma applyStep_other_version :
  forall v file, schemaVersion (metadata file) <> v -> applyStep v file = file.
Proof.
  intros v file H. unfold Migration.applyStep.
  destruct (schemaVersion (metadata file) =? v) eqn:E; [| reflexivity].
  apply Z.eqb_eq in E. contradiction.
Qed.

Lemma applyStep_bumps :
  forall v file,
    schemaVersion (metadata file) = v ->
    schemaVersion (metadata (applyStep v file)) = v + 1.
Proof.
  intros v file H. unfold Migration.applyStep.
  rewrite H, Z.eqb_refl. reflexivity.
Qed.

Lemma steps_reach :
  forall from n start file,
    schemaVersion (metadata file) = from + Z.of_nat start ->
    schemaVersion
      (metadata (fold_left (fun f step => applyStep step f)
                           (map (fun i => from + Z.of_nat i) (seq start n))
                           file))
    = from + Z.of_nat start + Z.of_nat n.
Proof.
  intros from n. induction n as [| n IH]; intros start file H; simpl.
  - lia.
  - rewrite IH.
    + lia.
    + rewrite applyStep_bumps by exact H. lia.
Qed.

Lemma migrateIfNeeded_reaches_current :
  forall file force result file',
    migrateIfNeeded file force = Ok (result, file') ->
    schemaVersion (metadata file') = CURRENT_SCHEMA_VERSION
    /\ toVersion result = CURRENT_SCHEMA_VERSION
    /\ fromVersion result = schemaVersion (metadata file).
Proof.
  intros file force result file' H. unfold Migration.migrateIfNeeded in H.
  destruct (CURRENT_SCHEMA_VERSION <? schemaVersion (metadata file)) eqn:E1;
    [discriminate |].
  destruct (schemaVersion (metadata file) =? CURRENT_SCHEMA_VERSION) eqn:E2.
  - injection H as <- <-. apply Z.eqb_eq in E2. simpl. auto.
  - destruct (schemaVersion (metadata file) <? OLDEST_SUPPORTED_VERSION);
      [discriminate |].
    destruct (negb force); [discriminate |].
    injection H as <- <-. simpl. repeat split.
    unfold pendingVersions.
    rewrite steps_reach by (simpl; lia).
    apply Z.ltb_ge in E1. simpl. lia.
Qed.

(** C3: after a run of [migrateIfNeeded] that returned, a second run on
    the file as it was left returns [migrated = false], whatever its
    force flag, and leaves the file as it is, so its chunk count and
    the results of every search are the same; and every migration
    step, applied again to that file, does nothing, its version marker
    being no longer the one the step upgrades from. *)
Theorem migrateIfNeeded_twice :
  forall file force result file',
    migrateIfNeeded file force = Ok (result, file') ->
    (forall force',
        exists file'',
          migrateIfNeeded file' force'
          = Ok (mkMigrationResult false CURRENT_SCHEMA_VERSION
                                  CURRENT_SCHEMA_VERSION, file'')
          /\ file'' = file'
          /\ chunkCount (metadata file'') = chunkCount (metadata file')
          /\ forall similarity relevance embed reranker normalize overFetch
                    options,
              HybridSearch.search similarity relevance embed reranker
                                  normalize overFetch file'' options
              = HybridSearch.search similarity relevance embed reranker
                                    normalize overFetch file' options)
    /\ (forall v, v < CURRENT_SCHEMA_VERSION -> applyStep v file' = file').
Proof.
  intros file force result file' H.
  destruct (migrateIfNeeded_reaches_current _ _ _ _ H) as (Hv & _ & _).
  split.
  - intros force'. exists file'. repeat split.
    unfold Migration.migrateIfNeeded. rewrite Hv.
    rewrite Z.ltb_irrefl, Z.eqb_refl. reflexivity.
  - intros v Hlt. apply applyStep_other_version. lia.
Qed.

End MigrationFacts.

(* ================================================================= *)
(** ** Context expansion *)

Section ContextFacts.
Import Engine Core Storage HybridSearch.

Lemma getByIdRange_same_source :
  forall file source idLow idHigh,
    Forall (fun c => sourceFile c = source)
           (getByIdRange file source idLow idHigh).
Proof.
  intros file source idLow idHigh. apply Forall_forall. intros c Hc.
  unfold getByIdRange in Hc. apply filter_In in Hc. destruct Hc as [_ Hc].
  apply andb_true_iff in Hc. destruct Hc as [Hc _].
  apply andb_true_iff in Hc. destruct Hc as [Hc _].
  now apply String.eqb_eq.
Qed.

Lemma range_filter_length :
  forall source idHigh cs idLow,
    StronglySorted Z.lt (map id cs) ->
    le (length (filter (fun c => String.eqb (sourceFile c) source
                                 && (idLow <=? id c) && (id c <=? idHigh)) cs))
       (Z.to_nat (idHigh + 1 - idLow)).
Proof.
  intros source idHigh cs.
  induction cs as [| c rest IH]; intros idLow Hs; simpl.
  - lia.
  - simpl in Hs. apply StronglySorted_inv in Hs. destruct Hs as [Hrest Hc].
    destruct (String.eqb (sourceFile c) source && (idLow <=? id c)
              && (id c <=? idHigh)) eqn:E.
    + apply andb_true_iff in E. destruct E as [E Ehi].
      apply andb_true_iff in E. destruct E as [_ Elo].
      apply Z.leb_le in Elo, Ehi. simpl.
      rewrite (filter_ext_in _
                 (fun c0 => String.eqb (sourceFile c0) source
                            && (id c + 1 <=? id c0) && (id c0 <=? idHigh))).
      * specialize (IH (id c + 1) Hrest). lia.
      * intros c0 Hc0. rewrite Forall_forall in Hc.
        assert (id c < id c0) by (apply Hc; now apply in_map).
        replace (idLow <=? id c0) with true by (symmetry; apply Z.leb_le; lia).
        replace (id c + 1 <=? id c0) with true
          by (symmetry; apply Z.leb_le; lia).
        reflexivity.
    + now apply IH.
Qed.

Lemma getByIdRange_length :
  forall file source idLow idHigh,
    wellFormed file ->
    le (length (getByIdRange file source idLow idHigh))
       (Z.to_nat (idHigh + 1 - idLow)).
Proof.
  intros file source idLow idHigh [Hs _]. now apply range_filter_length.
Qed.

Lemma assignIds_ids :
  forall cs next,
    StronglySorted Z.lt (map id (assignIds next cs))
    /\ Forall (fun i => next <= i < next + Z.of_nat (length cs))
              (map id (assignIds next cs)).
Proof.
  induction cs as [| c rest IH]; intros next; simpl.
  - split; constructor.
  - destruct (IH (next + 1)) as [Hs Hb]. split.
    + constructor; [exact Hs |].
      eapply Forall_impl; [| exact Hb]. simpl. intros; lia.
    + constructor; [lia |].
      eapply Forall_impl; [| exact Hb]. simpl. intros; lia.
Qed.

Lemma StronglySorted_app_lt :
  forall (l1 l2 : list Z) bound,
    StronglySorted Z.lt l1 -> StronglySorted Z.lt l2 ->
    Forall (fun i => i < bound) l1 -> Forall (fun i => bound <= i) l2 ->
    StronglySorted Z.lt (l1 ++ l2).
Proof.
  intros l1 l2 bound H1 H2 Hb1 Hb2.
  induction H1 as [| x rest Hrest IH Hx]; simpl.
  - exact H2.
  - apply Forall_cons_iff in Hb1. destruct Hb1 as [Hxb Hb1].
    constructor; [now apply IH |].
    apply Forall_app. split; [exact Hx |].
    eapply Forall_impl; [| exact Hb2]. simpl. intros; lia.
Qed.

Lemma create_wellFormed :
  forall current libraryName libraryVersion dims,
    wellFormed (create current libraryName libraryVersion dims).
Proof. intros. split; constructor. Qed.

Lemma addChunks_wellFormed :
  forall file newChunks file',
    wellFormed file ->
    addChunks file newChunks = Ok file' ->
    wellFormed file'.
Proof.
  intros file newChunks file' [Hs Hb] H. unfold addChunks in H.
  destruct (forallb _ newChunks); [| discriminate].
  injection H as <-. unfold wellFormed. simpl.
  destruct (assignIds_ids newChunks (nextId file)) as [Hs' Hb'].
  rewrite map_app. split.
  - apply StronglySorted_app_lt with (bound := nextId file); auto.
    eapply Forall_impl; [| exact Hb']. simpl. intros; lia.
  - apply Forall_app. split.
    + eapply Forall_impl; [| exact Hb]. simpl. intros; lia.
    + eapply Forall_impl; [| exact Hb']. simpl. intros; lia.
Qed.

Variable similarity : list Q -> list Q -> Q.
Variable relevance : string -> option (StoredChunk -> option Q).
Variable embed : string -> option (list Q).
Variable reranker : string -> list string -> option (list Q).
Variable normalize : list Candidate -> list Candidate.
Variable overFetch : nat.

Local Abbreviation search :=
  (search similarity relevance embed reranker normalize overFetch).

Lemma search_results_expanded :
  forall file options results warnings r,
    search file options = Ok (results, warnings) ->
    In r results ->
    exists x, r = expand file options x.
Proof.
  intros file options results warnings r H Hr.
  unfold HybridSearch.search in H.
  destruct (embed (query options)); [| discriminate].
  destruct (match ftsSearch relevance file (query options)
                            (k options * overFetch) with
            | Some found => (normalize found, [])
            | None => ([], [LexicalQueryFailed])
            end) as [lexicalCandidates ws].
  match type of H with
  | match ?o with Ok _ => _ | Failed _ => _ end = _ =>
      destruct o as [ordered | e]; [| discriminate]
  end.
  injection H as <- _. apply in_map_iff in Hr.
  destruct Hr as (x & <- & _). now exists x.
Qed.

(** C2: on a store whose identifiers increase in storage order, every
    result of a search that asked for [contextBefore] (for
    [contextAfter]) chunks carries context chunks of its own source
    file only, and no more of them than were asked for. *)
Theorem context_same_file_and_clipped :
  forall file options results warnings r,
    wellFormed file ->
    search file options = Ok (results, warnings) ->
    In r results ->
    (forall n, contextBefore options = Some n ->
       exists before,
         result_contextBefore r = Some before
         /\ Forall (fun c => sourceFile c = result_sourceFile r) before
         /\ (length before <= n)%nat)
    /\ (forall n, contextAfter options = Some n ->
          exists after,
            result_contextAfter r = Some after
            /\ Forall (fun c => sourceFile c = result_sourceFile r) after
            /\ (length after <= n)%nat).
Proof.
  intros file options results warnings r Hwf H Hr.
  destruct (search_results_expanded _ _ _ _ _ H Hr) as [x ->].
  split; intros n Hn; unfold expand; simpl; rewrite Hn;
    eexists; (split; [reflexivity |]); split.
  - apply getByIdRange_same_source.
  - pose proof (getByIdRange_length file (sourceFile (fst x))
                  (id (fst x) - Z.of_nat n) (id (fst x) - 1) Hwf). lia.
  - apply getByIdRange_same_source.
  - pose proof (getByIdRange_length file (sourceFile (fst x))
                  (id (fst x) + 1) (id (fst x) + Z.of_nat n) Hwf). lia.
Qed.

End ContextFacts.

(* ================================================================= *)
(** ** Chunk Splitter *)

Section ChunkSplitterFacts.
Import Engine ChunkSplitter.
Local Open Scope nat_scope.

Lemma lastWhere_bounds :
  forall ok lo hi p, lastWhere ok lo hi = Some p -> lo < p <= hi.
Proof.
  intros ok lo hi p H. unfold lastWhere in H.
  apply find_some in H. destruct H as [H _].
  apply in_rev in H. apply in_seq in H. lia.
Qed.

Lemma findCut_bounds :
  forall text lo hi, lo < hi -> lo < findCut text lo hi <= hi.
Proof.
  intros text lo hi Hlt. unfold findCut.
  destruct (lastWhere (paragraphBoundary text) lo hi) eqn:P;
    [eapply lastWhere_bounds; eauto |].
  destruct (lastWhere (sentenceBoundary text) lo hi) eqn:S;
    [eapply lastWhere_bounds; eauto |].
  destruct (lastWhere (wordBoundary text) lo hi) eqn:W;
    [eapply lastWhere_bounds; eauto |].
  lia.
Qed.

Lemma nextStart_bounds :
  forall splitter text start stop,
    start < stop ->
    stop - overlap splitter <= nextStart splitter text start stop <= stop.
Proof.
  intros splitter text start stop Hlt. unfold nextStart.
  destruct (find _ _) as [p |] eqn:F.
  - apply find_some in F. destruct F as [F _]. apply in_seq in F. lia.
  - lia.
Qed.

Lemma skipn_slice :
  forall (text : list ascii) start prevEnd stop,
    start <= prevEnd ->
    skipn (prevEnd - start) (slice text start stop)
    = firstn (stop - prevEnd) (skipn prevEnd text).
Proof.
  intros text start prevEnd stop H. unfold slice.
  rewrite skipn_firstn_comm, skipn_skipn.
  f_equal; [lia | f_equal; lia].
Qed.

Lemma firstn_then_skipn :
  forall (text : list ascii) prevEnd stop,
    prevEnd <= stop ->
    (firstn (stop - prevEnd) (skipn prevEnd text) ++ skipn stop text)%list
    = skipn prevEnd text.
Proof.
  intros text prevEnd stop H.
  replace (skipn stop text)
    with (skipn (stop - prevEnd) (skipn prevEnd text))
    by (rewrite skipn_skipn; f_equal; lia).
  apply firstn_skipn.
Qed.

Lemma splitFrom_covers :
  forall splitter text fuel prevEnd start,
    overlap splitter < targetSize splitter ->
    start <= prevEnd ->
    prevEnd < length text ->
    prevEnd < start + targetSize splitter ->
    length text - prevEnd <= fuel ->
    concat (nonOverlapping prevEnd (splitFrom splitter fuel text prevEnd start))
    = skipn prevEnd text.
Proof.
  intros splitter text fuel.
  induction fuel as [| fuel IH]; intros prevEnd start Hcfg Hstart Hlen Hwin Hfuel.
  - lia.
  - simpl.
    set (hi := Nat.min (start + targetSize splitter) (length text)).
    assert (Hhi : prevEnd < hi) by (unfold hi; lia).
    set (stop := if hi =? length text then length text
                 else findCut text prevEnd hi).
    assert (Hstop : prevEnd < stop <= hi).
    { unfold stop. destruct (hi =? length text) eqn:E.
      - apply Nat.eqb_eq in E. lia.
      - now apply findCut_bounds. }
    assert (Hhi' : hi <= length text /\ hi <= start + targetSize splitter)
      by (unfold hi; lia).
    destruct (stop =? length text) eqn:E; simpl.
    + apply Nat.eqb_eq in E. rewrite app_nil_r.
      rewrite skipn_slice by exact Hstart.
      apply firstn_all2. rewrite length_skipn. lia.
    + apply Nat.eqb_neq in E.
      pose proof (nextStart_bounds splitter text start stop ltac:(lia)) as Hn.
      rewrite IH by lia.
      rewrite skipn_slice by exact Hstart.
      apply firstn_then_skipn. lia.
Qed.

(** C4: for every text and every splitter that could be constructed
    (its overlap below its target size), the chunks of [split], each
    cut down to the region behind the end of the chunk before it,
    concatenate to the text. *)
Theorem split_round_trip :
  forall size over splitter text,
    newSplitter size over = Ok splitter ->
    reconstruct (split splitter text) = text.
Proof.
  intros size over splitter text H. unfold newSplitter in H.
  destruct (over <? size) eqn:E; [| discriminate].
  injection H as <-. apply Nat.ltb_lt in E.
  unfold reconstruct, split. destruct text as [| c rest]; [reflexivity |].
  rewrite splitFrom_covers; simpl; try lia. reflexivity.
Qed.

End ChunkSplitterFacts.

(* ================================================================= *)
(** ** Ranking *)

Section RankFacts.
Import Core Storage HybridSearch.

Lemma ranksBefore_iff :
  forall x y,
    ranksBefore x y <->
    (snd y < snd x)%Q \/ ((snd x == snd y)%Q /\ id (fst x) <= id (fst y)).
Proof.
  intros x y. unfold ranksBefore, rankAfter.
  destruct (Qcompare_spec (snd x) (snd y)) as [E | L | G].
  - rewrite Z.ltb_ge. split.
    + intros H. right. now split.
    + intros [H | [_ H]]; [| exact H].
      exfalso. rewrite E in H. eapply Qlt_irrefl; eauto.
  - split; [discriminate |].
    intros [H | [H _]]; exfalso.
    + eapply Qlt_irrefl. eapply Qlt_trans; eauto.
    + rewrite H in L. eapply Qlt_irrefl; eauto.
  - split; [now left | reflexivity].
Qed.

Lemma ranksBefore_refl : forall x, ranksBefore x x.
Proof. intros x. apply ranksBefore_iff. right. split; [reflexivity | lia]. Qed.

Lemma ranksBefore_trans :
  forall x y z, ranksBefore x y -> ranksBefore y z -> ranksBefore x z.
Proof.
  intros x y z Hxy Hyz. apply ranksBefore_iff in Hxy, Hyz.
  apply ranksBefore_iff.
  destruct Hxy as [Hxy | [Exy Ixy]], Hyz as [Hyz | [Eyz Iyz]].
  - left. eapply Qlt_trans; eauto.
  - left. now rewrite <- Eyz.
  - left. now rewrite Exy.
  - right. split; [now rewrite Exy | lia].
Qed.

Lemma ranksBefore_total :
  forall x y, rankAfter x y = true -> ranksBefore y x.
Proof.
  intros x y H. apply ranksBefore_iff. unfold rankAfter in H.
  destruct (Qcompare_spec (snd x) (snd y)) as [E | L | G].
  - apply Z.ltb_lt in H. right. split; [now symmetry | lia].
  - now left.
  - discriminate.
Qed.

Lemma ranksBefore_antisym :
  forall x y, ranksBefore x y -> ranksBefore y x -> id (fst x) = id (fst y).
Proof.
  intros x y Hxy Hyx. apply ranksBefore_iff in Hxy, Hyx.
  destruct Hxy as [Hxy | [Exy Ixy]], Hyx as [Hyx | [Eyx Iyx]].
  - exfalso. eapply Qlt_irrefl. eapply Qlt_trans; eauto.
  - exfalso. rewrite Eyx in Hxy. eapply Qlt_irrefl; eauto.
  - exfalso. rewrite Exy in Hyx. eapply Qlt_irrefl; eauto.
  - lia.
Qed.

Lemma ranksBefore_agrees :
  forall x y p q,
    agrees x p -> agrees y q -> ranksBefore x y -> ranksBefore p q.
Proof.
  intros x y p q [Ix Sx] [Iy Sy] H. apply ranksBefore_iff in H.
  apply ranksBefore_iff. rewrite <- Ix, <- Iy, <- Sx, <- Sy. exact H.
Qed.

Lemma rank_sorted : forall l, StronglySorted ranksBefore (rank l).
Proof.
  intros l. unfold rank. apply stable_sort_sorted.
  - apply ranksBefore_trans.
  - intros x y H. exact H.
  - apply ranksBefore_total.
Qed.

Lemma rank_of_sorted :
  forall l, StronglySorted ranksBefore l -> rank l = l.
Proof.
  intros l H. induction H as [| x rest Hrest IH Hx]; [reflexivity |].
  unfold rank in *. simpl. rewrite IH.
  destruct rest as [| y rest']; [reflexivity |]. simpl.
  apply Forall_inv in Hx. unfold ranksBefore in Hx. now rewrite Hx.
Qed.

Lemma inRankOrder_sorted :
  forall l, inRankOrder l = true -> StronglySorted ranksBefore l.
Proof.
  induction l as [| x rest IH]; intros H; [constructor |].
  destruct rest as [| y rest'].
  - constructor; constructor.
  - simpl in H. apply andb_true_iff in H. destruct H as [Hxy Hrest].
    apply negb_true_iff in Hxy. specialize (IH Hrest).
    constructor; [exact IH |].
    constructor; [exact Hxy |].
    apply StronglySorted_inv in IH. destruct IH as [_ Hy].
    eapply Forall_impl; [| exact Hy].
    intros z Hz. eapply ranksBefore_trans; eauto.
Qed.

Lemma candidateIds_rank :
  forall l, Permutation (candidateIds l) (candidateIds (rank l)).
Proof.
  intros l. unfold candidateIds. apply Permutation_map.
  apply stable_sort_Permutation.
Qed.

Lemma in_candidateIds :
  forall i l, In i (candidateIds l) <-> exists x, In x l /\ id (fst x) = i.
Proof.
  intros i l. unfold candidateIds. rewrite in_map_iff.
  split; intros (x & H1 & H2); exists x; tauto.
Qed.

(** The ranking of a fused list [F] whose scores are those of a list
    [P] of positive, ranked candidates for the chunks of [P] and zero
    for all other chunks: the chunks of [P] in the order of [P], then
    the others. *)
Lemma rank_primary :
  forall P F,
    NoDup (candidateIds F) ->
    NoDup (candidateIds P) ->
    StronglySorted ranksBefore P ->
    Forall (fun p => 0 < snd p)%Q P ->
    (forall p, In p P -> exists x, In x F /\ agrees x p) ->
    (forall x, In x F ->
       (exists p, In p P /\ agrees x p)
       \/ (~ In (id (fst x)) (candidateIds P) /\ (snd x == 0)%Q)) ->
    exists rest,
      candidateIds (rank F) = (candidateIds P ++ rest)%list
      /\ Forall (fun i => In i (candidateIds F)
                          /\ ~ In i (candidateIds P)) rest.
Proof.
  induction P as [| p P' IH]; intros F HndF HndP Hsorted Hpos Hcover Hfrom.
  - exists (candidateIds (rank F)). split; [reflexivity |].
    apply Forall_forall. intros i Hi. split; [| intros []].
    eapply Permutation_in; [apply Permutation_sym, candidateIds_rank | exact Hi].
  - pose proof (rank_sorted F) as HRs.
    pose proof (stable_sort_Permutation rankAfter F) as HRp.
    fold (rank F) in HRp.
    assert (HndR : NoDup (candidateIds (rank F)))
      by (eapply Permutation_NoDup; [apply candidateIds_rank | exact HndF]).
    destruct (Hcover p (or_introl eq_refl)) as (x & HxF & Hxp).
    assert (HxR : In x (rank F)) by (eapply Permutation_in; eauto).
    destruct (rank F) as [| r R'] eqn:ER; [destruct HxR |].
    apply StronglySorted_inv in HRs. destruct HRs as [HR's Hr].
    rewrite Forall_forall in Hr.
    apply StronglySorted_inv in Hsorted. destruct Hsorted as [HP's Hp].
    rewrite Forall_forall in Hp.
    apply Forall_cons_iff in Hpos. destruct Hpos as [Hppos HP'pos].
    simpl in HndP. apply NoDup_cons_iff in HndP. destruct HndP as [HpP' HndP'].
    simpl in HndR. apply NoDup_cons_iff in HndR. destruct HndR as [HrR' HndR'].
    assert (HrF : In r F)
      by (eapply Permutation_in; [apply Permutation_sym; exact HRp | now left]).
    assert (Hrp : id (fst r) = id (fst p)).
    { destruct HxR as [-> | HxR']; [apply Hxp |].
      specialize (Hr x HxR').
      destruct (Hfrom r HrF) as [(p'' & [<- | Hp''] & Hag) | [_ Hzero]].
      - apply Hag.
      - exfalso. apply HpP'.
        assert (ranksBefore p'' p) by (eapply ranksBefore_agrees; eauto).
        assert (ranksBefore p p'') by (now apply Hp).
        rewrite (ranksBefore_antisym p p'') by assumption.
        apply in_candidateIds. now exists p''.
      - exfalso. apply ranksBefore_iff in Hr. destruct Hxp as [_ Sx].
        rewrite Hzero, Sx in Hr.
        destruct Hr as [Hr | [Hr _]].
        + eapply Qlt_irrefl. eapply Qlt_trans; eauto.
        + rewrite <- Hr in Hppos. eapply Qlt_irrefl; eauto. }
    destruct (IH R') as (rest & Hids & Hrest); try assumption.
    + intros p' Hp'. destruct (Hcover p' (or_intror Hp')) as (x' & Hx'F & Hag).
      exists x'. split; [| exact Hag].
      assert (Hx'R : In x' (r :: R')) by (eapply Permutation_in; eauto).
      destruct Hx'R as [<- | Hx'R]; [| exact Hx'R].
      exfalso. apply HpP'. rewrite <- Hrp. destruct Hag as [-> _].
      apply in_candidateIds. now exists p'.
    + intros x' Hx'.
      assert (Hx'F : In x' F)
        by (eapply Permutation_in;
            [apply Permutation_sym; exact HRp | now right]).
      destruct (Hfrom x' Hx'F) as [(p'' & [<- | Hp''] & Hag) | [Hnot Hzero]].
      * exfalso. apply HrR'. rewrite Hrp. destruct Hag as [<- _].
        apply in_candidateIds. now exists x'.
      * left. now exists p''.
      * right. split; [| exact Hzero]. intros Hin. apply Hnot. now right.
    + rewrite (rank_of_sorted R' HR's) in Hids.
      exists rest. split.
      * simpl. rewrite Hrp, Hids. reflexivity.
      * rewrite Forall_forall in Hrest. apply Forall_forall.
        intros i Hi. destruct (Hrest i Hi) as [HiR' HiP']. split.
        -- eapply Permutation_in;
             [apply Permutation_sym, Permutation_map; exact HRp |].
           now right.
        -- intros [Hip | HiP]; [| now apply HiP'].
           apply HrR'. now rewrite Hrp, Hip.
Qed.

End RankFacts.

(* ================================================================= *)
(** ** Fusion at the two ends of hybridAlpha *)

Section FusionFacts.
Import Engine Core Storage HybridSearch.

Lemma present_iff :
  forall c l, present c l = true <-> In (id c) (candidateIds l).
Proof.
  intros c l. unfold present, sameChunk. rewrite existsb_exists.
  rewrite in_candidateIds. split; intros (x & Hx & E); exists x; split;
    try assumption; now apply Z.eqb_eq.
Qed.

Lemma signal_found :
  forall c l p,
    NoDup (candidateIds l) -> In p l -> id (fst p) = id c ->
    signal c l = snd p.
Proof.
  intros c l p Hnd Hp E. unfold signal.
  induction l as [| x rest IH]; [destruct Hp |].
  simpl in Hnd. apply NoDup_cons_iff in Hnd. destruct Hnd as [Hx Hnd].
  simpl. unfold sameChunk at 1.
  destruct (id (fst x) =? id c) eqn:Ex.
  - destruct Hp as [-> | Hp]; [reflexivity |].
    exfalso. apply Hx. apply Z.eqb_eq in Ex. rewrite Ex, <- E.
    apply in_candidateIds. now exists p.
  - destruct Hp as [-> | Hp].
    + apply Z.eqb_neq in Ex. contradiction.
    + now apply IH.
Qed.

Lemma signal_absent :
  forall c l, ~ In (id c) (candidateIds l) -> signal c l = 0%Q.
Proof.
  intros c l H. unfold signal.
  destruct (find (sameChunk c) l) as [x |] eqn:F; [| reflexivity].
  exfalso. apply find_some in F. destruct F as [Hx E].
  apply H. apply in_candidateIds. exists x. split; [exact Hx |].
  now apply Z.eqb_eq.
Qed.

Lemma candidateIds_filter_NoDup :
  forall (keep : Candidate -> bool) l,
    NoDup (candidateIds l) -> NoDup (candidateIds (filter keep l)).
Proof.
  intros keep l. induction l as [| x rest IH]; simpl; intros H.
  - constructor.
  - apply NoDup_cons_iff in H. destruct H as [Hx H].
    destruct (keep x); simpl; [| now apply IH].
    constructor; [| now apply IH].
    intros Hin. apply Hx. apply in_candidateIds in Hin.
    destruct Hin as (y & Hy & E). apply filter_In in Hy.
    apply in_candidateIds. exists y. tauto.
Qed.

Lemma candidateIds_fuse :
  forall alpha V L,
    candidateIds (fuse alpha V L)
    = (candidateIds V
       ++ candidateIds (filter (fun x => negb (present (fst x) V)) L))%list.
Proof.
  intros alpha V L. unfold fuse, candidateIds.
  rewrite map_app, !map_map. reflexivity.
Qed.

Lemma fuse_NoDup :
  forall alpha V L,
    NoDup (candidateIds V) -> NoDup (candidateIds L) ->
    NoDup (candidateIds (fuse alpha V L)).
Proof.
  intros alpha V L HV HL. rewrite candidateIds_fuse.
  apply NoDup_app; [exact HV | now apply candidateIds_filter_NoDup |].
  intros i Hi Hin. apply in_candidateIds in Hin.
  destruct Hin as (x & Hx & <-). apply filter_In in Hx.
  destruct Hx as [_ Hx]. apply negb_true_iff in Hx.
  apply present_iff in Hi. congruence.
Qed.

Lemma fuse_In :
  forall alpha V L x,
    In x (fuse alpha V L) ->
    (exists v, In v V
               /\ x = (fst v, fusedScore alpha (snd v) (signal (fst v) L)))
    \/ (exists l, In l L /\ ~ In (id (fst l)) (candidateIds V)
                  /\ x = (fst l, fusedScore alpha 0 (snd l))).
Proof.
  intros alpha V L x H. unfold fuse in H. apply in_app_or in H.
  destruct H as [H | H]; apply in_map_iff in H; destruct H as (y & <- & Hy).
  - left. now exists y.
  - right. apply filter_In in Hy. destruct Hy as [Hy Hp].
    exists y. repeat split; [exact Hy |].
    intros Hin. apply present_iff in Hin. rewrite Hin in Hp. discriminate.
Qed.

(** The fused list at [hybridAlpha = 1]: the vector candidates with
    their normalized scores, and zero for every other chunk. *)
Lemma fuse_alpha_one :
  forall alpha V L,
    (alpha == 1)%Q ->
    (forall p, In p V -> exists x, In x (fuse alpha V L) /\ agrees x p)
    /\ (forall x, In x (fuse alpha V L) ->
          (exists p, In p V /\ agrees x p)
          \/ (~ In (id (fst x)) (candidateIds V) /\ (snd x == 0)%Q)).
Proof.
  intros alpha V L Ha. split.
  - intros p Hp.
    exists (fst p, fusedScore alpha (snd p) (signal (fst p) L)). split.
    + unfold fuse. apply in_or_app. left.
      apply in_map_iff. now exists p.
    + split; [reflexivity |]. simpl. unfold fusedScore. rewrite Ha. ring.
  - intros x Hx. destruct (fuse_In _ _ _ _ Hx)
      as [(v & Hv & ->) | (l & Hl & Hnot & ->)].
    + left. exists v. split; [exact Hv |]. split; [reflexivity |].
      simpl. unfold fusedScore. rewrite Ha. ring.
    + right. split; [exact Hnot |]. simpl. unfold fusedScore.
      rewrite Ha. ring.
Qed.

(** The fused list at [hybridAlpha = 0]: the lexical candidates with
    their normalized scores, and zero for every other chunk. *)
Lemma fuse_alpha_zero :
  forall alpha V L,
    (alpha == 0)%Q ->
    NoDup (candidateIds L) ->
    (forall p, In p L -> exists x, In x (fuse alpha V L) /\ agrees x p)
    /\ (forall x, In x (fuse alpha V L) ->
          (exists p, In p L /\ agrees x p)
          \/ (~ In (id (fst x)) (candidateIds L) /\ (snd x == 0)%Q)).
Proof.
  intros alpha V L Ha HndL. split.
  - intros p Hp. destruct (present (fst p) V) eqn:E.
    + apply present_iff in E. apply in_candidateIds in E.
      destruct E as (v & Hv & Ev).
      exists (fst v, fusedScore alpha (snd v) (signal (fst v) L)). split.
      * unfold fuse. apply in_or_app. left. apply in_map_iff. now exists v.
      * split; [exact Ev |]. simpl.
        rewrite (signal_found (fst v) L p HndL Hp (eq_sym Ev)).
        unfold fusedScore. rewrite Ha. ring.
    + exists (fst p, fusedScore alpha 0 (snd p)). split.
      * unfold fuse. apply in_or_app. right. apply in_map_iff.
        exists p. split; [reflexivity |]. apply filter_In.
        split; [exact Hp | now rewrite E].
      * split; [reflexivity |]. simpl. unfold fusedScore. rewrite Ha. ring.
  - intros x Hx. destruct (fuse_In _ _ _ _ Hx)
      as [(v & Hv & ->) | (l & Hl & Hnot & ->)].
    + simpl. destruct (in_dec Z.eq_dec (id (fst v)) (candidateIds L))
        as [Hin | Hout].
      * left. apply in_candidateIds in Hin. destruct Hin as (p & Hp & Ep).
        exists p. split; [exact Hp |]. split; [now symmetry |]. simpl.
        rewrite (signal_found (fst v) L p HndL Hp Ep).
        unfold fusedScore. rewrite Ha. ring.
      * right. split; [exact Hout |].
        rewrite (signal_absent _ _ Hout). unfold fusedScore.
        rewrite Ha. ring.
    + left. exists l. split; [exact Hl |]. split; [reflexivity |].
      simpl. unfold fusedScore. rewrite Ha. ring.
Qed.

Lemma sameIds_eq : forall l l', sameIds l l' = true -> l = l'.
Proof.
  induction l as [| i rest IH]; intros [| i' rest'] H; simpl in H;
    try discriminate; [reflexivity |].
  apply andb_true_iff in H. destruct H as [Hi Hrest].
  apply Z.eqb_eq in Hi. f_equal; auto.
Qed.

Lemma keepsRanking_inv :
  forall normalize l,
    keepsRanking normalize l = true ->
    candidateIds (normalize l) = candidateIds l
    /\ StronglySorted ranksBefore (normalize l)
    /\ Forall (fun p => 0 < snd p)%Q (normalize l).
Proof.
  intros normalize l H. unfold keepsRanking in H.
  apply andb_true_iff in H. destruct H as [H Hpos].
  apply andb_true_iff in H. destruct H as [Hids Hord].
  repeat split.
  - now apply sameIds_eq.
  - now apply inRankOrder_sorted.
  - apply Forall_forall. intros p Hp. unfold allPositive in Hpos.
    rewrite forallb_forall in Hpos. apply Qpositive_true. now apply Hpos.
Qed.

Lemma NoDup_firstn :
  forall {A} n (l : list A), NoDup l -> NoDup (firstn n l).
Proof.
  intros A n l H. rewrite <- (firstn_skipn n l) in H.
  eapply NoDup_app_remove_r; eauto.
Qed.

Lemma In_firstn :
  forall {A} n (l : list A) x, In x (firstn n l) -> In x l.
Proof.
  intros A n l x H. rewrite <- (firstn_skipn n l).
  apply in_or_app. now left.
Qed.

Lemma candidateIds_firstn :
  forall n l, candidateIds (firstn n l) = firstn n (candidateIds l).
Proof. intros n l. unfold candidateIds. now rewrite firstn_map. Qed.

Lemma StronglySorted_lt_NoDup :
  forall l : list Z, StronglySorted Z.lt l -> NoDup l.
Proof.
  intros l H. induction H as [| x rest Hrest IH Hx]; constructor; auto.
  intros Hin. rewrite Forall_forall in Hx. specialize (Hx x Hin). lia.
Qed.

Lemma lexicalMatches_ids :
  forall matcher cs,
    (forall i, In i (candidateIds (lexicalMatches matcher cs)) ->
               In i (map id cs))
    /\ (NoDup (map id cs) -> NoDup (candidateIds (lexicalMatches matcher cs))).
Proof.
  intros matcher cs. induction cs as [| c rest [IHin IHnd]]; simpl.
  - split; [intros i [] | intros _; constructor].
  - destruct (matcher c) as [r |]; simpl.
    + split.
      * intros i [<- | Hi]; [now left | right; now apply IHin].
      * intros H. apply NoDup_cons_iff in H. destruct H as [Hc H].
        constructor; [| now apply IHnd].
        intros Hin. apply Hc. now apply IHin.
    + split.
      * intros i Hi. right. now apply IHin.
      * intros H. apply NoDup_cons_iff in H. now apply IHnd.
Qed.

Lemma scored_ids :
  forall (score : StoredChunk -> Q) cs,
    candidateIds (map (fun c => (c, score c)) cs) = map id cs.
Proof.
  intros score cs. unfold candidateIds. rewrite map_map. reflexivity.
Qed.

Variable similarity : list Q -> list Q -> Q.
Variable relevance : string -> option (StoredChunk -> option Q).
Variable embed : string -> option (list Q).
Variable reranker : string -> list string -> option (list Q).
Variable normalize : list Candidate -> list Candidate.
Variable overFetch : nat.

Local Abbreviation search :=
  (search similarity relevance embed reranker normalize overFetch).
Local Abbreviation vectorSearch := (vectorSearch similarity).
Local Abbreviation ftsSearch := (ftsSearch relevance).

Lemma vectorSearch_NoDup :
  forall file e n,
    wellFormed file -> NoDup (candidateIds (vectorSearch file e n)).
Proof.
  intros file e n [Hs _]. unfold Storage.vectorSearch.
  rewrite candidateIds_firstn. apply NoDup_firstn.
  eapply Permutation_NoDup; [apply candidateIds_rank |].
  rewrite scored_ids. now apply StronglySorted_lt_NoDup.
Qed.

Lemma ftsSearch_NoDup :
  forall file q n found,
    wellFormed file -> ftsSearch file q n = Some found ->
    NoDup (candidateIds found)
    /\ forall i, In i (candidateIds found) -> In i (map id (chunks file)).
Proof.
  intros file q n found [Hs _] H. unfold Storage.ftsSearch in H.
  destruct (relevance q) as [matcher |]; [| discriminate].
  injection H as <-. rewrite candidateIds_firstn.
  destruct (lexicalMatches_ids matcher (chunks file)) as [Hin Hnd].
  split.
  - apply NoDup_firstn.
    eapply Permutation_NoDup; [apply candidateIds_rank |].
    apply Hnd. now apply StronglySorted_lt_NoDup.
  - intros i Hi. apply In_firstn in Hi. apply Hin.
    eapply Permutation_in; [apply Permutation_sym, candidateIds_rank |].
    exact Hi.
Qed.

Lemma filter_matchesVersion_None :
  forall l, filter (matchesVersion None) l = l.
Proof.
  induction l as [| x rest IH]; simpl; [reflexivity | now rewrite IH].
Qed.

Lemma resultIds_expand :
  forall file options l,
    resultIds (map (expand file options) l) = candidateIds l.
Proof.
  intros file options l. unfold resultIds, candidateIds.
  rewrite map_map. reflexivity.
Qed.

Lemma search_plain :
  forall file options e,
    embed (query options) = Some e ->
    contentVersion options = None ->
    rerank options = false ->
    exists warnings,
      search file options
      = Ok (map (expand file options)
                (firstn (k options)
                   (rank (fuse (hybridAlpha options)
                               (normalize (vectorSearch file e
                                             (k options * overFetch)))
                               (lexicalOf normalize
                                  (ftsSearch file (query options)
                                             (k options * overFetch)))))),
            warnings).
Proof.
  intros file options e He Hv Hr. unfold HybridSearch.search, lexicalOf.
  rewrite He, Hv, Hr.
  destruct (ftsSearch file (query options) (k options * overFetch));
    rewrite !filter_matchesVersion_None; eexists; reflexivity.
Qed.


Lemma lexicalOf_ranked :
  forall found,
    (forall l, found = Some l ->
               keepsRanking normalize l = true /\ NoDup (candidateIds l)) ->
    NoDup (candidateIds (lexicalOf normalize found))
    /\ StronglySorted ranksBefore (lexicalOf normalize found)
    /\ Forall (fun p => 0 < snd p)%Q (lexicalOf normalize found)
    /\ candidateIds (lexicalOf normalize found)
       = match found with Some l => candidateIds l | None => [] end.
Proof.
  intros [l |] H; simpl.
  - destruct (H l eq_refl) as [Hk Hnd].
    destruct (keepsRanking_inv _ _ Hk) as (Hids & Hs & Hp).
    rewrite Hids. auto.
  - repeat split; constructor.
Qed.

Lemma firstn_prefix :
  forall (S rest : list Z) count fetch,
    (count <= fetch)%nat ->
    exists tail,
      firstn count (firstn fetch S ++ rest) = (firstn count S ++ tail)%list
      /\ (length (firstn count S) = count -> tail = [])
      /\ (forall i, In i tail -> In i rest)
      /\ ((length S < count)%nat -> tail = firstn (count - length S) rest).
Proof.
  intros S rest count fetch Hle.
  exists (firstn (count - length (firstn fetch S)) rest).
  rewrite firstn_app, firstn_firstn, Nat.min_l by exact Hle.
  repeat split.
  - intros Hlen. rewrite length_firstn in Hlen.
    rewrite length_firstn.
    replace (count - Nat.min fetch (length S))%nat with 0%nat by lia.
    reflexivity.
  - intros i Hi. eapply In_firstn; eauto.
  - intros Hlt. rewrite length_firstn. f_equal. lia.
Qed.

(** The extremes of [hybridAlpha] in the search as steps 2 to 5 of the
    specification describe it: without rerank and content-version
    filter, and with a normalization that keeps the ranking of both
    candidate sets (same chunks, same order, positive scores, as
    rank-based normalization does), a search with [hybridAlpha = 1]
    returns the chunks of the
    pure vector search for the same [k], in its order; a search with
    [hybridAlpha = 0] returns the chunks of the pure lexical search for
    the same [k], in its order, followed, when that search finds fewer
    than [k] chunks, by chunks that only the vector search found. *)
Theorem hybridAlpha_extremes :
  forall file options queryEmbedding,
    wellFormed file ->
    (1 <= overFetch)%nat ->
    embed (query options) = Some queryEmbedding ->
    contentVersion options = None ->
    rerank options = false ->
    keepsRanking normalize
      (vectorSearch file queryEmbedding (k options * overFetch)) = true ->
    (forall lexical,
        ftsSearch file (query options) (k options * overFetch) = Some lexical ->
        keepsRanking normalize lexical = true) ->
    exists results warnings,
      search file options = Ok (results, warnings)
      /\ ((hybridAlpha options == 1)%Q ->
          resultIds results
          = candidateIds (vectorSearch file queryEmbedding (k options)))
      /\ ((hybridAlpha options == 0)%Q ->
          forall found,
            ftsSearch file (query options) (k options) = Some found ->
            exists rest,
              resultIds results = (candidateIds found ++ rest)%list
              /\ (length found = k options -> rest = [])
              /\ Forall (fun i => ~ In i (candidateIds found)) rest).
Proof.
  intros file options e Hwf Hover He Hv Hr HkV HkL.
  destruct (search_plain file options e He Hv Hr) as [warnings Hsearch].
  eexists. exists warnings. split; [exact Hsearch |].
  rewrite resultIds_expand, candidateIds_firstn.
  set (fetch := (k options * overFetch)%nat) in *.
  assert (Hfetch : (k options <= fetch)%nat) by (unfold fetch; nia).
  set (V := normalize (vectorSearch file e fetch)) in *.
  set (L := lexicalOf normalize (ftsSearch file (query options) fetch)) in *.
  destruct (keepsRanking_inv _ _ HkV) as (HVids & HVs & HVp). fold V in HVids, HVs, HVp.
  assert (HndV : NoDup (candidateIds V))
    by (rewrite HVids; now apply vectorSearch_NoDup).
  destruct (lexicalOf_ranked (ftsSearch file (query options) fetch))
    as (HndL & HLs & HLp & HLids).
  { intros l Hl. split; [now apply HkL |].
    eapply ftsSearch_NoDup; eauto. }
  fold L in HndL, HLs, HLp, HLids.
  pose proof (fuse_NoDup (hybridAlpha options) V L HndV HndL) as HndF.
  split.
  - (* hybridAlpha = 1 *)
    intros Ha.
    destruct (fuse_alpha_one (hybridAlpha options) V L Ha) as [Hcover Hfrom].
    destruct (rank_primary V _ HndF HndV HVs HVp Hcover Hfrom)
      as (rest & Hids & Hrest).
    rewrite Hids, HVids. unfold Storage.vectorSearch at 1 2.
    rewrite !candidateIds_firstn.
    set (S := candidateIds (rank (map (fun c => (c, similarity e (embedding c)))
                                      (chunks file)))).
    destruct (firstn_prefix S rest (k options) fetch Hfetch)
      as (tail & E & Hfull & _ & Hshort).
    rewrite E.
    destruct (le_lt_dec (k options) (length S)) as [Hlong | Hlt].
    + rewrite Hfull by (rewrite length_firstn; lia). apply app_nil_r.
    + (* the vector search returned every chunk: nothing else to add *)
      assert (Hnone : rest = []).
      { destruct rest as [| i rest']; [reflexivity |]. exfalso.
        apply Forall_inv in Hrest. destruct Hrest as [HiF HiV].
        apply HiV. rewrite HVids. unfold Storage.vectorSearch.
        rewrite candidateIds_firstn. fold S.
        rewrite firstn_all2 by lia.
        rewrite candidateIds_fuse in HiF. apply in_app_or in HiF.
        destruct HiF as [HiF | HiF].
        - rewrite HVids in HiF. unfold Storage.vectorSearch in HiF.
          rewrite candidateIds_firstn in HiF. fold S in HiF.
          eapply In_firstn; eauto.
        - apply in_candidateIds in HiF. destruct HiF as (x & Hx & <-).
          apply filter_In in Hx. destruct Hx as [Hx _].
          assert (HxL : In (id (fst x)) (candidateIds L))
            by (apply in_candidateIds; now exists x).
          rewrite HLids in HxL.
          destruct (ftsSearch file (query options) fetch) as [l |] eqn:El;
            [| destruct HxL].
          destruct (ftsSearch_NoDup file _ _ _ Hwf El) as [_ Hsub].
          unfold S. eapply Permutation_in; [apply candidateIds_rank |].
          rewrite scored_ids. now apply Hsub. }
      rewrite Hshort by exact Hlt. subst rest.
      rewrite firstn_nil. apply app_nil_r.
  - (* hybridAlpha = 0 *)
    intros Ha found Hfound.
    destruct (fuse_alpha_zero (hybridAlpha options) V L Ha HndL)
      as [Hcover Hfrom].
    destruct (rank_primary L _ HndF HndL HLs HLp Hcover Hfrom)
      as (rest & Hids & Hrest).
    rewrite Hids, HLids. clear Hids.
    unfold Storage.ftsSearch in Hfound, HLids |- *.
    destruct (relevance (query options)) as [matcher |]; [| discriminate].
    injection Hfound as <-. rewrite !candidateIds_firstn.
    rewrite candidateIds_firstn in HLids.
    set (M := candidateIds (rank (lexicalMatches matcher (chunks file)))) in *.
    destruct (firstn_prefix M rest (k options) fetch Hfetch)
      as (tail & E & Hfull & Hin & _).
    rewrite E. exists tail. split; [reflexivity |]. split.
    + intros Hlen. apply Hfull. rewrite length_firstn in Hlen.
      unfold M, candidateIds. rewrite length_firstn, length_map. exact Hlen.
    + apply Forall_forall. intros i Hi Hfirst.
      rewrite Forall_forall in Hrest.
      destruct (Hrest i (Hin i Hi)) as [_ Hnot]. apply Hnot.
      rewrite HLids.
      replace (k options) with (Nat.min (k options) fetch) in Hfirst by lia.
      rewrite <- firstn_firstn in Hfirst. eapply In_firstn; eauto.
Qed.

End FusionFacts.

(* ================================================================= *)
(** ** Rank-based normalization *)

Section RankNormalizeFacts.
Import Core Storage HybridSearch.

Lemma rank_score_lt :
  forall a b n : nat,
    (b < a)%nat -> (0 < n)%nat ->
    (inject_Z (Z.of_nat b) / inject_Z (Z.of_nat n)
     < inject_Z (Z.of_nat a) / inject_Z (Z.of_nat n))%Q.
Proof.
  intros a b n Hab Hn. unfold Qdiv. apply Qmult_lt_compat_r.
  - apply Qinv_lt_0_compat. change 0%Q with (inject_Z 0).
    rewrite <- Zlt_Qlt. lia.
  - rewrite <- Zlt_Qlt. lia.
Qed.

Lemma rankScores_ids :
  forall n i l, candidateIds (rankScores n i l) = candidateIds l.
Proof.
  intros n i l. revert i.
  induction l as [| x rest IH]; intros i; simpl; [reflexivity |].
  now rewrite IH.
Qed.

Lemma rankScores_ranked :
  forall n l i,
    (i + length l <= n)%nat ->
    inRankOrder (rankScores n i l) = true
    /\ allPositive (rankScores n i l) = true.
Proof.
  intros n l. induction l as [| x rest IH]; intros i Hn.
  - split; reflexivity.
  - simpl in Hn. destruct (IH (S i)) as [Hord Hpos]; [lia |].
    split.
    + destruct rest as [| y rest']; [reflexivity |].
      change (negb (rankAfter
                      (fst x, (inject_Z (Z.of_nat (n - i))
                               / inject_Z (Z.of_nat n))%Q)
                      (fst y, (inject_Z (Z.of_nat (n - S i))
                               / inject_Z (Z.of_nat n))%Q))
              && inRankOrder (rankScores n (S i) (y :: rest')) = true).
      rewrite Hord, andb_true_r. unfold rankAfter. simpl fst. simpl snd.
      simpl in Hn.
      assert (H : (inject_Z (Z.of_nat (n - S i)) / inject_Z (Z.of_nat n)
                   < inject_Z (Z.of_nat (n - i)) / inject_Z (Z.of_nat n))%Q)
        by (apply rank_score_lt; lia).
      apply Qgt_alt in H. now rewrite H.
    + change (JsArray.Qpositive (inject_Z (Z.of_nat (n - i))
                                 / inject_Z (Z.of_nat n))
              && allPositive (rankScores n (S i) rest) = true).
      rewrite Hpos, andb_true_r. apply Qpositive_true.
      assert (H : (inject_Z (Z.of_nat 0) / inject_Z (Z.of_nat n)
                   < inject_Z (Z.of_nat (n - i)) / inject_Z (Z.of_nat n))%Q)
        by (apply rank_score_lt; lia).
      simpl in H. unfold Qdiv in H. rewrite Qmult_0_l in H. exact H.
Qed.

Lemma sameIds_refl : forall l, sameIds l l = true.
Proof.
  induction l as [| i rest IH]; simpl; [reflexivity |].
  now rewrite Z.eqb_refl, IH.
Qed.

(** Rank-based normalization keeps the ranking of every candidate
    list. *)
Lemma rankNormalize_keepsRanking :
  forall l, keepsRanking rankNormalize l = true.
Proof.
  intros l. unfold keepsRanking, rankNormalize.
  rewrite rankScores_ids, sameIds_refl.
  destruct (rankScores_ranked (length l) l 0) as [Hord Hpos]; [simpl; lia |].
  now rewrite Hord, Hpos.
Qed.

End RankNormalizeFacts.

(* ================================================================= *)
(** ** The properties on sample data *)

Section OnSamples.
Import Js Engine Core Storage HybridSearch Samples.

Lemma capitalsFile_wellFormed : wellFormed capitalsFile.
Proof. split; simpl; repeat constructor; lia. Qed.

Lemma guideFile_wellFormed : wellFormed guideFile.
Proof.
  unfold guideFile.
  destruct (addChunks _ _) as [file | e] eqn:E.
  - eapply addChunks_wellFormed; [apply create_wellFormed | exact E].
  - apply create_wellFormed.
Qed.

(** With two chunks of which one matches the query, a search for two
    results with [hybridAlpha = 0] returns both chunks, the pure
    lexical search the matching one only; so with rank-based and so
    with min-max normalization. *)
Lemma hybridAlpha_zero_adds_vector_only_chunks :
  idsOf (search dot containment sampleEmbed noReranker rankNormalize 3
                capitalsFile (searchFor "Japan" 2 0))
  = Some [2; 1]
  /\ idsOf (search dot containment sampleEmbed noReranker minMaxNormalize 3
                   capitalsFile (searchFor "Japan" 2 0))
     = Some [2; 1]
  /\ option_map candidateIds (ftsSearch containment capitalsFile "Japan" 2)
     = Some [2]
  /\ idsOf (search dot containment sampleEmbed noReranker rankNormalize 3
                   capitalsFile (searchFor "Japan" 2 0))
     <> option_map candidateIds (ftsSearch containment capitalsFile "Japan" 2).
Proof.
  vm_compute. repeat split. discriminate.
Qed.

(** With min-max normalization the weakest vector candidates score
    zero, like the chunks the vector search did not return: at
    [hybridAlpha = 1] one of these takes the second place. *)
Lemma minMax_hybridAlpha_one_differs :
  idsOf (search dot containment sampleEmbed noReranker minMaxNormalize 3
                guideFile (searchFor "Japan" 2 1))
  = Some [2; 1]
  /\ candidateIds (vectorSearch dot guideFile [1%Q; 0%Q] 2) = [2; 3].
Proof.
  vm_compute. split; reflexivity.
Qed.

Lemma hybridAlpha_extremes_witness :
  (exists results warnings,
      search dot containment sampleEmbed noReranker rankNormalize 3 guideFile
             (searchFor "Japan" 2 1)
      = Ok (results, warnings)
      /\ ((1 == 1)%Q ->
          resultIds results
          = candidateIds (vectorSearch dot guideFile [1%Q; 0%Q] 2))
      /\ ((1 == 0)%Q ->
          forall found,
            ftsSearch containment guideFile "Japan" 2 = Some found ->
            exists rest,
              resultIds results = (candidateIds found ++ rest)%list
              /\ (length found = 2%nat -> rest = [])
              /\ Forall (fun i => ~ In i (candidateIds found)) rest))
  /\ (exists results warnings,
         search dot containment sampleEmbed noReranker rankNormalize 3
                capitalsFile (searchFor "Japan" 2 0)
         = Ok (results, warnings)
         /\ ((0 == 1)%Q ->
             resultIds results
             = candidateIds (vectorSearch dot capitalsFile [1%Q; 0%Q] 2))
         /\ ((0 == 0)%Q ->
             forall found,
               ftsSearch containment capitalsFile "Japan" 2 = Some found ->
               exists rest,
                 resultIds results = (candidateIds found ++ rest)%list
                 /\ (length found = 2%nat -> rest = [])
                 /\ Forall (fun i => ~ In i (candidateIds found)) rest)).
Proof.
  split.
  - apply (hybridAlpha_extremes dot containment sampleEmbed noReranker
             rankNormalize 3 guideFile (searchFor "Japan" 2 1) [1%Q; 0%Q]).
    + apply guideFile_wellFormed.
    + lia.
    + reflexivity.
    + reflexivity.
    + reflexivity.
    + vm_compute. reflexivity.
    + intros lexical _. apply rankNormalize_keepsRanking.
  - apply (hybridAlpha_extremes dot containment sampleEmbed noReranker
             rankNormalize 3 capitalsFile (searchFor "Japan" 2 0) [1%Q; 0%Q]).
    + apply capitalsFile_wellFormed.
    + lia.
    + reflexivity.
    + reflexivity.
    + reflexivity.
    + vm_compute. reflexivity.
    + intros lexical _. apply rankNormalize_keepsRanking.
Defined.

Lemma context_same_file_and_clipped_witness :
  exists results warnings r,
    search dot containment sampleEmbed noReranker rankNormalize 3 guideFile
           (searchFor "Japan" 2 (1 # 2))
    = Ok (results, warnings)
    /\ In r results
    /\ (forall n, Some 1%nat = Some n ->
          exists before,
            result_contextBefore r = Some before
            /\ Forall (fun c => sourceFile c = result_sourceFile r) before
            /\ (length before <= n)%nat)
    /\ (forall n, Some 1%nat = Some n ->
          exists after,
            result_contextAfter r = Some after
            /\ Forall (fun c => sourceFile c = result_sourceFile r) after
            /\ (length after <= n)%nat).
Proof.
  eexists. eexists. eexists.
  split; [vm_compute; reflexivity |].
  split; [left; reflexivity |].
  eapply (context_same_file_and_clipped dot containment sampleEmbed noReranker
            rankNormalize 3 guideFile (searchFor "Japan" 2 (1 # 2))).
  - apply guideFile_wellFormed.
  - reflexivity.
  - left. reflexivity.
Defined.

(** A hit at the start of its source file: the chunk stored before it
    belongs to another file and is no part of its context. *)
Lemma context_clipped_at_file_boundary :
  match search dot containment sampleEmbed noReranker rankNormalize 3
               capitalsFile (searchFor "Japan" 1 (1 # 2)) with
  | Ok (results, _) =>
      map (fun r => (result_id r, result_sourceFile r,
                     result_contextBefore r, result_contextAfter r)) results
  | Failed _ => []
  end
  = [(2, "tokyo.txt", Some [], Some [])].
Proof. vm_compute. reflexivity. Qed.

Lemma migrateIfNeeded_twice_witness :
  exists result file',
    Migration.migrateIfNeeded 3 1 sampleUpgrade legacyFile true
    = Ok (result, file')
    /\ Migration.migrated result = true
    /\ (forall force',
          exists file'',
            Migration.migrateIfNeeded 3 1 sampleUpgrade file' force'
            = Ok (Migration.mkMigrationResult false 3 3, file'')
            /\ file'' = file'
            /\ chunkCount (metadata file'') = chunkCount (metadata file')
            /\ forall similarity relevance embed reranker normalize overFetch
                      options,
                search similarity relevance embed reranker normalize
                       overFetch file'' options
                = search similarity relevance embed reranker normalize
                         overFetch file' options)
    /\ (forall v, v < 3 -> Migration.applyStep sampleUpgrade v file' = file').
Proof.
  eexists. eexists.
  split; [vm_compute; reflexivity |].
  split; [reflexivity |].
  eapply (migrateIfNeeded_twice 3 1 sampleUpgrade legacyFile true).
  reflexivity.
Defined.

Lemma split_round_trip_witness :
  ChunkSplitter.newSplitter 40 10 = Ok (ChunkSplitter.mkSplitter 40 10)
  /\ length (ChunkSplitter.split (ChunkSplitter.mkSplitter 40 10) sampleText)
     = 2%nat
  /\ ChunkSplitter.reconstruct
       (ChunkSplitter.split (ChunkSplitter.mkSplitter 40 10) sampleText)
     = sampleText.
Proof.
  split; [reflexivity |]. split; [vm_compute; reflexivity |].
  apply (split_round_trip 40 10). reflexivity.
Defined.

Lemma chunkText_sample :
  CodeChunker.chunkText NodePath.extname CodeChunker.sampleCodeChunk
                        defaultChunker "let x = 1" "src/Utils.TS"
  = Return [utilsChunk].
Proof. vm_compute. reflexivity. Qed.

Lemma chunkSourceFiles_sample :
  CodeChunker.chunkSourceFiles NodePath.extname CodeChunker.sampleCodeChunk
                               sampleAccepts defaultChunker sampleBatch
  = Return [utilsChunk].
Proof. vm_compute. reflexivity. Qed.


Lemma chunkText_lines_one_indexed_witness :
  CodeChunker.chunkText NodePath.extname CodeChunker.sampleCodeChunk
                        defaultChunker "let x = 1" "src/Utils.TS"
  = Return [utilsChunk]
  /\ exists language codeChunks,
       CodeChunker.detectLanguage NodePath.extname "src/Utils.TS"
       = Some language
       /\ CodeChunker.sampleCodeChunk "src/Utils.TS" "let x = 1"
            (CodeChunker.optionsFor defaultChunker language)
          = Return codeChunks
       /\ Forall2 (fun chunk external =>
                     CodeChunker.startLine (CodeChunker.metadata chunk)
                     = Some (CodeChunker.cc_start
                               (CodeChunker.cc_lineRange external) + 1)
                     /\ CodeChunker.endLine (CodeChunker.metadata chunk)
                        = Some (CodeChunker.cc_end
                                  (CodeChunker.cc_lineRange external) + 1)
                     /\ (0 <= CodeChunker.cc_start
                                (CodeChunker.cc_lineRange external) ->
                         exists line,
                           CodeChunker.startLine (CodeChunker.metadata chunk)
                           = Some line
                           /\ 1 <= line))
                  [utilsChunk] codeChunks.
Proof.
  split; [exact chunkText_sample |].
  exact (chunkText_lines_one_indexed NodePath.extname
           CodeChunker.sampleCodeChunk defaultChunker "let x = 1"
           "src/Utils.TS" [utilsChunk] chunkText_sample).
Defined.

Lemma chunkText_failure_modes_witness :
  CodeChunker.chunkText NodePath.extname CodeChunker.sampleCodeChunk
                        defaultChunker "# readme" "README.md"
  = Throw (CodeChunker.UnsupportedFileType "README.md")
  /\ CodeChunker.chunkText NodePath.extname CodeChunker.sampleCodeChunk
                           defaultChunker "<<<" "lib/broken.py"
     = Throw (CodeChunker.ParseFailure "lib/broken.py" "unexpected token")
  /\ CodeChunker.tryChunkText NodePath.extname CodeChunker.sampleCodeChunk
                              defaultChunker "<<<" "lib/broken.py"
     = Return None.
Proof.
  destruct (chunkText_failure_modes NodePath.extname
              CodeChunker.sampleCodeChunk defaultChunker "# readme"
              "README.md") as (_ & E1 & _).
  destruct (chunkText_failure_modes NodePath.extname
              CodeChunker.sampleCodeChunk defaultChunker "<<<"
              "lib/broken.py") as (_ & E2 & _ & _ & E3).
  split; [rewrite E1; vm_compute; reflexivity |].
  split; [rewrite E2; vm_compute; reflexivity |].
  rewrite E3, E2. vm_compute. reflexivity.
Defined.

Lemma mapped_chunks_embed_contextualized_text_witness :
  CodeChunker.chunkText NodePath.extname CodeChunker.sampleCodeChunk
                        defaultChunker "let x = 1" "src/Utils.TS"
  = Return [utilsChunk]
  /\ exists language codeChunks,
       CodeChunker.detectLanguage NodePath.extname "src/Utils.TS"
       = Some language
       /\ CodeChunker.sampleCodeChunk "src/Utils.TS" "let x = 1"
            (CodeChunker.optionsFor defaultChunker language)
          = Return codeChunks
       /\ Forall2 (fun chunk external =>
                     CodeChunker.embeddingContent chunk
                     = Some (CodeChunker.cc_contextualizedText external)
                     /\ CodeChunker.content chunk
                        = CodeChunker.cc_text external)
                  [utilsChunk] codeChunks.
Proof.
  split; [exact chunkText_sample |].
  exact (proj2 (mapped_chunks_embed_contextualized_text NodePath.extname
                  CodeChunker.sampleCodeChunk)
               defaultChunker "let x = 1" "src/Utils.TS" [utilsChunk]
               chunkText_sample).
Defined.



End OnSamples.

(* ================================================================= *)
(** * Further properties *)

(* ================================================================= *)
(** ** CodeChunker: supported files and the origin of chunks *)

Section CodeChunkerMore.
Import Js CodeChunker.

Variable extname : string -> string.
Variable codeChunk :
  string -> string -> CodeChunkOptions -> Completion (list CodeChunkChunk).
Variable acceptsArguments : nat -> bool.

Local Abbreviation detectLanguage := (detectLanguage extname).
Local Abbreviation isSupported := (isSupported extname).
Local Abbreviation chunkText := (chunkText extname codeChunk).
Local Abbreviation chunkSourceFiles :=
  (chunkSourceFiles extname codeChunk acceptsArguments).

Lemma has_key_In :
  forall ext table, has_key ext table = true <-> In ext (map fst table).
Proof.
  intros ext table. unfold has_key. rewrite existsb_exists, in_map_iff.
  split.
  - intros (kv & Hin & E). apply String.eqb_eq in E. now exists kv.
  - intros (kv & E & Hin). exists kv. split; [exact Hin |].
    now apply String.eqb_eq.
Qed.

(** X1: [isSupported], [detectLanguage] and [getSupportedExtensions]
    agree: a path is supported exactly when a language is detected for
    it, and exactly when its lower-cased extension is one of the
    supported extensions. *)
Theorem isSupported_agrees :
  forall filePath,
    (isSupported filePath = true <-> detectLanguage filePath <> None)
    /\ (isSupported filePath = true <->
        In (NodePath.toLowerCase (extname filePath)) getSupportedExtensions).
Proof.
  intros filePath. split.
  - apply isSupported_detectLanguage.
  - unfold CodeChunker.isSupported, getSupportedExtensions.
    apply has_key_In.
Qed.

(** X2: the chunks that [chunkText] returns are as many as the AST
    capability returned, and each names the path it was given as its
    source file, the language detected for that path, and a code
    context that lists the scopes, entities, siblings and imports of
    its external chunk by name, in their order. *)
Theorem chunkText_provenance :
  forall self content filePath chunks,
    chunkText self content filePath = Return chunks ->
    exists language codeChunks,
      detectLanguage filePath = Some language
      /\ codeChunk filePath content (optionsFor self language)
         = Return codeChunks
      /\ length chunks = length codeChunks
      /\ Forall2 (fun chunk external =>
                    sourceFile (metadata chunk) = filePath
                    /\ CodeChunker.language (metadata chunk) = Some language
                    /\ exists context,
                         codeContext (metadata chunk) = Some context
                         /\ map scope_name (scope context)
                            = map cc_scope_name (cc_scope (cc_context external))
                         /\ map entity_name (entities context)
                            = map cc_entity_name
                                  (cc_entities (cc_context external))
                         /\ map sibling_name (siblings context)
                            = map cc_sibling_name
                                  (cc_siblings (cc_context external))
                         /\ map import_name (imports context)
                            = map cc_import_name
                                  (cc_imports (cc_context external)))
                 chunks codeChunks.
Proof.
  intros self content filePath chunks H.
  destruct (chunkText_Return_inv extname codeChunk _ _ _ _ H)
    as (language & codeChunks & L & C & ->).
  exists language, codeChunks. repeat split; try assumption.
  - apply length_map.
  - clear. induction codeChunks as [| c rest IH]; simpl; constructor;
      [| exact IH].
    repeat split. eexists. split; [reflexivity |].
    simpl. rewrite !map_map. repeat split.
Qed.

(** X3: every chunk that [chunkSourceFiles] returns comes from a file
    of the batch with a supported extension: its source file is the
    relative path of that file, and its language the one detected for
    that path. *)
Theorem chunkSourceFiles_provenance :
  forall self files chunks chunk,
    chunkSourceFiles self files = Return chunks ->
    In chunk chunks ->
    exists file,
      In file files
      /\ isSupported (relativePath file) = true
      /\ sourceFile (metadata chunk) = relativePath file
      /\ CodeChunker.language (metadata chunk)
         = detectLanguage (relativePath file).
Proof.
  intros self files chunks chunk H Hin.
  unfold CodeChunker.chunkSourceFiles in H.
  rewrite chunkSourceFiles_loop_spec in H. injection H as <-.
  simpl in Hin. apply in_flat_map in Hin. destruct Hin as (file & Hfile & Hc).
  exists file. split; [exact Hfile |].
  destruct (chunkText self (file_content file) (relativePath file))
    as [cs | e] eqn:E; [| destruct Hc].
  destruct (acceptsArguments (length cs)); [| destruct Hc].
  destruct (chunkText_Return_inv extname codeChunk _ _ _ _ E)
    as (language & codeChunks & L & C & ->).
  apply in_map_iff in Hc. destruct Hc as (external & <- & _).
  repeat split.
  - apply isSupported_detectLanguage. rewrite L. discriminate.
  - simpl. now rewrite L.
Qed.

(** X4: chunking a batch made of two batches gives the chunks of the
    first followed by the chunks of the second; a file never changes
    what another file of the batch yields. *)
Theorem chunkSourceFiles_app :
  forall self files1 files2,
    exists chunks1 chunks2,
      chunkSourceFiles self files1 = Return chunks1
      /\ chunkSourceFiles self files2 = Return chunks2
      /\ chunkSourceFiles self (files1 ++ files2)
         = Return (chunks1 ++ chunks2)%list.
Proof.
  intros self files1 files2. unfold CodeChunker.chunkSourceFiles.
  rewrite !chunkSourceFiles_loop_spec. simpl.
  eexists. eexists. repeat split. now rewrite flat_map_app.
Qed.

End CodeChunkerMore.

(* ================================================================= *)
(** ** The libragen_search MCP tool: targets, errors, order *)

Section McpSearchMore.
Import Js McpSearch McpSearchTargets.

Variable listInstalled : list string -> Completion (list InstalledLibrary).
Variable searchLibrary : InstalledLibrary -> Completion (list Core.SearchResult).

Local Abbreviation tool := (tool listInstalled searchLibrary).
Local Abbreviation handler := (handler searchLibrary).
Local Abbreviation gathered := (gathered searchLibrary).

Lemma searchEach_all_return :
  forall targets allResults,
    (forall lib, In lib targets -> returns (searchLibrary lib) = true) ->
    searchEach searchLibrary targets allResults
    = Return (allResults ++ gathered targets)%list.
Proof.
  induction targets as [| lib rest IH]; intros allResults Hall; simpl.
  - now rewrite app_nil_r.
  - pose proof (Hall lib (or_introl eq_refl)) as Hlib.
    unfold McpSearchTargets.gathered. simpl.
    destruct (searchLibrary lib) as [results | e]; [| discriminate].
    simpl. rewrite IH by (intros l Hl; apply Hall; now right).
    now rewrite app_assoc.
Qed.

Lemma searchEach_first_throw :
  forall before lib after e allResults,
    (forall l, In l before -> returns (searchLibrary l) = true) ->
    searchLibrary lib = Throw e ->
    searchEach searchLibrary (before ++ lib :: after) allResults = Throw e.
Proof.
  induction before as [| b rest IH]; intros lib after e allResults Hall He;
    simpl.
  - now rewrite He.
  - pose proof (Hall b (or_introl eq_refl)) as Hb.
    destruct (searchLibrary b) as [results | e']; [| discriminate].
    simpl. apply IH; [| exact He]. intros l Hl. apply Hall. now right.
Qed.

Lemma targetLibraries_nil :
  forall libraries installed,
    targetLibraries libraries installed = [] <->
    forall lib, In lib installed ->
      match libraries with
      | Some names => ~ In (lib_name lib) names
      | None => False
      end.
Proof.
  intros [names |] installed; simpl.
  - split.
    + intros H lib Hlib Hname.
      assert (Hin : In lib (filter (fun l => existsb (String.eqb (lib_name l))
                                                     names) installed)).
      { apply filter_In. split; [exact Hlib |].
        apply existsb_exists. exists (lib_name lib).
        split; [exact Hname | apply String.eqb_refl]. }
      rewrite H in Hin. destruct Hin.
    + intros H.
      destruct (filter _ installed) as [| lib rest] eqn:E; [reflexivity |].
      exfalso.
      assert (Hin : In lib (filter (fun l => existsb (String.eqb (lib_name l))
                                                     names) installed))
        by (rewrite E; now left).
      apply filter_In in Hin. destruct Hin as [Hlib Hex].
      apply existsb_exists in Hex. destruct Hex as (n & Hn & En).
      apply String.eqb_eq in En. subst n. exact (H lib Hlib Hn).
  - split.
    + intros -> lib [].
    + intros H. destruct installed as [| lib rest]; [reflexivity |].
      destruct (H lib (or_introl eq_refl)).
Qed.

(** X5: once the installed libraries are listed, the tool answers that
    there is no library to search exactly when no installed library is
    among the requested ones; none is requested by an empty list, which
    does not stand for all libraries, and nothing is requested of an
    empty installation. *)
Theorem tool_no_libraries :
  forall librariesDir paths libraries topK installed,
    listInstalled (chosenPaths librariesDir paths) = Return installed ->
    (tool librariesDir paths libraries topK = Return NoLibrariesFound <->
     forall lib, In lib installed ->
       match libraries with
       | Some names => ~ In (lib_name lib) names
       | None => False
       end)
    /\ (libraries = Some [] ->
        tool librariesDir paths libraries topK = Return NoLibrariesFound).
Proof.
  intros librariesDir paths libraries topK installed Hlist.
  assert (Hiff : tool librariesDir paths libraries topK = Return NoLibrariesFound
                 <-> targetLibraries libraries installed = []).
  { unfold McpSearchTargets.tool. rewrite Hlist. simpl.
    unfold McpSearch.handler.
    destruct (targetLibraries libraries installed) as [| lib rest] eqn:E.
    - split; reflexivity.
    - cbn [length Nat.eqb]. split; [| discriminate].
      destruct (searchEach searchLibrary (lib :: rest) []); simpl;
        discriminate. }
  split.
  - rewrite Hiff. apply targetLibraries_nil.
  - intros ->. apply Hiff. apply targetLibraries_nil.
    intros lib _ [].
Qed.

(** X6: when the search of one target library throws and the searches
    of the libraries before it return, the tool throws that error,
    whatever the searches of the libraries after it would do: the
    results gathered so far are given up. *)
Theorem handler_first_error :
  forall before lib after e topK,
    (forall l, In l before -> returns (searchLibrary l) = true) ->
    searchLibrary lib = Throw e ->
    handler (before ++ lib :: after) topK = Throw e.
Proof.
  intros before lib after e topK Hall He. unfold McpSearch.handler.
  replace (Nat.eqb (length (before ++ lib :: after)) 0) with false
    by (rewrite length_app; simpl; symmetry; apply Nat.eqb_neq; lia).
  now rewrite (searchEach_first_throw before lib after e [] Hall He).
Qed.

Lemma sort_byScore_Permutation :
  forall l, Permutation l (JsArray.sort byScore l).
Proof. intros l. apply stable_sort_Permutation. Qed.

(** X7: when all searches return, what the tool returns is cut from the
    front of the sorted list of all gathered items: every returned item
    was gathered from a target library, and with [topK] no less than
    the number of gathered items they are all returned. *)
Theorem handler_returns_gathered :
  forall targets topK,
    targets <> [] ->
    (forall lib, In lib targets -> returns (searchLibrary lib) = true) ->
    exists limitedResults,
      handler targets topK = Return (Formatted limitedResults)
      /\ (forall item, In item limitedResults -> In item (gathered targets))
      /\ ((inject_Z (Z.of_nat (length (gathered targets))) <= topK)%Q ->
          Permutation (gathered targets) limitedResults).
Proof.
  intros targets topK Hne Hall. unfold McpSearch.handler.
  destruct targets as [| lib rest]; [contradiction |].
  cbn [length Nat.eqb].
  rewrite (searchEach_all_return (lib :: rest) [] Hall). simpl app.
  set (all := gathered (lib :: rest)).
  eexists. split; [reflexivity |]. split.
  - intros item Hitem. unfold JsArray.slice0 in Hitem.
    apply In_firstn in Hitem.
    eapply Permutation_in;
      [apply Permutation_sym, sort_byScore_Permutation | exact Hitem].
  - intros Hk. unfold JsArray.slice0.
    assert (H0 : (0 <= topK)%Q).
    { eapply Qle_trans; [| exact Hk]. change 0%Q with (inject_Z 0).
      rewrite <- Zle_Qle. lia. }
    assert (Hlen : Z.of_nat (length all) <= JsArray.ToIntegerOrInfinity topK).
    { unfold JsArray.ToIntegerOrInfinity.
      apply Qle_bool_iff in H0. rewrite H0.
      rewrite <- (Qfloor_Z (Z.of_nat (length all))).
      now apply Qfloor_resp_le. }
    destruct (JsArray.ToIntegerOrInfinity topK <? 0) eqn:E;
      [apply Z.ltb_lt in E; lia |].
    unfold JsArray.sort. rewrite stable_sort_length.
    rewrite Z.min_r by exact Hlen. rewrite Nat2Z.id.
    rewrite firstn_all2 by (rewrite stable_sort_length; apply Nat.le_refl).
    apply stable_sort_Permutation.
Qed.

Lemma sort_byScore_sorted_id :
  forall l, scoresDescend l -> JsArray.sort byScore l = l.
Proof.
  intros l H. induction H as [| x rest Hrest IH Hx]; [reflexivity |].
  unfold JsArray.sort in *. simpl. rewrite IH.
  destruct rest as [| y rest']; [reflexivity |]. simpl.
  apply Forall_inv in Hx.
  replace (JsArray.Qpositive (byScore x y)) with false; [reflexivity |].
  symmetry. apply Qpositive_false. unfold byScore.
  apply Qle_minus_iff in Hx. apply Qle_minus_iff.
  setoid_replace (0 + - (score y - score x))%Q
    with (score x + - score y)%Q by ring.
  exact Hx.
Qed.

(** X8: the sort of the tool is stable: results that one library
    returns in non-increasing order of score come back in that very
    order, ties included, the first [topK] of them. *)
Theorem handler_single_library_keeps_order :
  forall lib results topK,
    searchLibrary lib = Return results ->
    scoresDescend (map (toItem lib) results) ->
    (0 <= topK)%Q ->
    handler [lib] topK
    = Return (Formatted
                (firstn (Z.to_nat (JsArray.ToIntegerOrInfinity topK))
                        (map (toItem lib) results))).
Proof.
  intros lib results topK Hlib Hsorted Hk. unfold McpSearch.handler.
  cbn [length Nat.eqb searchEach]. rewrite Hlib. cbn [bind app].
  rewrite (sort_byScore_sorted_id _ Hsorted).
  unfold JsArray.slice0.
  destruct (ToIntegerOrInfinity_le topK Hk) as [Hpos _].
  destruct (JsArray.ToIntegerOrInfinity topK <? 0) eqn:E;
    [apply Z.ltb_lt in E; lia |].
  do 2 f_equal.
  destruct (Z.le_ge_cases (JsArray.ToIntegerOrInfinity topK)
                          (Z.of_nat (length (map (toItem lib) results))))
    as [Hle | Hge].
  - now rewrite Z.min_l by exact Hle.
  - rewrite Z.min_r by exact Hge. rewrite Nat2Z.id.
    rewrite firstn_all. symmetry. apply firstn_all2. lia.
Qed.

(** X9: a [topK] of -1 or less does not empty the result: the tool
    then drops as many items from the end of the sorted list as
    [topK], truncated, says, and returns the others. *)
Theorem handler_negative_topK :
  forall targets topK,
    targets <> [] ->
    (forall lib, In lib targets -> returns (searchLibrary lib) = true) ->
    (topK <= -1)%Q ->
    handler targets topK
    = Return (Formatted
                (firstn (length (gathered targets)
                         - Z.to_nat (- Qceiling topK))
                        (JsArray.sort byScore (gathered targets)))).
Proof.
  intros targets topK Hne Hall Hneg. unfold McpSearch.handler.
  destruct targets as [| lib rest]; [contradiction |].
  cbn [length Nat.eqb].
  rewrite (searchEach_all_return (lib :: rest) [] Hall). cbn [bind app].
  set (all := gathered (lib :: rest)).
  assert (Hlt : (topK < 0)%Q)
    by (eapply Qle_lt_trans; [exact Hneg | reflexivity]).
  unfold JsArray.slice0, JsArray.ToIntegerOrInfinity.
  replace (Qle_bool 0 topK) with false.
  2:{ symmetry. destruct (Qle_bool 0 topK) eqn:E; [| reflexivity].
      apply Qle_bool_iff in E. exfalso. eapply Qlt_not_le; eauto. }
  assert (Hc : Qceiling topK <= -1).
  { change (-1) with (Qceiling (-1)). now apply Qceiling_resp_le. }
  unfold JsArray.sort. rewrite stable_sort_length.
  replace (Qceiling topK <? 0) with true by (symmetry; apply Z.ltb_lt; lia).
  do 3 f_equal. lia.
Qed.

End McpSearchMore.

(* ================================================================= *)
(** ** Time estimation: rates, durations and the system *)

Section TimeEstimateMore.
Import TimeEstimate.

Ltac rate_cases :=
  repeat match goal with
         | |- context [if ?b then _ else _] => destruct b; simpl
         end.

Ltac q_const := unfold Qle, Qlt; simpl; lia.

Lemma getBaselineChunksPerSecond_8_70 :
  forall info, (8 <= getBaselineChunksPerSecond info <= 70)%Q.
Proof.
  intros [model cores mem plat arc].
  unfold getBaselineChunksPerSecond, PERFORMANCE_CONFIGS, appleSilicon.
  simpl. split; rate_cases; q_const.
Qed.

(** X10: the baseline rate of every system lies between 8 and 70 chunks
    per second: 35 to 70 on Apple Silicon, 10 to 30 on x64, 8 or 20 on
    other arm64 systems, 15 on any other architecture. *)
Theorem getBaselineChunksPerSecond_ranges :
  forall info,
    (8 <= getBaselineChunksPerSecond info <= 70)%Q
    /\ (arch info = "arm64" -> platform info = "darwin" ->
        (35 <= getBaselineChunksPerSecond info <= 70)%Q)
    /\ (arch info = "x64" ->
        (10 <= getBaselineChunksPerSecond info <= 30)%Q)
    /\ (arch info = "arm64" -> platform info <> "darwin" ->
        getBaselineChunksPerSecond info = 8%Q
        \/ getBaselineChunksPerSecond info = 20%Q)
    /\ (arch info <> "x64" -> arch info <> "arm64" ->
        getBaselineChunksPerSecond info = 15%Q).
Proof.
  intros [model cores mem plat arc].
  unfold getBaselineChunksPerSecond, PERFORMANCE_CONFIGS, appleSilicon.
  simpl. split; [| split; [| split; [| split]]].
  - apply (getBaselineChunksPerSecond_8_70 (mkSystemInfo model cores mem plat arc)).
  - intros -> ->. simpl. split; rate_cases; q_const.
  - intros ->. simpl. split; rate_cases; q_const.
  - intros -> Hplat. simpl.
    destruct (String.eqb plat "darwin") eqn:E;
      [apply String.eqb_eq in E; contradiction |].
    simpl. rate_cases; auto.
  - intros Hx Ha.
    destruct (String.eqb arc "arm64") eqn:E1;
      [apply String.eqb_eq in E1; contradiction |].
    destruct (String.eqb arc "x64") eqn:E2;
      [apply String.eqb_eq in E2; contradiction |].
    reflexivity.
Qed.

(** X11: on the same CPU model, platform and architecture, more cores
    never give a lower baseline rate. *)
Theorem getBaselineChunksPerSecond_monotone_in_cores :
  forall model plat arc memory1 memory2 cores1 cores2,
    cores1 <= cores2 ->
    (getBaselineChunksPerSecond (mkSystemInfo model cores1 memory1 plat arc)
     <= getBaselineChunksPerSecond (mkSystemInfo model cores2 memory2 plat arc))%Q.
Proof.
  intros model plat arc memory1 memory2 cores1 cores2 Hle.
  unfold getBaselineChunksPerSecond, PERFORMANCE_CONFIGS, appleSilicon.
  simpl.
  repeat match goal with
         | |- context [if ?b then _ else _] => destruct b eqn:?; simpl
         end;
  repeat match goal with
         | H : (_ <=? _) = true |- _ => apply Z.leb_le in H
         | H : (_ <=? _) = false |- _ => apply Z.leb_gt in H
         end;
  q_const.
Qed.

Lemma chunksPerSecond_range :
  forall os n,
    (8 <= chunksPerSecond (estimateEmbeddingTime os n) <= 70)%Q.
Proof.
  intros os n. unfold estimateEmbeddingTime. simpl.
  apply getBaselineChunksPerSecond_8_70.
Qed.

(** X12: for a chunk count that is not negative the estimate lies
    between a seventieth and an eighth of it, in seconds, and it does
    not get smaller when the chunk count grows. *)
Theorem estimatedSeconds_bounds :
  forall os n m,
    (0 <= n)%Q ->
    (n / 70 <= estimatedSeconds (estimateEmbeddingTime os n) <= n / 8)%Q
    /\ ((n <= m)%Q ->
        (estimatedSeconds (estimateEmbeddingTime os n)
         <= estimatedSeconds (estimateEmbeddingTime os m))%Q).
Proof.
  intros os n m Hn.
  destruct (chunksPerSecond_range os n) as [Hlo Hhi].
  unfold estimateEmbeddingTime in *. simpl in *.
  set (c := getBaselineChunksPerSecond (getSystemInfo os)) in *.
  repeat split.
  - apply Qle_shift_div_l; [lra |].
    unfold Qdiv. change (/ 70)%Q with (1 # 70)%Q. nra.
  - apply Qle_shift_div_r; [lra |].
    unfold Qdiv. change (/ 8)%Q with (1 # 8)%Q. nra.
  - intros Hnm. unfold Qdiv. apply Qmult_le_compat_r; [exact Hnm |].
    apply Qinv_le_0_compat. lra.
Qed.

Lemma Qfloor_ge : forall (z : Z) (x : Q), (inject_Z z <= x)%Q -> z <= Qfloor x.
Proof.
  intros z x H. rewrite <- (Qfloor_Z z). now apply Qfloor_resp_le.
Qed.

Lemma Qfloor_lt : forall (z : Z) (x : Q), (x < inject_Z z)%Q -> Qfloor x < z.
Proof.
  intros z x H. rewrite Zlt_Qlt.
  eapply Qle_lt_trans; [apply Qfloor_le | exact H].
Qed.

Lemma minutes_bounds :
  forall s : Q,
    (60 * inject_Z (Qfloor (s / 60)) <= s)%Q
    /\ (s < 60 * inject_Z (Qfloor (s / 60)) + 60)%Q.
Proof.
  intros s. pose proof (Qfloor_le (s / 60)) as Hlo.
  pose proof (Qlt_floor (s / 60)) as Hhi.
  rewrite inject_Z_plus in Hhi. change (inject_Z 1) with 1%Q in Hhi.
  unfold Qdiv in *. change (/ 60)%Q with (1 # 60)%Q in *.
  split; lra.
Qed.

Lemma Qle_bool_false : forall x y, Qle_bool x y = false <-> (y < x)%Q.
Proof.
  intros x y. split.
  - intros H. apply Qnot_le_lt. intros Hle.
    apply Qle_bool_iff in Hle. congruence.
  - intros H. destruct (Qle_bool x y) eqn:E; [| reflexivity].
    apply Qle_bool_iff in E. exfalso. eapply Qlt_not_le; eauto.
Qed.

(** X13: from one hour on the seconds are not shown: the text gives the
    whole hours and, when there are any, the minutes left, and two
    durations in the same minute read the same. *)
Theorem formatTime_hours :
  forall s,
    (3600 <= s)%Q ->
    let minutes := Qfloor (s / 60) in
    formatTime s
    = (if 0 <? minutes mod 60
       then show (minutes / 60) ++ "h " ++ show (minutes mod 60) ++ "m"
       else show (minutes / 60) ++ "h")
    /\ 1 <= minutes / 60
    /\ 0 <= minutes mod 60 < 60
    /\ forall s', Qfloor (s' / 60) = minutes -> formatTime s' = formatTime s.
Proof.
  intros s Hs minutes.
  assert (Hform : forall t,
             60 <= Qfloor (t / 60) ->
             formatTime t
             = (if 0 <? Qfloor (t / 60) mod 60
                then show (Qfloor (t / 60) / 60) ++ "h "
                     ++ show (Qfloor (t / 60) mod 60) ++ "m"
                else show (Qfloor (t / 60) / 60) ++ "h")).
  { intros t Ht. unfold formatTime.
    destruct (minutes_bounds t) as [Hlo _].
    assert (H60 : (60 <= t)%Q).
    { eapply Qle_trans; [| exact Hlo].
      assert (inject_Z 60 <= inject_Z (Qfloor (t / 60)))%Q
        by (rewrite <- Zle_Qle; exact Ht).
      change (inject_Z 60) with 60%Q in H. lra. }
    apply Qle_bool_iff in H60. rewrite H60. cbn [negb].
    replace (Qfloor (t / 60) <? 60) with false
      by (symmetry; apply Z.ltb_ge; exact Ht).
    reflexivity. }
  assert (Hm : 60 <= minutes).
  { unfold minutes. apply Qfloor_ge. change (inject_Z 60) with 60%Q.
    apply Qle_shift_div_l; [reflexivity |]. exact Hs. }
  split; [apply Hform; exact Hm |]. split.
  - apply Z.div_le_lower_bound; lia.
  - split; [apply Z.mod_pos_bound; lia |].
    intros s' Hs'. rewrite (Hform s') by (rewrite Hs'; exact Hm).
    rewrite (Hform s) by exact Hm. fold minutes. now rewrite Hs'.
Qed.

(** X14: from one minute up to one hour the text gives the whole
    minutes, 1 to 59, and the seconds left, rounded, when they are not
    zero; the rounded seconds reach 60 instead of making a minute more,
    in the last half second of each minute. *)
Theorem formatTime_minutes :
  forall s,
    (60 <= s)%Q -> (s < 3600)%Q ->
    let minutes := Qfloor (s / 60) in
    let remainingSeconds := round (remainder s 60) in
    formatTime s
    = (if 0 <? remainingSeconds
       then show minutes ++ "m " ++ show remainingSeconds ++ "s"
       else show minutes ++ "m")
    /\ 1 <= minutes <= 59
    /\ 0 <= remainingSeconds <= 60
    /\ (remainingSeconds = 60 <->
        (60 * inject_Z minutes + (119 # 2) <= s)%Q).
Proof.
  intros s Hlo Hhi minutes remainingSeconds.
  destruct (minutes_bounds s) as [Hmlo Hmhi]. fold minutes in Hmlo, Hmhi.
  assert (Hm : 1 <= minutes <= 59).
  { split.
    - unfold minutes. apply Qfloor_ge. change (inject_Z 1) with 1%Q.
      apply Qle_shift_div_l; [reflexivity |]. lra.
    - assert (minutes < 60); [| lia].
      unfold minutes. apply Qfloor_lt. change (inject_Z 60) with 60%Q.
      apply Qlt_shift_div_r; [reflexivity |]. lra. }
  assert (Hrem : (remainder s 60 == s - 60 * inject_Z minutes)%Q).
  { unfold remainder, JsArray.ToIntegerOrInfinity.
    assert (H0 : (0 <= s / 60)%Q)
      by (apply Qle_shift_div_l; [reflexivity | lra]).
    apply Qle_bool_iff in H0. rewrite H0. reflexivity. }
  assert (Hround : remainingSeconds
                   = Qfloor (s - 60 * inject_Z minutes + (1 # 2))).
  { unfold remainingSeconds, round. apply Qfloor_comp. now rewrite Hrem. }
  assert (Hrs : 0 <= remainingSeconds <= 60).
  { rewrite Hround. split.
    - apply Qfloor_ge. change (inject_Z 0) with 0%Q. lra.
    - assert (Qfloor (s - 60 * inject_Z minutes + (1 # 2)) < 61); [| lia].
      apply Qfloor_lt. change (inject_Z 61) with 61%Q. lra. }
  repeat split; try lia.
  - unfold formatTime. apply Qle_bool_iff in Hlo. rewrite Hlo. cbn [negb].
    fold minutes. fold remainingSeconds.
    replace (minutes <? 60) with true by (symmetry; apply Z.ltb_lt; lia).
    reflexivity.
  - intros H60. rewrite Hround in H60.
    pose proof (Qfloor_le (s - 60 * inject_Z minutes + (1 # 2))) as Hf.
    rewrite H60 in Hf. change (inject_Z 60) with 60%Q in Hf. lra.
  - intros Hlast. assert (60 <= remainingSeconds); [| lia].
    rewrite Hround. apply Qfloor_ge. change (inject_Z 60) with 60%Q. lra.
Qed.

(** X15: the system information counts one core for each CPU that the
    operating system lists, never leaves the CPU model empty, and
    reports the memory in gigabytes as a multiple of a tenth that is
    within a twentieth of the exact value. *)
Theorem getSystemInfo_fields :
  forall os,
    cpuCores (getSystemInfo os) = Z.of_nat (length (cpus os))
    /\ cpuModel (getSystemInfo os) <> ""
    /\ (exists tenths : Z,
           totalMemoryGB (getSystemInfo os) == inject_Z tenths / 10)%Q
    /\ (totalmem os / (1024 * 1024 * 1024) - (1 # 20)
        < totalMemoryGB (getSystemInfo os))%Q
    /\ (totalMemoryGB (getSystemInfo os)
        <= totalmem os / (1024 * 1024 * 1024) + (1 # 20))%Q.
Proof.
  intros os. unfold getSystemInfo. simpl. repeat split.
  - destruct (cpus os) as [| model rest]; [discriminate |].
    destruct (String.eqb model "") eqn:E; [discriminate |].
    intros ->. discriminate.
  - eexists. reflexivity.
  - unfold round.
    set (x := (totalmem os / (1024 * 1024 * 1024) * 10)%Q).
    pose proof (Qlt_floor (x + (1 # 2))) as H.
    rewrite inject_Z_plus in H. change (inject_Z 1) with 1%Q in H.
    assert (Hx : (totalmem os / (1024 * 1024 * 1024) == x / 10)%Q)
      by (unfold x; field).
    rewrite Hx. unfold Qdiv in *. change (/ 10)%Q with (1 # 10)%Q in *. lra.
  - unfold round.
    set (x := (totalmem os / (1024 * 1024 * 1024) * 10)%Q).
    pose proof (Qfloor_le (x + (1 # 2))) as H.
    assert (Hx : (totalmem os / (1024 * 1024 * 1024) == x / 10)%Q)
      by (unfold x; field).
    rewrite Hx. unfold Qdiv in *. change (/ 10)%Q with (1 # 10)%Q in *. lra.
Qed.

End TimeEstimateMore.

(* ================================================================= *)
(** ** The MCP server: library paths *)

Section McpServerMore.
Import Js McpServer.

Variable getDefaultLibraryDir : string.
Variable detectProjectLibraryDir : string -> option string.
Variable hasProjectLibraryDir : string -> Completion bool.

Local Abbreviation collectProjectDirs :=
  (collectProjectDirs detectProjectLibraryDir hasProjectLibraryDir).
Local Abbreviation updateLibraryPathsFromRoots :=
  (updateLibraryPathsFromRoots getDefaultLibraryDir detectProjectLibraryDir
                               hasProjectLibraryDir).
Local Abbreviation reachable :=
  (reachable getDefaultLibraryDir detectProjectLibraryDir hasProjectLibraryDir).
Local Abbreviation checked := (checked detectProjectLibraryDir).
Local Abbreviation projectDirs :=
  (projectDirs detectProjectLibraryDir hasProjectLibraryDir).

Lemma collectProjectDirs_returns :
  forall roots paths,
    (forall root, In root roots -> checked root = true ->
                  returns (hasProjectLibraryDir (rootPathOf (uri root))) = true) ->
    collectProjectDirs roots paths
    = Return (paths ++ flat_map projectDirs roots)%list.
Proof.
  induction roots as [| root rest IH]; intros paths Hall; simpl.
  - now rewrite app_nil_r.
  - assert (Hrest : forall r, In r rest -> checked r = true ->
                      returns (hasProjectLibraryDir (rootPathOf (uri r))) = true)
      by (intros r Hr; apply Hall; now right).
    specialize (Hall root (or_introl eq_refl)).
    unfold McpServer.checked, McpServer.projectDirs in *.
    destruct (detectProjectLibraryDir (rootPathOf (uri root)))
      as [projectLibDir |]; [| now apply IH].
    destruct (String.eqb projectLibDir ""); [now apply IH |].
    specialize (Hall eq_refl).
    destruct (hasProjectLibraryDir (rootPathOf (uri root))) as [[|] | e];
      simpl in *; [| now apply IH | discriminate].
    rewrite IH by exact Hrest. now rewrite <- app_assoc.
Qed.

Lemma collectProjectDirs_throws :
  forall before root after e paths,
    (forall r, In r before -> checked r = true ->
               returns (hasProjectLibraryDir (rootPathOf (uri r))) = true) ->
    checked root = true ->
    hasProjectLibraryDir (rootPathOf (uri root)) = Throw e ->
    collectProjectDirs (before ++ root :: after) paths = Throw e.
Proof.
  induction before as [| r before IH]; intros root after e paths Hall Hc He.
  - simpl. unfold McpServer.checked in Hc.
    destruct (detectProjectLibraryDir (rootPathOf (uri root)))
      as [projectLibDir |]; [| discriminate].
    destruct (String.eqb projectLibDir ""); [discriminate |].
    now rewrite He.
  - assert (Hrest : forall r', In r' before -> checked r' = true ->
                      returns (hasProjectLibraryDir (rootPathOf (uri r'))) = true)
      by (intros r' Hr'; apply Hall; now right).
    specialize (Hall r (or_introl eq_refl)).
    simpl. unfold McpServer.checked in Hall.
    destruct (detectProjectLibraryDir (rootPathOf (uri r)))
      as [projectLibDir |]; [| now apply IH].
    destruct (String.eqb projectLibDir ""); [now apply IH |].
    specialize (Hall eq_refl).
    destruct (hasProjectLibraryDir (rootPathOf (uri r))) as [[|] | e'];
      simpl in *; [now apply IH | now apply IH | discriminate].
Qed.

(** X16: an update of the library paths in which every look at the disk
    returns sets the paths to the project library directories of the
    roots that have one on disk, one for each such root and in the
    order of the roots, followed by the global directory, and marks the
    state initialized; when a look at the disk fails, the update fails
    with the error of the first that does and leaves the state as it
    was. *)
Theorem updateLibraryPathsFromRoots_outcome :
  forall libraryPaths roots,
    ((forall root, In root roots -> checked root = true ->
                   returns (hasProjectLibraryDir (rootPathOf (uri root))) = true) ->
     updateLibraryPathsFromRoots libraryPaths roots
     = (Return tt,
        mkLibraryPaths (flat_map projectDirs roots ++ [getDefaultLibraryDir])%list
                       true))
    /\ (forall before root after e,
           roots = (before ++ root :: after)%list ->
           (forall r, In r before -> checked r = true ->
                      returns (hasProjectLibraryDir (rootPathOf (uri r))) = true) ->
           checked root = true ->
           hasProjectLibraryDir (rootPathOf (uri root)) = Throw e ->
           updateLibraryPathsFromRoots libraryPaths roots
           = (Throw e, libraryPaths)).
Proof.
  intros libraryPaths roots. unfold McpServer.updateLibraryPathsFromRoots.
  split.
  - intros Hall. now rewrite (collectProjectDirs_returns roots [] Hall).
  - intros before root after e -> Hall Hc He.
    now rewrite (collectProjectDirs_throws before root after e [] Hall Hc He).
Qed.

(** X17: in every state that the server can reach, whatever roots the
    client sent and however the updates ended, the list of library
    paths is not empty and ends with the global directory, and before
    the first update that completes it holds the global directory only;
    so the search tool always has a path to look in, with a libraries
    directory configured or without. *)
Theorem libraryPaths_never_empty :
  forall libraryPaths,
    reachable libraryPaths ->
    last (paths libraryPaths) "" = getDefaultLibraryDir
    /\ paths libraryPaths <> []
    /\ (initialized libraryPaths = false ->
        paths libraryPaths = [getDefaultLibraryDir])
    /\ forall librariesDir,
         McpSearchTargets.chosenPaths librariesDir (getLibraryPaths libraryPaths)
         <> [].
Proof.
  intros libraryPaths H.
  assert (Hinv : last (paths libraryPaths) "" = getDefaultLibraryDir
                 /\ paths libraryPaths <> []
                 /\ (initialized libraryPaths = false ->
                     paths libraryPaths = [getDefaultLibraryDir])).
  { induction H as [| s roots Hs IH].
    - simpl. repeat split. discriminate.
    - unfold McpServer.updateLibraryPathsFromRoots.
      destruct (collectProjectDirs roots []) as [found | e]; simpl.
      + repeat split.
        * apply last_last.
        * intros E. apply app_eq_nil in E. destruct E as [_ E]. discriminate.
        * discriminate.
      + exact IH. }
  destruct Hinv as (Hlast & Hne & Hinit). repeat split; try assumption.
  intros [dir |]; simpl; [| exact Hne].
  destruct (String.eqb dir ""); [exact Hne | discriminate].
Qed.

(** X18: the path of a root: a [file://] URI loses its scheme, and the
    slash before a drive letter with it; any other URI is taken as the
    path itself. *)
Theorem rootPathOf_file_uri :
  (forall path, startsWithDrive path = false ->
                rootPathOf ("file://" ++ path) = path)
  /\ (forall drive rest,
         isLetter drive = true ->
         rootPathOf ("file:///" ++ String drive (":/" ++ rest))
         = String drive (":/" ++ rest))
  /\ (forall rootUri, prefix "file://" rootUri = false ->
                      rootPathOf rootUri = rootUri).
Proof.
  repeat split.
  - intros path H. unfold rootPathOf.
    change (prefix "file://" ("file://" ++ path)) with (prefix "" path).
    replace (prefix "" path) with true by (destruct path; reflexivity).
    change (sliceFrom 7 ("file://" ++ path)) with path.
    now rewrite H.
  - intros drive rest H. unfold rootPathOf.
    change (prefix "file://" ("file:///" ++ String drive (":/" ++ rest)))
      with true.
    change (sliceFrom 7 ("file:///" ++ String drive (":/" ++ rest)))
      with (String "/" (String drive (":/" ++ rest))).
    unfold startsWithDrive. simpl. rewrite H. simpl. reflexivity.
  - intros rootUri H. unfold rootPathOf. now rewrite H.
Qed.

End McpServerMore.

(* ================================================================= *)
(** ** The MCP entry point: retries *)

Section McpEntryMore.
Import Js McpEntry.

Variable Embedder : Type.
Variable warmEmbedder : Z -> Completion Embedder.
Variable stringOf : Thrown -> string.

Local Abbreviation retryLoop := (retryLoop Embedder warmEmbedder stringOf).
Local Abbreviation warmEmbedderWithRetry :=
  (warmEmbedderWithRetry Embedder warmEmbedder stringOf).
Local Abbreviation warmingFailed := (warmingFailed stringOf).

Local Ltac conjuncts := repeat match goal with |- _ /\ _ => split end.

Lemma attemptsOf_app :
  forall (l1 l2 : list (Event Embedder)),
    attemptsOf (l1 ++ l2) = (attemptsOf l1 ++ attemptsOf l2)%list.
Proof. intros. unfold attemptsOf. apply flat_map_app. Qed.

Lemma waitsOf_app :
  forall (l1 l2 : list (Event Embedder)),
    waitsOf (l1 ++ l2) = (waitsOf l1 ++ waitsOf l2)%list.
Proof. intros. unfold waitsOf. apply flat_map_app. Qed.

Lemma updatesOf_app :
  forall (l1 l2 : list (Event Embedder)),
    updatesOf (l1 ++ l2) = (updatesOf l1 ++ updatesOf l2)%list.
Proof. intros. unfold updatesOf. apply flat_map_app. Qed.

Lemma attemptsFrom_S :
  forall first count,
    attemptsFrom first (S count)
    = first :: attemptsFrom (first + 1) count.
Proof.
  intros first count. unfold attemptsFrom. simpl.
  rewrite Z.add_0_r. f_equal. rewrite <- seq_shift, map_map.
  apply map_ext. intros i. lia.
Qed.

Lemma retryLoop_spec :
  forall remaining attempt maxRetries events,
    maxRetries = attempt + Z.of_nat remaining - 1 ->
    exists count : nat,
      (count <= remaining)%nat
      /\ attemptsOf (snd (retryLoop remaining attempt maxRetries events))
         = (attemptsOf events ++ attemptsFrom attempt count)%list
      /\ waitsOf (snd (retryLoop remaining attempt maxRetries events))
         = (waitsOf events
            ++ map delayMs (attemptsFrom attempt (count - 1)))%list
      /\ (forall a, In a (attemptsFrom attempt (count - 1)) ->
                    returns (warmEmbedder a) = false)
      /\ match fst (retryLoop remaining attempt maxRetries events) with
         | Return _ =>
             (remaining = 0%nat /\ count = 0%nat
              /\ updatesOf (snd (retryLoop remaining attempt maxRetries events))
                 = updatesOf events)
             \/ (exists embedder,
                    (1 <= count)%nat
                    /\ warmEmbedder (attempt + Z.of_nat count - 1)
                       = Return embedder
                    /\ updatesOf
                         (snd (retryLoop remaining attempt maxRetries events))
                       = (updatesOf events ++ [embedder])%list)
         | Throw thrown =>
             count = remaining /\ (1 <= count)%nat
             /\ (exists error,
                    warmEmbedder maxRetries = Throw error
                    /\ thrown = warmingFailed maxRetries error)
             /\ updatesOf (snd (retryLoop remaining attempt maxRetries events))
                = updatesOf events
         end.
Proof.
  induction remaining as [| remaining IH];
    intros attempt maxRetries events Hmax.
  - exists 0%nat. simpl. rewrite !app_nil_r.
    conjuncts; try reflexivity; try lia; try (intros a []); now left.
  - simpl. destruct (warmEmbedder attempt) as [embedder | error] eqn:W.
    + exists 1%nat. simpl.
      rewrite attemptsOf_app, waitsOf_app, updatesOf_app. simpl.
      rewrite !app_nil_r. unfold attemptsFrom. simpl. rewrite Z.add_0_r.
      conjuncts; try reflexivity; try lia; try (intros a []).
      right. exists embedder. conjuncts; [lia | | reflexivity].
      replace (attempt + 1 - 1) with attempt by lia. exact W.
    + destruct (attempt =? maxRetries) eqn:E.
      * apply Z.eqb_eq in E. assert (remaining = 0%nat) by lia. subst remaining.
        exists 1%nat. simpl.
        rewrite attemptsOf_app, waitsOf_app, updatesOf_app. simpl.
        rewrite !app_nil_r. unfold attemptsFrom. simpl. rewrite Z.add_0_r.
        conjuncts; try reflexivity; try lia; try (intros a []).
        exists error. split; [now rewrite <- E | reflexivity].
      * apply Z.eqb_neq in E.
        destruct (IH (attempt + 1) maxRetries
                     (events ++ [Attempted attempt; Waited (delayMs attempt)])%list)
          as (count & Hle & Hatt & Hwait & Hfail & Hout); [lia |].
        assert (Hpos : (1 <= count)%nat).
        { destruct remaining as [| r]; [lia |].
          destruct count as [| c]; [| lia].
          destruct (fst (retryLoop (S r) (attempt + 1) maxRetries _));
            [destruct Hout as [(H0 & _) | (e & H1 & _)]; [discriminate | lia]
            | destruct Hout as (_ & H1 & _); lia]. }
        exists (S count).
        rewrite attemptsOf_app, waitsOf_app, updatesOf_app in *.
        simpl in Hatt, Hwait, Hout. rewrite !app_nil_r in *.
        replace (S count - 1)%nat with (S (count - 1)) by lia.
        conjuncts.
        -- lia.
        -- rewrite Hatt, <- app_assoc, attemptsFrom_S. reflexivity.
        -- rewrite Hwait, <- app_assoc, attemptsFrom_S. reflexivity.
        -- intros a Ha. rewrite attemptsFrom_S in Ha. destruct Ha as [<- | Ha].
           ++ now rewrite W.
           ++ now apply Hfail.
        -- destruct (fst (retryLoop remaining (attempt + 1) maxRetries _)).
           ++ destruct Hout as [(H0 & H1 & _) | (embedder & H1 & H2 & H3)];
                [lia |].
              right. exists embedder. conjuncts; [lia | | exact H3].
              replace (attempt + Z.of_nat (S count) - 1)
                with (attempt + 1 + Z.of_nat count - 1) by lia.
              exact H2.
           ++ destruct Hout as (H1 & H2 & H3 & H4).
              conjuncts; [lia | lia | exact H3 | exact H4].
Qed.

Lemma In_attemptsFrom :
  forall first count a,
    In a (attemptsFrom first count) <-> first <= a < first + Z.of_nat count.
Proof.
  intros first count a. unfold attemptsFrom. rewrite in_map_iff. split.
  - intros (i & <- & Hi). apply in_seq in Hi. lia.
  - intros Ha. exists (Z.to_nat (a - first)). split; [lia |].
    apply in_seq. lia.
Qed.

Lemma delayMs_bounds :
  forall attempt, 1 <= attempt -> 1000 <= delayMs attempt <= 10000.
Proof.
  intros attempt H. unfold delayMs.
  assert (1 <= 2 ^ (attempt - 1)).
  { change 1 with (2 ^ 0) at 1. apply Z.pow_le_mono_r; lia. }
  lia.
Qed.

Lemma delayMs_monotone :
  forall a b, a <= b -> delayMs a <= delayMs b.
Proof.
  intros a b H. unfold delayMs.
  assert (2 ^ (a - 1) <= 2 ^ (b - 1)) by (apply Z.pow_le_mono_r; lia).
  lia.
Qed.

Lemma delays_sorted :
  forall count first,
    StronglySorted Z.le (map delayMs (attemptsFrom first count)).
Proof.
  induction count as [| count IH]; intros first.
  - constructor.
  - rewrite attemptsFrom_S. simpl. constructor; [apply IH |].
    apply Forall_forall. intros d Hd. apply in_map_iff in Hd.
    destruct Hd as (a & <- & Ha). apply In_attemptsFrom in Ha.
    apply delayMs_monotone. lia.
Qed.

(** X19: a run of [warmEmbedderWithRetry] makes the attempts 1, 2, ...
    in turn, never more than [maxRetries] of them, and every attempt
    before the last one made has failed.  It returns when an attempt
    succeeds, having handed that embedder, and no other, to the server,
    or when [maxRetries] is below one, having attempted nothing; it
    throws only when attempt [maxRetries] has failed, with an error that
    names that last failure, and the server then has no embedder from
    it. *)
Theorem warmEmbedderWithRetry_outcome :
  forall maxRetries,
    exists count : nat,
      Z.of_nat count <= Z.max 0 maxRetries
      /\ attemptsOf (snd (warmEmbedderWithRetry maxRetries))
         = attemptsFrom 1 count
      /\ (forall a, 1 <= a < Z.of_nat count ->
                    returns (warmEmbedder a) = false)
      /\ match fst (warmEmbedderWithRetry maxRetries) with
         | Return _ =>
             (maxRetries <= 0 /\ count = 0%nat
              /\ updatesOf (snd (warmEmbedderWithRetry maxRetries)) = [])
             \/ (exists embedder,
                    (1 <= count)%nat
                    /\ warmEmbedder (Z.of_nat count) = Return embedder
                    /\ updatesOf (snd (warmEmbedderWithRetry maxRetries))
                       = [embedder])
         | Throw thrown =>
             Z.of_nat count = maxRetries
             /\ 1 <= maxRetries
             /\ (exists error,
                    warmEmbedder maxRetries = Throw error
                    /\ thrown = warmingFailed maxRetries error)
             /\ updatesOf (snd (warmEmbedderWithRetry maxRetries)) = []
         end.
Proof.
  intros maxRetries. unfold McpEntry.warmEmbedderWithRetry.
  destruct (Z.to_nat maxRetries) as [| n] eqn:En.
  - exists 0%nat. simpl. conjuncts; try reflexivity; try lia.
    left. conjuncts; try reflexivity. lia.
  - destruct (retryLoop_spec (S n) 1 maxRetries []) as
      (count & Hle & Hatt & _ & Hfail & Hout); [lia |].
    rewrite <- En in *.
    exists count. conjuncts.
    + lia.
    + exact Hatt.
    + intros a Ha. apply Hfail. apply In_attemptsFrom. lia.
    + destruct (fst (retryLoop (Z.to_nat maxRetries) 1 maxRetries [])).
      * destruct Hout as [(H0 & _) | (embedder & H1 & H2 & H3)]; [lia |].
        right. exists embedder. conjuncts; [exact H1 | | exact H3].
        replace (Z.of_nat count) with (1 + Z.of_nat count - 1) by lia.
        exact H2.
      * destruct Hout as (H1 & H2 & H3 & H4).
        conjuncts; [lia | lia | exact H3 | exact H4].
Qed.

Lemma removelast_attemptsFrom :
  forall first count,
    removelast (attemptsFrom first count) = attemptsFrom first (count - 1).
Proof.
  intros first [| count]; [reflexivity |].
  replace (S count - 1)%nat with count by lia.
  unfold attemptsFrom. rewrite seq_S, map_app. simpl.
  apply removelast_last.
Qed.

(** X20: the run waits once after every failed attempt but the last one
    made, [delayMs] of that attempt; every wait lies between one and ten
    seconds, and the waits never get shorter. *)
Theorem warmEmbedderWithRetry_waits :
  forall maxRetries,
    waitsOf (snd (warmEmbedderWithRetry maxRetries))
    = map delayMs
          (removelast (attemptsOf (snd (warmEmbedderWithRetry maxRetries))))
    /\ Forall (fun d => 1000 <= d <= 10000)
              (waitsOf (snd (warmEmbedderWithRetry maxRetries)))
    /\ StronglySorted Z.le
                      (waitsOf (snd (warmEmbedderWithRetry maxRetries))).
Proof.
  intros maxRetries. unfold McpEntry.warmEmbedderWithRetry.
  destruct (Z.to_nat maxRetries) as [| n] eqn:En.
  - simpl. conjuncts; [reflexivity | constructor | constructor].
  - destruct (retryLoop_spec (S n) 1 maxRetries [])
      as (count & Hle & Hatt & Hwait & _); [lia |].
    simpl app in Hatt, Hwait. rewrite Hwait, Hatt, removelast_attemptsFrom.
    conjuncts.
    + reflexivity.
    + apply Forall_forall. intros d Hd. apply in_map_iff in Hd.
      destruct Hd as (a & <- & Ha). apply In_attemptsFrom in Ha.
      apply delayMs_bounds. lia.
    + apply delays_sorted.
Qed.

End McpEntryMore.

(* ================================================================= *)
(** ** The init hook of the CLI *)

Section InitHookMore.
Import Js InitHook.

Lemma includes_In :
  forall args word, includes args word = true <-> In word args.
Proof.
  intros args word. unfold includes. rewrite existsb_exists. split.
  - intros (x & Hx & E). apply String.eqb_eq in E. now subst.
  - intros H. exists word. split; [exact H | apply String.eqb_refl].
Qed.


End InitHookMore.

(* ================================================================= *)
(** ** Time estimation: the display of the system *)

Section SystemDisplayMore.
Import TimeEstimate SystemDisplay.

Lemma length_append :
  forall s1 s2 : string,
    String.length (s1 ++ s2) = (String.length s1 + String.length s2)%nat.
Proof.
  induction s1 as [| c s1 IH]; intros s2; simpl; [reflexivity |].
  now rewrite IH.
Qed.

Lemma length_substring_0 :
  forall n s, (n <= String.length s)%nat ->
              String.length (substring 0 n s) = n.
Proof.
  induction n as [| n IH]; intros s H.
  - destruct s; reflexivity.
  - destruct s as [| c s]; simpl in *; [lia |].
    rewrite IH; [reflexivity | lia].
Qed.

Lemma cpuName_length :
  forall info, (String.length (cpuName info) <= 40)%nat.
Proof.
  intros info. unfold cpuName.
  set (cleaned := trim _).
  destruct (40 <? String.length cleaned)%nat eqn:E.
  - apply Nat.ltb_lt in E.
    rewrite length_append, length_substring_0 by lia. simpl. lia.
  - apply Nat.ltb_ge in E. exact E.
Qed.

Lemma show_small :
  forallb (fun n => (String.length (show (Z.of_nat n)) <=? 4)%nat)
          (seq 0 (Z.to_nat 10000)) = true.
Proof. vm_compute. reflexivity. Qed.

Lemma show_length_4 :
  forall z, 0 <= z < 10000 -> (String.length (show z) <= 4)%nat.
Proof.
  intros z Hz. pose proof show_small as H.
  rewrite forallb_forall in H.
  specialize (H (Z.to_nat z)).
  rewrite Z2Nat.id in H by lia.
  apply Nat.leb_le. apply H. apply in_seq. lia.
Qed.

(** X22: the displayed CPU name has at most 40 characters, the dots of
    a cut name included; the whole display exceeds it by the digits of
    the core count and nine characters, so that up to 9999 cores it has
    at most 53 characters. *)
Theorem formatSystemInfo_length :
  forall info,
    (String.length (cpuName info) <= 40)%nat
    /\ String.length (formatSystemInfo info)
       = (String.length (cpuName info) + 9
          + String.length (show (cpuCores info)))%nat
    /\ (0 <= cpuCores info < 10000 ->
        (String.length (formatSystemInfo info) <= 53)%nat).
Proof.
  intros info.
  assert (Hlen : String.length (formatSystemInfo info)
                 = (String.length (cpuName info) + 9
                    + String.length (show (cpuCores info)))%nat).
  { unfold formatSystemInfo. rewrite !length_append. simpl. lia. }
  pose proof (cpuName_length info) as Hname.
  split; [exact Hname | split; [exact Hlen |]].
  intros Hcores. pose proof (show_length_4 _ Hcores). lia.
Qed.

Lemma collapseSpaces_singleSpaced :
  forall s inRun,
    singleSpaced (collapseSpaces inRun s) = true
    /\ (inRun = true -> startsWithLetter (collapseSpaces inRun s) = true).
Proof.
  induction s as [| c rest IH]; intros inRun; simpl; [tauto |].
  destruct (isWhiteSpace c) eqn:W.
  - destruct inRun.
    + apply IH.
    + split; [| discriminate]. simpl.
      destruct (IH true) as [H1 H2]. rewrite H1, H2; reflexivity.
  - simpl. rewrite W. simpl. split; [apply IH | reflexivity].
Qed.

Lemma trimStart_singleSpaced :
  forall s,
    singleSpaced s = true ->
    singleSpaced (trimStart s) = true
    /\ startsWithLetter (trimStart s) = true.
Proof.
  induction s as [| c rest IH]; intros H; simpl; [tauto |].
  destruct (isWhiteSpace c) eqn:W.
  - apply IH. simpl in H. apply andb_prop in H. tauto.
  - split; [exact H | simpl; now rewrite W].
Qed.

Lemma trimEnd_head :
  forall s d kept,
    trimEnd s = String d kept -> exists rest, s = String d rest.
Proof.
  intros [| c rest] d kept H; simpl in H; [discriminate |].
  destruct (trimEnd rest).
  - destruct (isWhiteSpace c); [discriminate |].
    injection H as <- _. now exists rest.
  - injection H as <- _. now exists rest.
Qed.

Lemma wellSpaced_cons :
  forall afterLetter c rest,
    wellSpaced afterLetter (String c rest)
    = if isWhiteSpace c
      then Ascii.eqb c " "%char && afterLetter
           && (startsWithLetter rest && negb (Nat.eqb (String.length rest) 0))
           && wellSpaced false rest
      else wellSpaced true rest.
Proof.
  intros afterLetter c [| d rest]; simpl; destruct (isWhiteSpace c);
    try reflexivity.
  now rewrite Bool.andb_true_r.
Qed.

Lemma trimEnd_wellSpaced :
  forall s afterLetter,
    singleSpaced s = true ->
    (afterLetter = false -> startsWithLetter s = true) ->
    wellSpaced afterLetter (trimEnd s) = true.
Proof.
  induction s as [| c rest IH]; intros afterLetter Hs Hstart;
    [reflexivity |].
  simpl in Hs. apply andb_prop in Hs. destruct Hs as [Hc Hrest].
  assert (IHt : forall b, (b = false -> startsWithLetter rest = true) ->
                          wellSpaced b (trimEnd rest) = true)
    by (intros b Hb; now apply IH).
  clear IH. simpl trimEnd.
  destruct (trimEnd rest) as [| d kept] eqn:T.
  - destruct (isWhiteSpace c) eqn:W; [reflexivity |].
    simpl. now rewrite W.
  - destruct (trimEnd_head _ _ _ T) as (rest' & Erest).
    rewrite wellSpaced_cons. destruct (isWhiteSpace c) eqn:W.
    + apply andb_prop in Hc. destruct Hc as [Hspace Hnext].
      rewrite Hspace, (IHt false (fun _ => Hnext)).
      rewrite Erest in Hnext. simpl in Hnext. simpl startsWithLetter.
      rewrite Hnext. simpl.
      destruct afterLetter; [reflexivity |].
      specialize (Hstart eq_refl). simpl in Hstart.
      rewrite W in Hstart. discriminate.
    + apply IHt. discriminate.
Qed.

Lemma truncated_wellSpaced :
  forall n s afterLetter,
    wellSpaced afterLetter s = true ->
    wellSpaced afterLetter (substring 0 n s ++ "...") = true.
Proof.
  induction n as [| n IH]; intros s afterLetter H.
  - destruct s; reflexivity.
  - destruct s as [| c rest]; [reflexivity |].
    simpl in *. destruct (isWhiteSpace c) eqn:W.
    + apply andb_prop in H. destruct H as [H Hrest].
      apply andb_prop in H. destruct H as [H Hnext].
      rewrite H. simpl. rewrite (IH _ _ Hrest), Bool.andb_true_r.
      destruct rest as [| d rest']; [discriminate |].
      destruct n; simpl; [reflexivity | exact Hnext].
    + now apply IH.
Qed.

(** X23: the displayed CPU name holds no tab and no line break, it
    neither starts nor ends with white space, and between two of its
    words there is one space only, also after the cut of a long name. *)
Theorem cpuName_wellSpaced :
  forall info, wellSpaced false (cpuName info) = true.
Proof.
  intros info. unfold cpuName, trim.
  set (collapsed := collapseSpaces false _).
  assert (H : wellSpaced false (trimEnd (trimStart collapsed)) = true).
  { destruct (collapseSpaces_singleSpaced
                (removeCpuClock
                   (removeTrademark (removeRegistered (cpuModel info))))
                false) as [Hs _].
    destruct (trimStart_singleSpaced _ Hs) as [H1 H2].
    apply trimEnd_wellSpaced; [exact H1 | intros _; exact H2]. }
  destruct (40 <? String.length (trimEnd (trimStart collapsed)))%nat;
    [now apply truncated_wellSpaced | exact H].
Qed.

End SystemDisplayMore.

(* ================================================================= *)
(** ** The further properties on sample data *)

Section OnMoreSamples.
Import Js Samples MoreSamples.

Lemma chunkText_provenance_witness :
  CodeChunker.chunkText NodePath.extname CodeChunker.sampleCodeChunk
                        defaultChunker "let x = 1" "src/Utils.TS"
  = Return [utilsChunk]
  /\ exists language codeChunks,
       CodeChunker.detectLanguage NodePath.extname "src/Utils.TS"
       = Some language
       /\ CodeChunker.sampleCodeChunk "src/Utils.TS" "let x = 1"
            (CodeChunker.optionsFor defaultChunker language)
          = Return codeChunks
       /\ length [utilsChunk] = length codeChunks
       /\ Forall2 (fun chunk external =>
                     CodeChunker.sourceFile (CodeChunker.metadata chunk)
                     = "src/Utils.TS"
                     /\ CodeChunker.language (CodeChunker.metadata chunk)
                        = Some language
                     /\ exists context,
                          CodeChunker.codeContext (CodeChunker.metadata chunk)
                          = Some context
                          /\ map CodeChunker.scope_name
                                 (CodeChunker.scope context)
                             = map CodeChunker.cc_scope_name
                                   (CodeChunker.cc_scope
                                      (CodeChunker.cc_context external))
                          /\ map CodeChunker.entity_name
                                 (CodeChunker.entities context)
                             = map CodeChunker.cc_entity_name
                                   (CodeChunker.cc_entities
                                      (CodeChunker.cc_context external))
                          /\ map CodeChunker.sibling_name
                                 (CodeChunker.siblings context)
                             = map CodeChunker.cc_sibling_name
                                   (CodeChunker.cc_siblings
                                      (CodeChunker.cc_context external))
                          /\ map CodeChunker.import_name
                                 (CodeChunker.imports context)
                             = map CodeChunker.cc_import_name
                                   (CodeChunker.cc_imports
                                      (CodeChunker.cc_context external)))
                  [utilsChunk] codeChunks.
Proof.
  split; [exact chunkText_sample |].
  exact (chunkText_provenance NodePath.extname CodeChunker.sampleCodeChunk
           defaultChunker "let x = 1" "src/Utils.TS" [utilsChunk]
           chunkText_sample).
Defined.

Lemma chunkSourceFiles_provenance_witness :
  CodeChunker.chunkSourceFiles NodePath.extname CodeChunker.sampleCodeChunk
                               sampleAccepts defaultChunker sampleBatch
  = Return [utilsChunk]
  /\ In utilsChunk [utilsChunk]
  /\ exists file,
       In file sampleBatch
       /\ CodeChunker.isSupported NodePath.extname
                                  (CodeChunker.relativePath file) = true
       /\ CodeChunker.sourceFile (CodeChunker.metadata utilsChunk)
          = CodeChunker.relativePath file
       /\ CodeChunker.language (CodeChunker.metadata utilsChunk)
          = CodeChunker.detectLanguage NodePath.extname
                                       (CodeChunker.relativePath file).
Proof.
  split; [exact chunkSourceFiles_sample |].
  split; [now left |].
  exact (chunkSourceFiles_provenance NodePath.extname
           CodeChunker.sampleCodeChunk sampleAccepts defaultChunker sampleBatch
           [utilsChunk] utilsChunk chunkSourceFiles_sample
           (or_introl eq_refl)).
Defined.

Lemma tool_no_libraries_witness :
  listSample (McpSearchTargets.chosenPaths (Some "/libraries") [])
  = Return [capitalsLibrary; guideLibrary]
  /\ (McpSearchTargets.tool listSample searchInstalled (Some "/libraries") []
                            (Some ["atlas"]) 3
      = Return McpSearch.NoLibrariesFound <->
      forall lib, In lib [capitalsLibrary; guideLibrary] ->
                  ~ In (McpSearch.lib_name lib) ["atlas"])
  /\ (Some ["atlas"] = Some [] ->
      McpSearchTargets.tool listSample searchInstalled (Some "/libraries") []
                            (Some ["atlas"]) 3
      = Return McpSearch.NoLibrariesFound).
Proof.
  split; [reflexivity |].
  exact (tool_no_libraries listSample searchInstalled (Some "/libraries") []
           (Some ["atlas"]) 3 [capitalsLibrary; guideLibrary] eq_refl).
Defined.

Lemma failingSearch_capitals :
  forall l, In l [capitalsLibrary] -> returns (failingSearch l) = true.
Proof. intros l [<- | []]. vm_compute. reflexivity. Qed.

Lemma handler_first_error_witness :
  (forall l, In l [capitalsLibrary] -> returns (failingSearch l) = true)
  /\ failingSearch guideLibrary
     = Throw (ErrorObject "cannot open the library")
  /\ McpSearch.handler failingSearch
                       ([capitalsLibrary] ++ guideLibrary :: [capitalsLibrary])
                       3
     = Throw (ErrorObject "cannot open the library").
Proof.
  split; [exact failingSearch_capitals |].
  split; [reflexivity |].
  exact (handler_first_error failingSearch [capitalsLibrary] guideLibrary
           [capitalsLibrary] (ErrorObject "cannot open the library") 3
           failingSearch_capitals eq_refl).
Defined.

Lemma searchInstalled_returns :
  forall lib, In lib [capitalsLibrary; guideLibrary] ->
              returns (searchInstalled lib) = true.
Proof. intros lib [<- | [<- | []]]; vm_compute; reflexivity. Qed.

Lemma two_targets : [capitalsLibrary; guideLibrary] <> [].
Proof. discriminate. Qed.

Lemma handler_returns_gathered_witness :
  [capitalsLibrary; guideLibrary] <> []
  /\ (forall lib, In lib [capitalsLibrary; guideLibrary] ->
                  returns (searchInstalled lib) = true)
  /\ exists limitedResults,
       McpSearch.handler searchInstalled [capitalsLibrary; guideLibrary] 3
       = Return (McpSearch.Formatted limitedResults)
       /\ (forall item,
              In item limitedResults ->
              In item (McpSearchTargets.gathered
                         searchInstalled [capitalsLibrary; guideLibrary]))
       /\ ((inject_Z
              (Z.of_nat
                 (length (McpSearchTargets.gathered
                            searchInstalled [capitalsLibrary; guideLibrary])))
            <= 3)%Q ->
           Permutation (McpSearchTargets.gathered
                          searchInstalled [capitalsLibrary; guideLibrary])
                       limitedResults).
Proof.
  split; [exact two_targets |].
  split; [exact searchInstalled_returns |].
  exact (handler_returns_gathered searchInstalled
           [capitalsLibrary; guideLibrary] 3 two_targets
           searchInstalled_returns).
Defined.

Lemma guideResults_returned :
  searchInstalled guideLibrary = Return guideResults.
Proof. vm_compute. reflexivity. Qed.

Lemma guideResults_descend :
  McpSearch.scoresDescend (map (McpSearch.toItem guideLibrary) guideResults).
Proof.
  vm_compute.
  repeat (constructor; [| repeat constructor; discriminate]).
  constructor.
Qed.

Lemma zero_le_two : (0 <= 2)%Q.
Proof. discriminate. Qed.

Lemma handler_single_library_keeps_order_witness :
  searchInstalled guideLibrary = Return guideResults
  /\ McpSearch.scoresDescend
       (map (McpSearch.toItem guideLibrary) guideResults)
  /\ (0 <= 2)%Q
  /\ McpSearch.handler searchInstalled [guideLibrary] 2
     = Return (McpSearch.Formatted
                 (firstn (Z.to_nat (JsArray.ToIntegerOrInfinity 2))
                         (map (McpSearch.toItem guideLibrary) guideResults))).
Proof.
  split; [exact guideResults_returned |].
  split; [exact guideResults_descend |].
  split; [exact zero_le_two |].
  exact (handler_single_library_keeps_order searchInstalled guideLibrary
           guideResults 2 guideResults_returned guideResults_descend
           zero_le_two).
Defined.

Lemma minus_two_le : (-2 <= -1)%Q.
Proof. discriminate. Qed.

Lemma handler_negative_topK_witness :
  [capitalsLibrary; guideLibrary] <> []
  /\ (forall lib, In lib [capitalsLibrary; guideLibrary] ->
                  returns (searchInstalled lib) = true)
  /\ (-2 <= -1)%Q
  /\ McpSearch.handler searchInstalled [capitalsLibrary; guideLibrary] (-2)
     = Return (McpSearch.Formatted
                 (firstn (length (McpSearchTargets.gathered
                                    searchInstalled
                                    [capitalsLibrary; guideLibrary])
                          - Z.to_nat (- Qceiling (-2)))
                         (JsArray.sort McpSearch.byScore
                            (McpSearchTargets.gathered
                               searchInstalled
                               [capitalsLibrary; guideLibrary])))).
Proof.
  split; [exact two_targets |].
  split; [exact searchInstalled_returns |].
  split; [exact minus_two_le |].
  exact (handler_negative_topK searchInstalled
           [capitalsLibrary; guideLibrary] (-2) two_targets
           searchInstalled_returns minus_two_le).
Defined.

Lemma getBaselineChunksPerSecond_monotone_in_cores_witness :
  8 <= 16
  /\ (TimeEstimate.getBaselineChunksPerSecond
        (TimeEstimate.mkSystemInfo "AMD Ryzen 7" 8 32 "linux" "x64")
      <= TimeEstimate.getBaselineChunksPerSecond
           (TimeEstimate.mkSystemInfo "AMD Ryzen 7" 16 64 "linux" "x64"))%Q.
Proof.
  split; [lia |].
  apply (getBaselineChunksPerSecond_monotone_in_cores
           "AMD Ryzen 7" "linux" "x64" 32 64 8 16).
  lia.
Defined.

Lemma zero_le_hundred : (0 <= 100)%Q.
Proof. discriminate. Qed.

Lemma estimatedSeconds_bounds_witness :
  (0 <= 100)%Q
  /\ (100 / 70
      <= TimeEstimate.estimatedSeconds
           (TimeEstimate.estimateEmbeddingTime workstation 100)
      <= 100 / 8)%Q
  /\ ((100 <= 200)%Q ->
      (TimeEstimate.estimatedSeconds
         (TimeEstimate.estimateEmbeddingTime workstation 100)
       <= TimeEstimate.estimatedSeconds
            (TimeEstimate.estimateEmbeddingTime workstation 200))%Q).
Proof.
  split; [exact zero_le_hundred |].
  exact (estimatedSeconds_bounds workstation 100 200 zero_le_hundred).
Defined.

Lemma hour_le : (3600 <= 3725)%Q.
Proof. discriminate. Qed.

Lemma formatTime_hours_witness :
  (3600 <= 3725)%Q
  /\ TimeEstimate.formatTime 3725 = "1h 2m"
  /\ let minutes := Qfloor (3725 / 60) in
     TimeEstimate.formatTime 3725
     = (if 0 <? minutes mod 60
        then TimeEstimate.show (minutes / 60) ++ "h "
             ++ TimeEstimate.show (minutes mod 60) ++ "m"
        else TimeEstimate.show (minutes / 60) ++ "h")
     /\ 1 <= minutes / 60
     /\ 0 <= minutes mod 60 < 60
     /\ forall s', Qfloor (s' / 60) = minutes ->
                   TimeEstimate.formatTime s' = TimeEstimate.formatTime 3725.
Proof.
  split; [exact hour_le |].
  split; [vm_compute; reflexivity |].
  exact (formatTime_hours 3725 hour_le).
Defined.

Lemma minute_le : (60 <= 90)%Q.
Proof. discriminate. Qed.

Lemma below_hour : (90 < 3600)%Q.
Proof. reflexivity. Qed.

Lemma formatTime_minutes_witness :
  (60 <= 90)%Q
  /\ (90 < 3600)%Q
  /\ TimeEstimate.formatTime 90 = "1m 30s"
  /\ let minutes := Qfloor (90 / 60) in
     let remainingSeconds :=
       TimeEstimate.round (TimeEstimate.remainder 90 60) in
     TimeEstimate.formatTime 90
     = (if 0 <? remainingSeconds
        then TimeEstimate.show minutes ++ "m "
             ++ TimeEstimate.show remainingSeconds ++ "s"
        else TimeEstimate.show minutes ++ "m")
     /\ 1 <= minutes <= 59
     /\ 0 <= remainingSeconds <= 60
     /\ (remainingSeconds = 60 <->
         (60 * inject_Z minutes + (119 # 2) <= 90)%Q).
Proof.
  split; [exact minute_le |].
  split; [exact below_hour |].
  split; [vm_compute; reflexivity |].
  exact (formatTime_minutes 90 minute_le below_hour).
Defined.

Lemma sampleRoots_checks_return :
  forall root,
    In root sampleRoots -> McpServer.checked sampleDetect root = true ->
    returns (sampleHas (McpServer.rootPathOf (McpServer.uri root))) = true.
Proof. intros root _ _. reflexivity. Qed.

Lemma failingHas_first_root :
  forall r,
    In r [McpServer.mkRoot "file:///work/app" (Some "app")] ->
    McpServer.checked sampleDetect r = true ->
    returns (failingHas (McpServer.rootPathOf (McpServer.uri r))) = true.
Proof. intros r [<- | []] _. vm_compute. reflexivity. Qed.

Lemma failingHas_second_root :
  failingHas (McpServer.rootPathOf "file:///C:/work/tool")
  = Throw (ErrorObject "EACCES: permission denied").
Proof. vm_compute. reflexivity. Qed.

Lemma updateLibraryPathsFromRoots_outcome_witness :
  McpServer.updateLibraryPathsFromRoots
    globalDir sampleDetect sampleHas
    (McpServer.initialLibraryPaths globalDir) sampleRoots
  = (Return tt,
     McpServer.mkLibraryPaths
       (flat_map (McpServer.projectDirs sampleDetect sampleHas) sampleRoots
        ++ [globalDir])%list
       true)
  /\ flat_map (McpServer.projectDirs sampleDetect sampleHas) sampleRoots
     = ["/work/app/.libragen/libraries"]
  /\ McpServer.updateLibraryPathsFromRoots
       globalDir sampleDetect failingHas
       (McpServer.initialLibraryPaths globalDir) sampleRoots
     = (Throw (ErrorObject "EACCES: permission denied"),
        McpServer.initialLibraryPaths globalDir).
Proof.
  split; [| split].
  - exact (proj1 (updateLibraryPathsFromRoots_outcome
                    globalDir sampleDetect sampleHas
                    (McpServer.initialLibraryPaths globalDir) sampleRoots)
                 sampleRoots_checks_return).
  - vm_compute. reflexivity.
  - exact (proj2 (updateLibraryPathsFromRoots_outcome
                    globalDir sampleDetect failingHas
                    (McpServer.initialLibraryPaths globalDir) sampleRoots)
                 [McpServer.mkRoot "file:///work/app" (Some "app")]
                 (McpServer.mkRoot "file:///C:/work/tool" None) []
                 (ErrorObject "EACCES: permission denied")
                 eq_refl failingHas_first_root eq_refl
                 failingHas_second_root).
Defined.

Lemma sampleRoots_reachable :
  McpServer.reachable globalDir sampleDetect sampleHas
    (snd (McpServer.updateLibraryPathsFromRoots
            globalDir sampleDetect sampleHas
            (McpServer.initialLibraryPaths globalDir) sampleRoots)).
Proof. apply McpServer.reachable_update. apply McpServer.reachable_initial. Qed.

Lemma libraryPaths_never_empty_witness :
  let libraryPaths :=
    snd (McpServer.updateLibraryPathsFromRoots
           globalDir sampleDetect sampleHas
           (McpServer.initialLibraryPaths globalDir) sampleRoots) in
  McpServer.reachable globalDir sampleDetect sampleHas libraryPaths
  /\ McpServer.paths libraryPaths
     = ["/work/app/.libragen/libraries"; globalDir]
  /\ last (McpServer.paths libraryPaths) "" = globalDir
  /\ McpServer.paths libraryPaths <> []
  /\ (McpServer.initialized libraryPaths = false ->
      McpServer.paths libraryPaths = [globalDir])
  /\ forall librariesDir,
       McpSearchTargets.chosenPaths
         librariesDir (McpServer.getLibraryPaths libraryPaths)
       <> [].
Proof.
  split; [exact sampleRoots_reachable |].
  split; [vm_compute; reflexivity |].
  exact (libraryPaths_never_empty globalDir sampleDetect sampleHas _
           sampleRoots_reachable).
Defined.

End OnMoreSamples.
